(** * The RAG pipeline of the repository: chunking, embedding, indexing, search

    A shallow embedding of [chunkingService.ts], [embeddingService.ts],
    [ragService.ts] and of the separator detection of [fileParserService.ts],
    followed by the properties the specification states about them; then of
    the code around them: the parsers of text and CSV files and the
    background indexing of [datasetService.ts], the request and the errors of
    [aiService.ts], and the search block of [useAI.ts].

    Conventions.  A JavaScript string is the list of its UTF-16 code units
    ([jsstring]); indices, lengths and counters are [nat]; configuration
    numbers are [Z]; every quantity the source obtains by a division is a
    binary64 [float], computed with the kernel's IEEE 754 operations.  The
    network, the clock and the vector store are one explicit [World] that the
    asynchronous code threads through its calls; [Db] adds the scripts of the
    delete and select requests. *)

From Stdlib Require Import Ascii String DecimalString.
From Stdlib Require Import List ZArith NArith Arith Bool Lia Floats.
From Equations Require Import Equations.
Import ListNotations.

Set Warnings "-inexact-float".
Local Open Scope list_scope.
Local Open Scope nat_scope.

(** ** JavaScript strings *)

Module Js.

Definition jsstring := list N.

Definition LF : N := 10.
Definition TAB : N := 9.
Definition BACKSLASH : N := 92.

(** A source literal, read as the JavaScript lexer reads it: [\n], [\t] and
    [\\] are escapes, every other character stands for its own code. *)
Fixpoint js (s : string) : jsstring :=
  match s with
  | EmptyString => []
  | String c rest =>
      if N.eqb (N_of_ascii c) BACKSLASH then
        match rest with
        | String d rest' =>
            (if N.eqb (N_of_ascii d) 110 then LF
             else if N.eqb (N_of_ascii d) 116 then TAB
             else N_of_ascii d) :: js rest'
        | EmptyString => [BACKSLASH]
        end
      else N_of_ascii c :: js rest
  end.
Arguments js _%_string.

(** [WhiteSpace] and [LineTerminator] of ECMAScript: what [trim] strips and
    what [\s] matches. *)
Definition is_space (c : N) : bool :=
  ((9 <=? c) && (c <=? 13) || (c =? 32) || (c =? 160) || (c =? 5760)
   || (8192 <=? c) && (c <=? 8202) || (c =? 8232) || (c =? 8233)
   || (c =? 8239) || (c =? 8287) || (c =? 12288) || (c =? 65279))%N.

Fixpoint trimStart (s : jsstring) : jsstring :=
  match s with
  | [] => []
  | c :: r => if is_space c then trimStart r else s
  end.

Definition trimEnd (s : jsstring) : jsstring := rev (trimStart (rev s)).

Definition trim (s : jsstring) : jsstring := trimEnd (trimStart s).

(** Truthiness of a string: the empty string is falsy. *)
Definition truthy (s : jsstring) : bool :=
  match s with [] => false | _ :: _ => true end.

Fixpoint str_eqb (a b : jsstring) : bool :=
  match a, b with
  | [], [] => true
  | x :: a', y :: b' => N.eqb x y && str_eqb a' b'
  | _, _ => false
  end.

Fixpoint starts_with (p s : jsstring) : bool :=
  match p, s with
  | [], _ => true
  | a :: p', b :: s' => N.eqb a b && starts_with p' s'
  | _ :: _, [] => false
  end.

(** [s.split(sep)] for a non-empty separator: the text is scanned from the
    left, [cur] is the piece being read (reversed) and [skip] counts the code
    units of a separator just matched that are still to be passed over. *)
Fixpoint split_go (sep : jsstring) (skip : nat) (cur s : jsstring) : list jsstring :=
  match s with
  | [] => [rev cur]
  | c :: s' =>
      match skip with
      | S k => split_go sep k cur s'
      | O =>
          if starts_with sep s
          then rev cur :: split_go sep (length sep - 1) [] s'
          else split_go sep 0 (c :: cur) s'
      end
  end.

Definition split (sep s : jsstring) : list jsstring := split_go sep 0 [] s.

Fixpoint join (sep : jsstring) (parts : list jsstring) : jsstring :=
  match parts with
  | [] => []
  | [p] => p
  | p :: rest => p ++ sep ++ join sep rest
  end.

(** [a.slice(i, j)] on an array, for indices that are already in range order. *)
Definition slice {A} (l : list A) (i j : nat) : list A := firstn (j - i) (skipn i l).

(** [s.slice(start)] on a string: a negative start counts from the end. *)
Definition str_slice_from (s : jsstring) (start : Z) : jsstring :=
  if (start <? 0)%Z
  then skipn (Z.to_nat (Z.max (Z.of_nat (length s) + start) 0)) s
  else skipn (Z.to_nat start) s.

(** [s.substring(0, e)] for a non-negative [e]. *)
Definition substring0 (s : jsstring) (e : nat) : jsstring := firstn e s.

(** Decimal rendering of a non-negative integer, as a template literal does. *)
Definition of_nat (n : nat) : jsstring :=
  js (NilZero.string_of_uint (Nat.to_uint n)).

(** [s.toLowerCase()] on the code units A-Z.  The full Unicode mapping also
    changes units outside ASCII, none of which becomes a letter of the four
    format tags the result is compared with. *)
Definition toLowerCase (s : jsstring) : jsstring :=
  map (fun c => if ((65 <=? c) && (c <=? 90))%N then (c + 32)%N else c) s.

(** The regular expression [/[.!?]\s/] of [getOverlap]: index of the first
    match, [None] for the [-1] of [search]. *)
Definition is_sentence_end (c : N) : bool := ((c =? 46) || (c =? 33) || (c =? 63))%N.

Fixpoint search_sentence_end (s : jsstring) : option nat :=
  match s with
  | [] => None
  | c :: r =>
      if is_sentence_end c && match r with d :: _ => is_space d | [] => false end
      then Some 0
      else option_map S (search_sentence_end r)
  end.

(** The regular expression [/\n\s*\n/] of [chunkText].  After the first line
    feed, the greedy [\s*] takes the whole run of white space and backtracks
    to the last line feed of that run: [ws_run_last_lf] returns how many units
    of the run the match covers. *)
Fixpoint ws_run_last_lf (s : jsstring) (n : nat) (best : option nat) : option nat :=
  match s with
  | [] => best
  | c :: r =>
      if is_space c
      then ws_run_last_lf r (S n) (if N.eqb c LF then Some (S n) else best)
      else best
  end.

Definition match_blank_line (s : jsstring) : option nat :=
  match s with
  | c :: r => if N.eqb c LF then option_map S (ws_run_last_lf r 0 None) else None
  | [] => None
  end.

(** [s.split(/\n\s*\n/)]. *)
Fixpoint split_blank_go (skip : nat) (cur s : jsstring) : list jsstring :=
  match s with
  | [] => [rev cur]
  | c :: s' =>
      match skip with
      | S k => split_blank_go k cur s'
      | O =>
          match match_blank_line s with
          | Some len => rev cur :: split_blank_go (len - 1) [] s'
          | None => split_blank_go 0 (c :: cur) s'
          end
      end
  end.

Definition split_paragraphs (s : jsstring) : list jsstring := split_blank_go 0 [] s.

End Js.

(** ** JavaScript numbers where the source divides *)

Module Num.

(** The binary64 value of an integer (exact below 2^53). *)
Definition of_Z (z : Z) : float := SF2Prim (binary_normalize prec emax z 0 false).

Definition of_nat (n : nat) : float := of_Z (Z.of_nat n).

(** An integral number as [Math.floor] returns it. *)
Inductive integral : Type :=
| Finite (z : Z)
| PosInf
| NegInf
| NaN.

Definition Math_floor (x : float) : integral :=
  match Prim2SF x with
  | S754_zero _ => Finite 0
  | S754_finite s m e => Finite (Z.shiftl (if s then Z.neg m else Z.pos m) e)
  | S754_infinity false => PosInf
  | S754_infinity true => NegInf
  | S754_nan => NaN
  end.

(** [Math.max(x, m)] for an integer literal [m]. *)
Definition Math_max (x : integral) (m : Z) : integral :=
  match x with
  | Finite z => Finite (Z.max z m)
  | PosInf => PosInf
  | NegInf => Finite m
  | NaN => NaN
  end.

(** [for (let i = start; i < n; i += step)]: the values [i] takes.  Every
    loop of the source has a step of at least 1; a step of 0, with which the
    source would not terminate, is read as 1. *)
Equations? strides (i step n : nat) : list nat by wf (n - i) lt :=
  strides i step n with lt_dec i n => {
    | left _ := i :: strides (i + S (pred step)) step n;
    | right _ := [] }.
Proof. lia. Qed.

(** The same loop when the step is a number computed with [Math.max(.., m)],
    [m >= 1]: a finite step is at least [m]; after [i += Infinity] or
    [i += NaN] the test [i < n] is false, so the body runs at most once. *)
Definition loop_indices (start : nat) (step : integral) (n : nat) : list nat :=
  match step with
  | Finite z => strides start (Z.to_nat z) n
  | _ => if start <? n then [start] else []
  end.

(** [a.slice(i, i + step)]: an infinite end takes the rest, a [NaN] end is 0. *)
Definition slice_step {A} (l : list A) (i : nat) (step : integral) : list A :=
  match step with
  | Finite z => Js.slice l i (i + Z.to_nat z)
  | PosInf => skipn i l
  | _ => []
  end.

(** [Math.min(i + step - 1, last)].  With a [NaN] step the source yields
    [NaN]; such a step needs a text of length 0, for which the loop of
    [chunkCSV] has no iteration and [JSON.parse] throws, so the case is
    given the value [last]. *)
Definition min_end (i : nat) (step : integral) (last : nat) : nat :=
  match step with
  | Finite z => Nat.min (i + Z.to_nat z - 1) last
  | _ => last
  end.

End Num.

(** ** rag.types.ts *)

Import Js.

Record ChunkMetadata := {
  chunk_index : nat;
  source_file : jsstring;
  file_type : jsstring;
  section : option jsstring;
  page_number : option nat;
  line_start : option nat;
  line_end : option nat;
  tokens : nat
}.

Record ChunkData := {
  content : jsstring;
  metadata : ChunkMetadata
}.

Record ChunkingConfig := {
  chunkSize : Z;
  chunkOverlap : Z;
  respectSentences : bool;
  respectParagraphs : bool;
  minChunkSize : Z
}.

Definition DEFAULT_CHUNKING_CONFIG : ChunkingConfig :=
  {| chunkSize := 1000; chunkOverlap := 200; respectSentences := true;
     respectParagraphs := true; minChunkSize := 100 |}.

Record EmbeddingProvider := {
  name : jsstring;
  model : jsstring;
  dimensions : nat;
  maxTokens : nat;
  costPer1KTokens : float
}.

Definition EMBEDDING_PROVIDERS : list (jsstring * EmbeddingProvider) :=
  [ (js "gemini-embedding-004",
     {| name := js "Google Gemini"; model := js "text-embedding-004";
        dimensions := 768; maxTokens := 2048; costPer1KTokens := 0.00001%float |}) ].

Record IndexingStats := {
  total_chunks : nat;
  total_embeddings : nat;
  total_tokens : nat;
  processing_time_ms : Z;
  cost_estimate : float;
  errors : list jsstring
}.

(** [metadata: any] of a match, read through [metadata?.source_file] and
    [metadata?.section]: either may be missing. *)
Record MatchMetadata := {
  m_source_file : option jsstring;
  m_section : option jsstring
}.

Record SimilarityMatch := {
  sm_id : jsstring;
  sm_content : jsstring;
  sm_metadata : option MatchMetadata;
  similarity : float
}.

Record RAGSearchResult := {
  matches : list SimilarityMatch;
  query : jsstring;
  threshold : float;
  total_matches : nat
}.

Record RAGSearchStats := {
  query_time_ms : Z;
  total_embeddings_searched : nat;
  matches_found : nat;
  similarity_scores : list float
}.

Record RAGConfig := {
  embeddingProvider : jsstring;
  chunkingConfig : ChunkingConfig;
  similarityThreshold : float;
  maxMatches : Z;
  includeMetadata : bool
}.

Definition DEFAULT_RAG_CONFIG : RAGConfig :=
  {| embeddingProvider := js "gemini-embedding-004";
     chunkingConfig := DEFAULT_CHUNKING_CONFIG;
     similarityThreshold := 0.7%float; maxMatches := 5; includeMetadata := true |}.

(** ** chunkingService.ts *)

(** A parsed JSON value.  [JSON.parse] and [JSON.stringify] are built-ins of
    the language, not code of the repository: the chunker takes them as
    parameters ([None] stands for the [SyntaxError] that [JSON.parse] throws). *)
#[local] Unset Elimination Schemes.
Inductive JsonValue : Type :=
| JNull
| JBool (b : bool)
| JNumber (x : float)
| JString (s : jsstring)
| JArray (items : list JsonValue)
| JObject (fields : list (jsstring * JsonValue)).
#[local] Set Elimination Schemes.

Module ChunkingService.

(** [Math.ceil(text.length / 4)]: the division by 4 is exact in binary64. *)
Definition estimateTokens (text : jsstring) : nat := (length text + 3) / 4.

Definition countLines (text : jsstring) : nat := length (split (js "\n") text).

Definition getOverlap (text : jsstring) (overlapSize : Z) : jsstring :=
  if (overlapSize >=? Z.of_nat (length text))%Z then text
  else
    let lastPart := str_slice_from text (- overlapSize) in
    match search_sentence_end lastPart with
    | Some (S k) => skipn (S k + 2) lastPart
    | _ => lastPart
    end.

(** *** chunkCSV *)

(** The object pushed by one iteration of the loop of [chunkCSV]. *)
Definition csvChunk (fileName headers : jsstring) (lines : list jsstring)
  (linesPerChunk : Num.integral) (chunks : list ChunkData) (i : nat) : ChunkData :=
  let chunkLines := Num.slice_step lines i linesPerChunk in
  let chunkContent := headers ++ js "\n" ++ join (js "\n") chunkLines in
  let last := Num.min_end i linesPerChunk (length lines - 1) in
  {| content := chunkContent;
     metadata :=
       {| chunk_index := length chunks;
          source_file := fileName;
          file_type := js "csv";
          section := Some (js "Lignes " ++ Js.of_nat i ++ js "-" ++ Js.of_nat last);
          page_number := None;
          line_start := Some i;
          line_end := Some last;
          tokens := estimateTokens chunkContent |} |}.

Definition chunkCSV (csvContent fileName : jsstring) (config : ChunkingConfig)
  : list ChunkData :=
  let lines := split (js "\n") csvContent in
  match lines with
  | [] => []
  | headers :: _ =>
      let avgLineLength := (Num.of_nat (length csvContent) / Num.of_nat (length lines))%float in
      let linesPerChunk :=
        Num.Math_max (Num.Math_floor (Num.of_Z (chunkSize config) / avgLineLength)%float) 5 in
      fold_left
        (fun chunks i => chunks ++ [csvChunk fileName headers lines linesPerChunk chunks i])
        (Num.loop_indices 1 linesPerChunk (length lines))
        []
  end.

(** *** chunkText *)

(** The object pushed by [chunkText], at both of its [push] sites. *)
Definition textChunk (content fileName : jsstring) (chunks : list ChunkData)
  (currentChunk : jsstring) (chunkStart : nat) : ChunkData :=
  {| content := trim currentChunk;
     metadata :=
       {| chunk_index := length chunks;
          source_file := fileName;
          file_type := js "txt";
          section := Some (js "Caract" ++ [232%N] ++ js "res " ++ Js.of_nat chunkStart
                           ++ js "-" ++ Js.of_nat (chunkStart + length currentChunk));
          page_number := None;
          line_start := Some (countLines (substring0 content chunkStart));
          line_end := Some (countLines (substring0 content (chunkStart + length currentChunk)));
          tokens := estimateTokens currentChunk |} |}.

(** The three variables the loop of [chunkText] updates. *)
Record TextState := {
  chunks : list ChunkData;
  currentChunk : jsstring;
  chunkStart : nat
}.

(** One iteration of [for (const paragraph of paragraphs)]. *)
Definition textStep (content fileName : jsstring) (config : ChunkingConfig)
  (st : TextState) (paragraph : jsstring) : TextState :=
  let trimmedParagraph := trim paragraph in
  if negb (truthy trimmedParagraph) then st
  else
    let st1 :=
      if (Z.of_nat (length (currentChunk st) + length trimmedParagraph) >? chunkSize config)%Z
         && (0 <? length (currentChunk st))
      then
        let chunks1 :=
          if (Z.of_nat (length (currentChunk st)) >=? minChunkSize config)%Z
          then chunks st ++ [textChunk content fileName (chunks st) (currentChunk st) (chunkStart st)]
          else chunks st in
        let overlapText := getOverlap (currentChunk st) (chunkOverlap config) in
        {| chunks := chunks1;
           currentChunk := overlapText;
           chunkStart := chunkStart st + (length (currentChunk st) - length overlapText) |}
      else st in
    {| chunks := chunks st1;
       currentChunk := currentChunk st1
                       ++ (if truthy (currentChunk st1) then js "\n\n" else []) ++ trimmedParagraph;
       chunkStart := chunkStart st1 |}.

(** The state when the loop of [chunkText] ends. *)
Definition textLoop (content fileName : jsstring) (config : ChunkingConfig) : TextState :=
  fold_left (textStep content fileName config) (split_paragraphs content)
    {| chunks := []; currentChunk := []; chunkStart := 0 |}.

(** "Ajouter le dernier chunk": what the final [if] appends. *)
Definition textFlush (content fileName : jsstring) (config : ChunkingConfig)
  (st : TextState) : list ChunkData :=
  if (Z.of_nat (length (trim (currentChunk st))) >=? minChunkSize config)%Z
  then [textChunk content fileName (chunks st) (currentChunk st) (chunkStart st)]
  else [].

Definition chunkText (content fileName : jsstring) (config : ChunkingConfig)
  : list ChunkData :=
  let st := textLoop content fileName config in
  chunks st ++ textFlush content fileName config st.

Definition chunkPDF (pdfContent fileName : jsstring) (config : ChunkingConfig)
  : list ChunkData :=
  chunkText pdfContent fileName config.

Section WithJSON.

Variable JSON_parse : jsstring -> option JsonValue.
Variable JSON_stringify : JsonValue -> jsstring.

(** *** chunkJSON *)

Definition jsonChunk (fileName : jsstring) (data : list JsonValue)
  (itemsPerChunk : Num.integral) (chunks : list ChunkData) (i : nat) : ChunkData :=
  let chunkData := Num.slice_step data i itemsPerChunk in
  let chunkContent := JSON_stringify (JArray chunkData) in
  {| content := chunkContent;
     metadata :=
       {| chunk_index := length chunks;
          source_file := fileName;
          file_type := js "json";
          section := Some (js "Items " ++ Js.of_nat i ++ js "-"
                           ++ Js.of_nat (Num.min_end i itemsPerChunk (length data - 1)));
          page_number := None;
          line_start := None;
          line_end := None;
          tokens := estimateTokens chunkContent |} |}.

Definition chunkJSON (jsonContent fileName : jsstring) (config : ChunkingConfig)
  : list ChunkData :=
  match JSON_parse jsonContent with
  | Some (JArray data) =>
      let itemsPerChunk :=
        Num.Math_max
          (Num.Math_floor
             (Num.of_Z (chunkSize config)
              / (Num.of_nat (length jsonContent) / Num.of_nat (length data)))%float) 1 in
      fold_left
        (fun chunks i => chunks ++ [jsonChunk fileName data itemsPerChunk chunks i])
        (Num.loop_indices 0 itemsPerChunk (length data))
        []
  | Some data => chunkText (JSON_stringify data) fileName config
  | None => chunkText jsonContent fileName config
  end.

(** *** chunkContent *)

Definition chunkContent (content fileType fileName : jsstring) (config : ChunkingConfig)
  : list ChunkData :=
  let tag := toLowerCase fileType in
  if str_eqb tag (js "csv") then chunkCSV content fileName config
  else if str_eqb tag (js "json") then chunkJSON content fileName config
  else if str_eqb tag (js "pdf") then chunkPDF content fileName config
  else if str_eqb tag (js "txt") then chunkText content fileName config
  else chunkText content fileName config.

End WithJSON.

End ChunkingService.

(** ** The outside world: embedding API, clock, vector store *)

Record JsError := { err_name : jsstring; err_message : jsstring }.

(** [new Error(msg)]. *)
Definition Error (msg : jsstring) : JsError :=
  {| err_name := js "Error"; err_message := msg |}.

Definition TypeError (msg : jsstring) : JsError :=
  {| err_name := js "TypeError"; err_message := msg |}.

(** [`${error}`], that is [Error.prototype.toString]. *)
Definition error_to_string (e : JsError) : jsstring :=
  if negb (truthy (err_name e)) then err_message e
  else if negb (truthy (err_message e)) then err_name e
  else err_name e ++ js ": " ++ err_message e.

(** What one [embedContent] request comes to, along the branches that
    [generateGeminiBatch] distinguishes. *)
Inductive GeminiReply : Type :=
| Rejected (e : JsError)                (* the request throws: transport error *)
| NotOk (status : nat) (detail : jsstring)
                                        (* [!response.ok]; [detail] is the text of
                                           [errorData.error?.message || errorData.error] *)
| BodyUnreadable (e : JsError)          (* [response.json()] rejects *)
| NoValues                              (* no [embedding] or no [embedding.values] *)
| Values (v : list float).             (* [data.embedding.values] *)

(** A row of the [embeddings] table as [indexDataset] builds it. *)
Record EmbeddingRecord := {
  gem_id : jsstring;
  dataset_id : jsstring;
  r_content : jsstring;
  r_metadata : ChunkMetadata;
  embedding : list float
}.

(** The answer [{ data, error }] of the [match_embeddings] function. *)
Record RpcReply := {
  rpc_data : option (list SimilarityMatch);
  rpc_error : option jsstring
}.

(** The world is scripted: the reply to the k-th request of each kind is a
    function of k and of the request, and counters record how many requests
    were made.  A run being sequential, every behaviour of the collaborators
    is such a script.  An insert that answers without error has stored its
    whole batch, one that answers with an error has stored nothing. *)
Record World := {
  gemini : nat -> jsstring -> jsstring -> GeminiReply;
  gemini_calls : nat;
  clock : nat -> Z;
  clock_reads : nat;
  slept : Z;
  insert_error : nat -> list EmbeddingRecord -> option jsstring;
  insert_calls : nat;
  embeddings_table : list EmbeddingRecord;
  match_embeddings : nat -> list float -> jsstring -> float -> Z -> RpcReply;
  rpc_calls : nat
}.

Definition set_gemini_calls (n : nat) (w : World) : World :=
  {| gemini := gemini w; gemini_calls := n; clock := clock w;
     clock_reads := clock_reads w; slept := slept w;
     insert_error := insert_error w; insert_calls := insert_calls w;
     embeddings_table := embeddings_table w;
     match_embeddings := match_embeddings w; rpc_calls := rpc_calls w |}.

Definition set_clock_reads (n : nat) (w : World) : World :=
  {| gemini := gemini w; gemini_calls := gemini_calls w; clock := clock w;
     clock_reads := n; slept := slept w;
     insert_error := insert_error w; insert_calls := insert_calls w;
     embeddings_table := embeddings_table w;
     match_embeddings := match_embeddings w; rpc_calls := rpc_calls w |}.

Definition set_slept (z : Z) (w : World) : World :=
  {| gemini := gemini w; gemini_calls := gemini_calls w; clock := clock w;
     clock_reads := clock_reads w; slept := z;
     insert_error := insert_error w; insert_calls := insert_calls w;
     embeddings_table := embeddings_table w;
     match_embeddings := match_embeddings w; rpc_calls := rpc_calls w |}.

Definition set_store (n : nat) (t : list EmbeddingRecord) (w : World) : World :=
  {| gemini := gemini w; gemini_calls := gemini_calls w; clock := clock w;
     clock_reads := clock_reads w; slept := slept w;
     insert_error := insert_error w; insert_calls := n;
     embeddings_table := t;
     match_embeddings := match_embeddings w; rpc_calls := rpc_calls w |}.

Definition set_rpc_calls (n : nat) (w : World) : World :=
  {| gemini := gemini w; gemini_calls := gemini_calls w; clock := clock w;
     clock_reads := clock_reads w; slept := slept w;
     insert_error := insert_error w; insert_calls := insert_calls w;
     embeddings_table := embeddings_table w;
     match_embeddings := match_embeddings w; rpc_calls := n |}.

(** *** Asynchronous code: state and exceptions *)

Definition M (A : Type) : Type := World -> (JsError + A) * World.

Definition ret {A} (a : A) : M A := fun w => (inr a, w).

Definition throw {A} (e : JsError) : M A := fun w => (inl e, w).

Definition bind {A B} (m : M A) (k : A -> M B) : M B :=
  fun w => match m w with
           | (inr a, w') => k a w'
           | (inl e, w') => (inl e, w')
           end.

(** [try { m } catch (error) { h error }]. *)
Definition try_catch {A} (m : M A) (h : JsError -> M A) : M A :=
  fun w => match m w with
           | (inr a, w') => (inr a, w')
           | (inl e, w') => h e w'
           end.

Declare Scope js_scope.
Delimit Scope js_scope with js.
Notation "x <- m ;; k" := (bind m (fun x => k))
  (at level 61, m at next level, right associativity) : js_scope.
Notation "m ;;; k" := (bind m (fun _ => k))
  (at level 61, right associativity) : js_scope.
Local Open Scope js_scope.

(** [for (const x of xs)] with the variables of the loop in [acc]. *)
Fixpoint forM {A S} (xs : list A) (acc : S) (body : S -> A -> M S) : M S :=
  match xs with
  | [] => ret acc
  | x :: rest => acc' <- body acc x ;; forM rest acc' body
  end.

(** [await fetch(.. embedContent ..)] followed by the reading of the body. *)
Definition fetch_embedContent (model text : jsstring) : M GeminiReply :=
  fun w => (inr (gemini w (gemini_calls w) model text),
            set_gemini_calls (S (gemini_calls w)) w).

(** [Date.now()]. *)
Definition Date_now : M Z :=
  fun w => (inr (clock w (clock_reads w)), set_clock_reads (S (clock_reads w)) w).

(** [await new Promise(resolve => setTimeout(resolve, ms))]. *)
Definition sleep (ms : Z) : M unit :=
  fun w => (inr tt, set_slept (slept w + ms)%Z w).

(** [await supabase.from('embeddings').insert(batch).select('id')]: the
    [error] field of the answer. *)
Definition supabase_insert (batch : list EmbeddingRecord) : M (option jsstring) :=
  fun w =>
    match insert_error w (insert_calls w) batch with
    | Some msg => (inr (Some msg), set_store (S (insert_calls w)) (embeddings_table w) w)
    | None => (inr None, set_store (S (insert_calls w)) (embeddings_table w ++ batch) w)
    end.

(** [await supabase.rpc('match_embeddings', ..)]. *)
Definition supabase_rpc_match (query_embedding : list float) (match_gem_id : jsstring)
  (match_threshold : float) (match_count : Z) : M RpcReply :=
  fun w => (inr (match_embeddings w (rpc_calls w) query_embedding match_gem_id
                   match_threshold match_count),
            set_rpc_calls (S (rpc_calls w)) w).

(** ** embeddingService.ts *)

Module EmbeddingService.

(** The instance state: the key read from the environment or local storage. *)
Record t := { geminiApiKey : option jsstring }.

(** The properties an object literal inherits from [Object.prototype], each
    with the [name] of its value: a method carries its own name,
    [constructor] is the function [Object], and [__proto__] is the prototype
    itself, which has no [name]. *)
Definition Object_prototype : list (jsstring * option jsstring) :=
  [ (js "constructor", Some (js "Object"));
    (js "hasOwnProperty", Some (js "hasOwnProperty"));
    (js "isPrototypeOf", Some (js "isPrototypeOf"));
    (js "propertyIsEnumerable", Some (js "propertyIsEnumerable"));
    (js "toLocaleString", Some (js "toLocaleString"));
    (js "toString", Some (js "toString"));
    (js "valueOf", Some (js "valueOf"));
    (js "__defineGetter__", Some (js "__defineGetter__"));
    (js "__defineSetter__", Some (js "__defineSetter__"));
    (js "__lookupGetter__", Some (js "__lookupGetter__"));
    (js "__lookupSetter__", Some (js "__lookupSetter__"));
    (js "__proto__", None) ].

(** [Object.prototype[key].name]: [None] when the key is not inherited,
    [Some None] when the inherited value has no [name]. *)
Fixpoint inherited_name (table : list (jsstring * option jsstring)) (key : jsstring)
  : option (option jsstring) :=
  match table with
  | [] => None
  | (k, n) :: rest => if str_eqb k key then Some n else inherited_name rest key
  end.

(** An inherited value read as a provider.  [name] holds what a template
    literal prints for [provider.name], [undefined] included; the price is
    [undefined], which the multiplication of [estimateCost] turns into
    [NaN]; [model], [dimensions] and [maxTokens] are [undefined] too, and no
    function of the service reads them of such a value. *)
Definition inherited_provider (name : option jsstring) : EmbeddingProvider :=
  {| name := match name with Some n => n | None => js "undefined" end;
     model := js "undefined";
     dimensions := 0;
     maxTokens := 0;
     costPer1KTokens := PrimFloat.nan |}.

(** The own properties of the table. *)
Fixpoint own_provider (table : list (jsstring * EmbeddingProvider))
  (providerKey : jsstring) : option EmbeddingProvider :=
  match table with
  | [] => None
  | (k, p) :: rest => if str_eqb k providerKey then Some p else own_provider rest providerKey
  end.

(** [EMBEDDING_PROVIDERS[providerKey]], [None] for [undefined]: the own
    properties of the table first, then what it inherits from
    [Object.prototype] (the table is declared [Record<string, ..>], so that
    every string is a key the types accept). *)
Definition lookup_provider (table : list (jsstring * EmbeddingProvider))
  (providerKey : jsstring) : option EmbeddingProvider :=
  match own_provider table providerKey with
  | Some p => Some p
  | None => option_map inherited_provider (inherited_name Object_prototype providerKey)
  end.

(** [EMBEDDING_PROVIDERS[providerKey].name] as a value, [None] for
    [undefined]. *)
Definition provider_name (providerKey : jsstring) : option jsstring :=
  match own_provider EMBEDDING_PROVIDERS providerKey with
  | Some p => Some (name p)
  | None =>
      match inherited_name Object_prototype providerKey with
      | Some n => n
      | None => None
      end
  end.

(** [!!this.geminiApiKey]. *)
Definition isConfigured (self : t) : bool :=
  match geminiApiKey self with
  | Some k => truthy k
  | None => false
  end.

(** Reading [provider.name] of an unknown key is a [TypeError]; an inherited
    value is not Gemini, and the answer for it is [false]. *)
Definition isProviderConfigured (self : t) (providerKey : jsstring) : JsError + bool :=
  match lookup_provider EMBEDDING_PROVIDERS providerKey with
  | None => inl (TypeError (js "Cannot read properties of undefined (reading 'name')"))
  | Some provider =>
      if str_eqb (name provider) (js "Google Gemini") then inr (isConfigured self)
      else inr false
  end.

(** [new Array(provider.dimensions).fill(0)]. *)
Definition placeholder (provider : EmbeddingProvider) : list float :=
  repeat 0%float (dimensions provider).

(** The checks [generateGeminiBatch] makes on one answer: the vector it
    pushes, or the error it throws. *)
Definition check_reply (r : GeminiReply) : JsError + list float :=
  match r with
  | Rejected e => inl e
  | NotOk status detail =>
      inl (Error (js "API Gemini: " ++ Js.of_nat status ++ js " - " ++ detail))
  | BodyUnreadable e => inl e
  | NoValues => inl (Error (js "Format de r" ++ [233%N] ++ js "ponse invalide de l'API Gemini"))
  | Values v => inr v
  end.

(** One request and the checks on its answer. *)
Definition embedOne (provider : EmbeddingProvider) (text : jsstring) : M (list float) :=
  r <- fetch_embedContent (model provider) text ;;
  match check_reply r with
  | inl e => throw e
  | inr v => ret v
  end.

(** [for (const chunk of chunks)] of [generateGeminiBatch]: the first item
    that fails ends the whole batch with its error. *)
Definition generateGeminiBatch (self : t) (chunks : list ChunkData)
  (provider : EmbeddingProvider) : M (list (list float)) :=
  forM chunks [] (fun embeddings chunk =>
    v <- embedOne provider (content chunk) ;;
    sleep 50 ;;;
    ret (embeddings ++ [v])).

Definition generateBatch (self : t) (chunks : list ChunkData)
  (provider : EmbeddingProvider) (providerKey : jsstring) : M (list (list float)) :=
  if str_eqb (name provider) (js "Google Gemini")
  then generateGeminiBatch self chunks provider
  else throw (Error (js "Provider non support" ++ [233%N] ++ js ": " ++ name provider
                     ++ js ". Seul Gemini est support" ++ [233%N] ++ js ".")).

Definition sum_tokens (batch : list ChunkData) : nat :=
  fold_left (fun sum chunk => sum + tokens (metadata chunk)) batch 0.

(** [(totalTokens / 1000) * provider.costPer1KTokens]. *)
Definition cost_of (totalTokens : nat) (provider : EmbeddingProvider) : float :=
  ((Num.of_nat totalTokens / 1000) * costPer1KTokens provider)%float.

(** The variables the batch loop of [generateEmbeddings] updates. *)
Record Acc := {
  embeddings : list (list float);
  errs : list jsstring;
  totalTokens : nat
}.

Definition batchSize : nat := 100.

(** [`Erreur batch ${Math.floor(i/batchSize) + 1}: ${error}`]. *)
Definition batch_error_msg (i : nat) (error : JsError) : jsstring :=
  js "Erreur batch " ++ Js.of_nat (i / batchSize + 1) ++ js ": " ++ error_to_string error.

(** One iteration of the batch loop.  Only [generateBatch] can throw inside
    the [try]: the handler therefore sees the variables as they were before
    the batch. *)
Definition batchStep (self : t) (chunks : list ChunkData) (provider : EmbeddingProvider)
  (providerKey : jsstring) (acc : Acc) (i : nat) : M Acc :=
  let batch := slice chunks i (i + batchSize) in
  try_catch
    (batchEmbeddings <- generateBatch self batch provider providerKey ;;
     (if i + batchSize <? length chunks then sleep 100 else ret tt) ;;;
     ret {| embeddings := embeddings acc ++ batchEmbeddings;
            errs := errs acc;
            totalTokens := totalTokens acc + sum_tokens batch |})
    (fun error =>
       ret {| embeddings := embeddings acc ++ repeat (placeholder provider) (length batch);
              errs := errs acc ++ [batch_error_msg i error];
              totalTokens := totalTokens acc |}).

(** The opening lines shared by [generateEmbeddings] and
    [generateSingleEmbedding]: the provider of the key, or the error thrown
    when the key is unknown or the provider has no credentials. *)
Definition configuredProvider (self : t) (providerKey : jsstring) : JsError + EmbeddingProvider :=
  match lookup_provider EMBEDDING_PROVIDERS providerKey with
  | None => inl (TypeError (js "Cannot read properties of undefined (reading 'name')"))
  | Some provider =>
      match isProviderConfigured self providerKey with
      | inl e => inl e
      | inr false =>
          inl (Error (js "Cl" ++ [233%N] ++ js " API " ++ name provider
                      ++ js " non configur" ++ [233%N] ++ js "e"))
      | inr true => inr provider
      end
  end.

Definition generateEmbeddings (self : t) (chunks : list ChunkData) (providerKey : jsstring)
  : M (list (list float) * IndexingStats) :=
  match configuredProvider self providerKey with
  | inl e => throw e
  | inr provider =>
      startTime <- Date_now ;;
      acc <- forM (Num.strides 0 batchSize (length chunks))
               {| embeddings := []; errs := []; totalTokens := 0 |}
               (batchStep self chunks provider providerKey) ;;
      endTime <- Date_now ;;
      ret (embeddings acc,
           {| total_chunks := length chunks;
              total_embeddings := length (embeddings acc);
              total_tokens := totalTokens acc;
              processing_time_ms := (endTime - startTime)%Z;
              cost_estimate := cost_of (totalTokens acc) provider;
              errors := errs acc |})
  end.

Definition generateSingleGeminiEmbedding (self : t) (text : jsstring)
  (provider : EmbeddingProvider) : M (list float) :=
  embedOne provider text.

Definition generateSingleEmbedding (self : t) (text providerKey : jsstring) : M (list float) :=
  match configuredProvider self providerKey with
  | inl e => throw e
  | inr provider =>
      if str_eqb (name provider) (js "Google Gemini")
      then generateSingleGeminiEmbedding self text provider
      else throw (Error (js "Provider non support" ++ [233%N] ++ js ": " ++ name provider
                         ++ js ". Seul Gemini est support" ++ [233%N] ++ js "."))
  end.

(** The three sums of the loop of [cosineSimilarity]. *)
Record Sums := { dotProduct : float; normA : float; normB : float }.

Definition cosineStep (s : Sums) (ab : float * float) : Sums :=
  let (a, b) := ab in
  {| dotProduct := (dotProduct s + a * b)%float;
     normA := (normA s + a * a)%float;
     normB := (normB s + b * b)%float |}.

Definition cosineSimilarity (vecA vecB : list float) : JsError + float :=
  if negb (length vecA =? length vecB)
  then inl (Error (js "Les vecteurs doivent avoir la m" ++ [234%N] ++ js "me dimension"))
  else
    let s := fold_left cosineStep (combine vecA vecB)
               {| dotProduct := 0; normA := 0; normB := 0 |} in
    let normA := PrimFloat.sqrt (normA s) in
    let normB := PrimFloat.sqrt (normB s) in
    if PrimFloat.eqb normA 0 || PrimFloat.eqb normB 0 then inr 0%float
    else inr (dotProduct s / (normA * normB))%float.

Definition estimateCost (chunks : list ChunkData) (providerKey : jsstring)
  : JsError + (nat * float * EmbeddingProvider) :=
  match lookup_provider EMBEDDING_PROVIDERS providerKey with
  | None =>
      inl (TypeError (js "Cannot read properties of undefined (reading 'costPer1KTokens')"))
  | Some provider =>
      let totalTokens := sum_tokens chunks in
      inr (totalTokens, cost_of totalTokens provider, provider)
  end.

End EmbeddingService.

(** ** ragService.ts *)

Module RAGService.

Record t := { embeddingService : EmbeddingService.t }.

(** Context and sources of [searchForAI]. *)

(** [`[Source ${index + 1}] ${match.content}`]. *)
Definition contextBlock (index : nat) (m : SimilarityMatch) : jsstring :=
  js "[Source " ++ Js.of_nat (index + 1) ++ js "] " ++ sm_content m.

(** [match.metadata?.source_file || 'Fichier inconnu']. *)
Definition sourceFileOf (m : SimilarityMatch) : jsstring :=
  match sm_metadata m with
  | Some md =>
      match m_source_file md with
      | Some f => if truthy f then f else js "Fichier inconnu"
      | None => js "Fichier inconnu"
      end
  | None => js "Fichier inconnu"
  end.

(** [match.metadata?.section || '']. *)
Definition sectionOf (m : SimilarityMatch) : jsstring :=
  match sm_metadata m with
  | Some md =>
      match m_section md with
      | Some s => s
      | None => []
      end
  | None => []
  end.

(** [`Source ${index + 1}: ${sourceFile}${section ? ` (${section})` : ''}`]. *)
Definition sourceLine (index : nat) (m : SimilarityMatch) : jsstring :=
  let sourceFile := sourceFileOf m in
  let section := sectionOf m in
  js "Source " ++ Js.of_nat (index + 1) ++ js ": " ++ sourceFile
  ++ (if truthy section then js " (" ++ section ++ js ")" else []).

(** [array.map((x, index) => f index x)]. *)
Fixpoint mapi_from {A B} (start : nat) (f : nat -> A -> B) (l : list A) : list B :=
  match l with
  | [] => []
  | x :: rest => f start x :: mapi_from (S start) f rest
  end.

Definition mapi {A B} (f : nat -> A -> B) (l : list A) : list B := mapi_from 0 f l.

Record AIContext := {
  context : jsstring;
  sources : list jsstring;
  searchResult : RAGSearchResult;
  stats : RAGSearchStats
}.

Definition searchSimilar (self : t) (gemId query : jsstring) (config : RAGConfig)
  : M RAGSearchResult :=
  startTime <- Date_now ;;
  queryEmbedding <- EmbeddingService.generateSingleEmbedding (embeddingService self)
                      query (embeddingProvider config) ;;
  reply <- supabase_rpc_match queryEmbedding gemId (similarityThreshold config)
             (maxMatches config) ;;
  match rpc_error reply with
  | Some msg => throw (Error (js "Erreur recherche: " ++ msg))
  | None =>
      let similarityMatches :=
        match rpc_data reply with Some ms => ms | None => [] end in
      now <- Date_now ;;
      ret {| matches := similarityMatches;
             query := query;
             threshold := similarityThreshold config;
             total_matches := length similarityMatches |}
  end.

Definition searchForAI (self : t) (gemId query : jsstring) (config : RAGConfig)
  : M AIContext :=
  startTime <- Date_now ;;
  searchResult <- searchSimilar self gemId query config ;;
  let context := join (js "\n\n") (mapi contextBlock (matches searchResult)) in
  let sources := mapi sourceLine (matches searchResult) in
  now <- Date_now ;;
  ret {| context := context;
         sources := sources;
         searchResult := searchResult;
         stats := {| query_time_ms := (now - startTime)%Z;
                     total_embeddings_searched := total_matches searchResult;
                     matches_found := length (matches searchResult);
                     similarity_scores := map similarity (matches searchResult) |} |}.

Section WithJSON.

Variable JSON_parse : jsstring -> option JsonValue.
Variable JSON_stringify : JsonValue -> jsstring.

Definition insertBatchSize : nat := 50.

(** [chunks.map((chunk, index) => ({ .., embedding: embeddings[index] }))]. *)
Definition embeddingRecords (gemId datasetId : jsstring) (chunks : list ChunkData)
  (embeddings : list (list float)) : list EmbeddingRecord :=
  mapi (fun index chunk =>
          {| gem_id := gemId; dataset_id := datasetId;
             r_content := content chunk; r_metadata := metadata chunk;
             embedding := nth index embeddings [] |}) chunks.

(** One iteration of the insertion loop; the state is [insertedCount] and
    [stats.errors]. *)
Definition insertStep (records : list EmbeddingRecord) (st : nat * list jsstring) (i : nat)
  : M (nat * list jsstring) :=
  let batch := slice records i (i + insertBatchSize) in
  error <- supabase_insert batch ;;
  match error with
  | Some message =>
      ret (fst st,
           snd st ++ [js "Erreur insertion batch " ++ Js.of_nat (i / insertBatchSize + 1)
                      ++ js ": " ++ message])
  | None => ret (fst st + length batch, snd st)
  end.

Definition indexDataset (self : t) (gemId datasetId content fileName fileType : jsstring)
  (config : RAGConfig) : M IndexingStats :=
  let chunks := ChunkingService.chunkContent JSON_parse JSON_stringify
                  content fileType fileName (chunkingConfig config) in
  if length chunks =? 0
  then throw (Error (js "Aucun chunk g" ++ [233%N] ++ js "n" ++ [233%N] ++ js "r"
                     ++ [233%N] ++ js " " ++ [224%N] ++ js " partir du contenu"))
  else
    r <- EmbeddingService.generateEmbeddings (embeddingService self) chunks
           (embeddingProvider config) ;;
    let (embeddings, stats) := r in
    if negb (length embeddings =? length chunks)
    then throw (Error (js "Nombre d'embeddings (" ++ Js.of_nat (length embeddings)
                       ++ js ") != nombre de chunks (" ++ Js.of_nat (length chunks) ++ js ")"))
    else
      let records := embeddingRecords gemId datasetId chunks embeddings in
      st <- forM (Num.strides 0 insertBatchSize (length records)) (0, errors stats)
              (insertStep records) ;;
      ret {| total_chunks := total_chunks stats;
             total_embeddings := fst st;
             total_tokens := total_tokens stats;
             processing_time_ms := processing_time_ms stats;
             cost_estimate := cost_estimate stats;
             errors := snd st |}.

End WithJSON.

End RAGService.

(** ** fileParserService.ts: the separator detection of parseCSV *)

Module FileParserService.

Definition separators : list jsstring := [js ","; js ";"; js "\\t"].

(** [for (const sep of separators)]: the state is [(bestSeparator, maxColumns)]. *)
Definition separatorStep (header : jsstring) (st : jsstring * nat) (sep : jsstring)
  : jsstring * nat :=
  let columns := length (split sep header) in
  if snd st <? columns then (sep, columns) else st.

(** [text.split('\\n').filter(line => line.trim())]. *)
Definition csvLines (text : jsstring) : list jsstring :=
  filter (fun line => truthy (trim line)) (split (js "\\n") text).

(** The separator kept after the loop, for [header] the line [lines[0]]. *)
Definition detectSeparator (header : jsstring) : jsstring :=
  fst (fold_left (separatorStep header) separators (js ",", 0)).

(** The opening of [parseCSV]: the empty-file error, or the separator kept. *)
Definition bestSeparator (text : jsstring) : JsError + jsstring :=
  match csvLines text with
  | [] => inl (Error (js "Le fichier CSV est vide"))
  | header :: _ => inr (detectSeparator header)
  end.

End FileParserService.

(** ** The specification's delimiter detection *)

Module Spec.

(** Written from the specification's words, for comparison with the code:
    "detect the delimiter among a small candidate set (comma, semicolon, tab)
    by picking whichever yields the most columns on the header line". *)
Definition columns (delimiter header : jsstring) : nat := length (split delimiter header).

Definition detectDelimiter (header : jsstring) : jsstring :=
  fold_left (fun best d => if columns best header <? columns d header then d else best)
    [js ";"; js "\t"] (js ",").

End Spec.

(** ** What a run of the batch loops amounts to *)

Module Run.
Import EmbeddingService.

(** What a call leaves of the world: the scripts and the store as they
    were, [used] more requests made to the embedding API. *)
Record advanced (used : nat) (w w' : World) : Prop := {
  adv_gemini : gemini w' = gemini w;
  adv_calls : gemini_calls w' = gemini_calls w + used;
  adv_insert_error : insert_error w' = insert_error w;
  adv_insert_calls : insert_calls w' = insert_calls w;
  adv_table : embeddings_table w' = embeddings_table w
}.

(** The outcome of [generateGeminiBatch] on [batch] when [k] requests were
    made before it, read off the script: the vectors in order, or the error
    of the first item that fails; and the number of requests it makes. *)
Fixpoint batch_outcome (script : nat -> jsstring -> jsstring -> GeminiReply)
  (model : jsstring) (k : nat) (batch : list ChunkData)
  : (JsError + list (list float)) * nat :=
  match batch with
  | [] => (inr [], 0)
  | c :: rest =>
      match check_reply (script k model (content c)) with
      | inl e => (inl e, 1)
      | inr v =>
          match batch_outcome script model (S k) rest with
          | (inr vs, used) => (inr (v :: vs), S used)
          | (inl e, used) => (inl e, S used)
          end
      end
  end.

(** One batch of a run: where it starts, its chunks, the number of requests
    made before it, and its outcome. *)
Record BatchResult := {
  br_start : nat;
  br_batch : list ChunkData;
  br_first_call : nat;
  br_outcome : JsError + list (list float)
}.

Fixpoint batches (script : nat -> jsstring -> jsstring -> GeminiReply)
  (provider : EmbeddingProvider) (chunks : list ChunkData) (k : nat) (starts : list nat)
  : list BatchResult :=
  match starts with
  | [] => []
  | i :: rest =>
      let batch := slice chunks i (i + batchSize) in
      let o := batch_outcome script (model provider) k batch in
      {| br_start := i; br_batch := batch; br_first_call := k; br_outcome := fst o |}
      :: batches script provider chunks (k + snd o) rest
  end.

(** The batches of the run of [generateEmbeddings] on [chunks] from [w]. *)
Definition batches_of (provider : EmbeddingProvider) (chunks : list ChunkData) (w : World)
  : list BatchResult :=
  batches (gemini w) provider chunks (gemini_calls w)
    (Num.strides 0 batchSize (length chunks)).

(** The number of requests the batches of a run make. *)
Fixpoint requests (script : nat -> jsstring -> jsstring -> GeminiReply)
  (provider : EmbeddingProvider) (chunks : list ChunkData) (k : nat) (starts : list nat)
  : nat :=
  match starts with
  | [] => 0
  | i :: rest =>
      let o := batch_outcome script (model provider) k (slice chunks i (i + batchSize)) in
      snd o + requests script provider chunks (k + snd o) rest
  end.

Definition requests_of (provider : EmbeddingProvider) (chunks : list ChunkData) (w : World)
  : nat :=
  requests (gemini w) provider chunks (gemini_calls w)
    (Num.strides 0 batchSize (length chunks)).

(** What a batch contributes to the vectors, the errors and the tokens. *)
Definition br_vectors (provider : EmbeddingProvider) (r : BatchResult) : list (list float) :=
  match br_outcome r with
  | inr vs => vs
  | inl _ => repeat (placeholder provider) (length (br_batch r))
  end.

Definition br_errors (r : BatchResult) : list jsstring :=
  match br_outcome r with
  | inr _ => []
  | inl e => [batch_error_msg (br_start r) e]
  end.

Definition br_tokens (r : BatchResult) : nat :=
  match br_outcome r with
  | inr _ => sum_tokens (br_batch r)
  | inl _ => 0
  end.

Definition br_ok (r : BatchResult) : bool :=
  match br_outcome r with inr _ => true | inl _ => false end.

(** A vector the API answered with, at some request for the text of [c]. *)
Definition returned_for (w : World) (provider : EmbeddingProvider)
  (c : ChunkData) (v : list float) : Prop :=
  exists k, gemini w k (model provider) (content c) = Values v.

(** The same for the insertion loop of [indexDataset]: the batches sent to
    the store, each with the error it was answered with, if any. *)
Fixpoint inserts (script : nat -> list EmbeddingRecord -> option jsstring)
  (records : list EmbeddingRecord) (k : nat) (starts : list nat)
  : list (nat * list EmbeddingRecord * option jsstring) :=
  match starts with
  | [] => []
  | i :: rest =>
      let batch := slice records i (i + RAGService.insertBatchSize) in
      (i, batch, script k batch) :: inserts script records (S k) rest
  end.

Definition ins_stored (r : nat * list EmbeddingRecord * option jsstring)
  : list EmbeddingRecord :=
  match snd r with None => snd (fst r) | Some _ => [] end.

Definition ins_errors (r : nat * list EmbeddingRecord * option jsstring) : list jsstring :=
  match snd r with
  | None => []
  | Some message =>
      [js "Erreur insertion batch "
       ++ Js.of_nat (fst (fst r) / RAGService.insertBatchSize + 1) ++ js ": " ++ message]
  end.

(** The variables of the loop after the batch [r]. *)
Definition after_batch (provider : EmbeddingProvider) (acc : Acc) (r : BatchResult) : Acc :=
  {| embeddings := embeddings acc ++ br_vectors provider r;
     errs := errs acc ++ br_errors r;
     totalTokens := totalTokens acc + br_tokens r |}.

(** Placeholder or vector returned for that very chunk. *)
Definition aligned (w : World) (provider : EmbeddingProvider) (c : ChunkData)
  (v : list float) : Prop :=
  v = placeholder provider \/ returned_for w provider c v.

(** What holds of each batch of a run from [w].  When an item fails, the
    first such item decides: the whole batch is filled with placeholders and
    one message is recorded; otherwise the batch holds the vectors the API
    returned, in order, and records nothing. *)
Definition batch_rule (w : World) (provider : EmbeddingProvider) (chunks : list ChunkData)
  (r : BatchResult) : Prop :=
  br_batch r = slice chunks (br_start r) (br_start r + batchSize)
  /\ match br_outcome r with
     | inl e =>
         (exists j c,
             nth_error (br_batch r) j = Some c
             /\ check_reply (gemini w (br_first_call r + j) (model provider) (content c)) = inl e
             /\ forall j' c', j' < j -> nth_error (br_batch r) j' = Some c' ->
                  exists v, gemini w (br_first_call r + j') (model provider) (content c')
                            = Values v)
         /\ br_vectors provider r = repeat (placeholder provider) (length (br_batch r))
         /\ br_errors r = [batch_error_msg (br_start r) e]
         /\ br_tokens r = 0
     | inr vs =>
         Forall2 (returned_for w provider) (br_batch r) vs
         /\ br_vectors provider r = vs
         /\ br_errors r = []
         /\ br_tokens r = sum_tokens (br_batch r)
     end.

(** *** A concrete run: three chunks, the second request fails *)

Definition mkChunk (index : nat) (text : jsstring) : ChunkData :=
  {| content := text;
     metadata := {| chunk_index := index; source_file := js "n.txt"; file_type := js "txt";
                    section := None; page_number := None; line_start := None;
                    line_end := None; tokens := ChunkingService.estimateTokens text |} |}.

Definition three_chunks : list ChunkData :=
  [mkChunk 0 (js "first chunk"); mkChunk 1 (js "second chunk"); mkChunk 2 (js "third chunk")].

Definition ones : list float := repeat 1%float 768.

Definition zeros : list float := repeat 0%float 768.

(** Every request is answered with [ones], except the one of ordinal
    [failing_request] (status 500); every insert succeeds, except the one of
    ordinal [failing_insert].  Ordinals count from 0. *)
Definition scripted (failing_request failing_insert : nat) : World :=
  {| gemini := fun k _ _ =>
                 if k =? failing_request then NotOk 500 (js "internal") else Values ones;
     gemini_calls := 0;
     clock := fun k => (1000 + 7 * Z.of_nat k)%Z;
     clock_reads := 0;
     slept := 0;
     insert_error := fun k _ => if k =? failing_insert then Some (js "timeout") else None;
     insert_calls := 0;
     embeddings_table := [];
     match_embeddings := fun _ _ _ _ _ => {| rpc_data := Some []; rpc_error := None |};
     rpc_calls := 0 |}.

(** *** A longer run: 101 chunks, two batches *)

(** The request of ordinal [k] is answered with the one-number vector [k],
    whatever the text, except the one of ordinal [failing_request] (status
    500): a vector tells which request returned it. *)
Definition numbered (failing_request : nat) : World :=
  {| gemini := fun k _ _ =>
                 if k =? failing_request then NotOk 500 (js "internal")
                 else Values [Num.of_nat k];
     gemini_calls := 0;
     clock := fun k => (1000 + 7 * Z.of_nat k)%Z;
     clock_reads := 0;
     slept := 0;
     insert_error := fun _ _ => None;
     insert_calls := 0;
     embeddings_table := [];
     match_embeddings := fun _ _ _ _ _ => {| rpc_data := Some []; rpc_error := None |};
     rpc_calls := 0 |}.

Definition many_chunks : list ChunkData :=
  map (fun i => mkChunk i (js "chunk " ++ Js.of_nat i)) (seq 0 101).

Definition service : EmbeddingService.t := {| geminiApiKey := Some (js "key") |}.

Definition gemini004 : EmbeddingProvider :=
  {| name := js "Google Gemini"; model := js "text-embedding-004";
     dimensions := 768; maxTokens := 2048; costPer1KTokens := 0.00001%float |}.

Definition rag : RAGService.t := {| RAGService.embeddingService := service |}.

Definition smallFloorConfig : RAGConfig :=
  {| embeddingProvider := js "gemini-embedding-004";
     chunkingConfig := {| chunkSize := 1000; chunkOverlap := 200; respectSentences := true;
                          respectParagraphs := true; minChunkSize := 5 |};
     similarityThreshold := 0.7%float; maxMatches := 5; includeMetadata := true |}.

(** A store that answers a search with two matches, the second without
    section. *)
Definition two_matches : list SimilarityMatch :=
  [ {| sm_id := js "e1"; sm_content := js "alpha";
       sm_metadata := Some {| m_source_file := Some (js "a.txt");
                              m_section := Some (js "Lignes 1-5") |};
       similarity := 0.9%float |};
    {| sm_id := js "e2"; sm_content := js "beta";
       sm_metadata := Some {| m_source_file := Some (js "b.txt"); m_section := None |};
       similarity := 0.8%float |} ].

Definition answering (found : list SimilarityMatch) : World :=
  {| gemini := fun _ _ _ => Values ones;
     gemini_calls := 0;
     clock := fun k => (1000 + 7 * Z.of_nat k)%Z;
     clock_reads := 0;
     slept := 0;
     insert_error := fun _ _ => None;
     insert_calls := 0;
     embeddings_table := [];
     match_embeddings := fun _ _ _ _ _ => {| rpc_data := Some found; rpc_error := None |};
     rpc_calls := 0 |}.

End Run.

(** ** Notions the properties are stated with *)

Module Notions.
Import ChunkingService.

(** Every chunk carries its own position. *)
Definition indexed (l : list ChunkData) : Prop :=
  forall k c, nth_error l k = Some c -> chunk_index (metadata c) = k.

(** A chunk whose content is rewritten code unit by code unit. *)
Definition renameContent (rho : N -> N) (c : ChunkData) : ChunkData :=
  {| content := map rho (content c); metadata := metadata c |}.

(** Three paragraphs of 982, 96 and 950 code units; the first ends in a
    full stop, two spaces and [b]. *)
Definition under_floor_text : jsstring :=
  repeat 97%N 978 ++ js ".  b" ++ js "\n\n" ++ repeat 99%N 96 ++ js "\n\n"
  ++ repeat 100%N 950.

(** The configuration of the small free-text example. *)
Definition smallConfig : ChunkingConfig :=
  {| chunkSize := 10; chunkOverlap := 3; respectSentences := true;
     respectParagraphs := true; minChunkSize := 1 |}.

(** The sums of [cosineSimilarity] with the two vectors exchanged. *)
Definition swapSums (s : EmbeddingService.Sums) : EmbeddingService.Sums :=
  {| EmbeddingService.dotProduct := EmbeddingService.dotProduct s;
     EmbeddingService.normA := EmbeddingService.normB s;
     EmbeddingService.normB := EmbeddingService.normA s |}.

End Notions.

(** ** chunkingService.ts, continued *)

Module ChunkingTools.
Import ChunkingService.

(** The step [linesPerChunk] that [chunkCSV] computes for a text. *)
Definition csvLinesPerChunk (csvContent : jsstring) (config : ChunkingConfig)
  : Num.integral :=
  Num.Math_max
    (Num.Math_floor
       (Num.of_Z (chunkSize config)
        / (Num.of_nat (length csvContent)
           / Num.of_nat (length (split (js "\n") csvContent))))%float) 5.

(** The step [itemsPerChunk] that [chunkJSON] computes for an array. *)
Definition jsonItemsPerChunk (jsonContent : jsstring) (data : list JsonValue)
  (config : ChunkingConfig) : Num.integral :=
  Num.Math_max
    (Num.Math_floor
       (Num.of_Z (chunkSize config)
        / (Num.of_nat (length jsonContent) / Num.of_nat (length data)))%float) 1.

(** Ranges [(first, last)] that follow one another from [a] up to [b]. *)
Fixpoint tiles (a : nat) (ranges : list (nat * nat)) (b : nat) : Prop :=
  match ranges with
  | [] => a = S b
  | (first, last) :: rest => first = a /\ first <= last /\ tiles (S last) rest b
  end.

(** The row range a tabular chunk is labelled with. *)
Definition rowRange (c : ChunkData) : nat * nat :=
  (match line_start (metadata c) with Some i => i | None => 0 end,
   match line_end (metadata c) with Some i => i | None => 0 end).

(** No line feed in the text. *)
Definition single_line (text : jsstring) : Prop := Forall (fun c => c <> LF) text.

(** The paragraphs the loop of [chunkText] does not skip, as it appends them:
    [paragraph.trim()] for each piece of the split, the empty ones left out. *)
Definition keptParagraphs (content : jsstring) : list jsstring :=
  filter truthy (map trim (split_paragraphs content)).

(** No [.], [!] or [?] in the text. *)
Definition no_sentence_mark (text : jsstring) : Prop :=
  Forall (fun c => is_sentence_end c = false) text.

(** The buffer of [chunkText] is empty or ends with a unit that is no white
    space: every paragraph appended was trimmed and is not empty. *)
Definition ends_solid (s : jsstring) : Prop :=
  s = [] \/ exists r d, s = r ++ [d] /\ is_space d = false.

(** A content that is not empty and that [trim] leaves as it is. *)
Definition clean (c : ChunkData) : Prop :=
  content c <> [] /\ trim (content c) = content c.

(** A text with a first and a last unit, neither of them white space. *)
Definition solid (s : jsstring) : Prop :=
  (exists c r, s = c :: r /\ is_space c = false)
  /\ (exists r d, s = r ++ [d] /\ is_space d = false).

(** A chunk whose content is the first [k] paragraphs of [paragraphs], joined
    as [chunkText] joins them, for some [k]. *)
Definition from_the_start (paragraphs : list jsstring) (c : ChunkData) : Prop :=
  exists k, content c = join (js "\n\n") (firstn k paragraphs).

End ChunkingTools.

(** ** embeddingService.ts: key management, validation, connection test *)

Module EmbeddingTools.
Import EmbeddingService.
Local Open Scope js_scope.

(** [localStorage]: the entries of the browser storage, in insertion order. *)
Definition Storage := list (jsstring * jsstring).

Fixpoint getItem (storage : Storage) (key : jsstring) : option jsstring :=
  match storage with
  | [] => None
  | (k, v) :: rest => if str_eqb k key then Some v else getItem rest key
  end.

Fixpoint setItem (storage : Storage) (key value : jsstring) : Storage :=
  match storage with
  | [] => [(key, value)]
  | (k, v) :: rest =>
      if str_eqb k key then (k, value) :: rest else (k, v) :: setItem rest key value
  end.

(** The constructor:
    [import.meta.env.VITE_GEMINI_API_KEY || localStorage.getItem('gemini_api_key')]. *)
Definition construct (VITE_GEMINI_API_KEY : option jsstring) (localStorage : Storage) : t :=
  {| geminiApiKey :=
       match VITE_GEMINI_API_KEY with
       | Some k => if truthy k then Some k else getItem localStorage (js "gemini_api_key")
       | None => getItem localStorage (js "gemini_api_key")
       end |}.

Definition setGeminiApiKey (self : t) (apiKey : jsstring) (localStorage : Storage)
  : t * Storage :=
  ({| geminiApiKey := Some apiKey |}, setItem localStorage (js "gemini_api_key") apiKey).

Definition getGeminiApiKey (self : t) : option jsstring := geminiApiKey self.

(** [isNaN(val)] on a number. *)
Definition isNaN (val : float) : bool := negb (PrimFloat.eqb val val).

Record EmbeddingValidation := { isValid : bool; issues : list jsstring }.

(** [validateEmbedding] on an array of numbers (the branch for a value that
    is no array, and the test [typeof val !== 'number'], need an argument the
    declared type excludes). *)
Definition validateEmbedding (embedding : list float) (expectedDimensions : nat)
  : EmbeddingValidation :=
  let issues1 :=
    if negb (length embedding =? expectedDimensions)
    then [js "Dimensions incorrectes: " ++ Js.of_nat (length embedding)
          ++ js " au lieu de " ++ Js.of_nat expectedDimensions]
    else [] in
  let issues2 :=
    if existsb isNaN embedding
    then issues1 ++ [js "L'embedding contient des valeurs non num" ++ [233%N] ++ js "riques"]
    else issues1 in
  let norm :=
    PrimFloat.sqrt (fold_left (fun sum val => (sum + val * val)%float) embedding 0%float) in
  let issues3 :=
    if PrimFloat.eqb norm 0
    then issues2 ++ [js "L'embedding est un vecteur z" ++ [233%N] ++ js "ro"]
    else issues2 in
  {| isValid := length issues3 =? 0; issues := issues3 |}.

Record ConnectionTest := {
  success : bool;
  message : jsstring;
  provider : option jsstring
}.

(** [testConnection(providerKey?)]: [None] is the call without argument. *)
Definition testConnection (self : t) (providerKey : option jsstring) : M ConnectionTest :=
  let test (providerKey : jsstring) : M ConnectionTest :=
    match isProviderConfigured self providerKey,
          lookup_provider EMBEDDING_PROVIDERS providerKey with
    | inl e, _ => throw e
    | inr _, None =>
        throw (TypeError (js "Cannot read properties of undefined (reading 'name')"))
    | inr false, Some provider =>
        ret {| success := false;
               message := js "Cl" ++ [233%N] ++ js " API " ++ name provider ++ js " manquante";
               provider := provider_name providerKey |}
    | inr true, Some provider =>
        try_catch
          (generateSingleEmbedding self (js "Test de connexion") providerKey ;;;
           ret {| success := true;
                  message := js "Connexion r" ++ [233%N] ++ js "ussie " ++ [224%N] ++ js " l'API " ++ name provider;
                  provider := provider_name providerKey |})
          (fun error =>
             ret {| success := false;
                    message := err_message error;
                    provider := provider_name providerKey |})
    end in
  match providerKey with
  | Some key =>
      if truthy key then test key
      else if isConfigured self then test (js "gemini-embedding-004")
      else ret {| success := false; message := js "Cl" ++ [233%N] ++ js " API Gemini non configur" ++ [233%N] ++ js "e. Obtenez-en une sur https://aistudio.google.com/app/apikey"; provider := None |}
  | None =>
      if isConfigured self then test (js "gemini-embedding-004")
      else ret {| success := false; message := js "Cl" ++ [233%N] ++ js " API Gemini non configur" ++ [233%N] ++ js "e. Obtenez-en une sur https://aistudio.google.com/app/apikey"; provider := None |}
  end.

End EmbeddingTools.

(** ** The store beyond insert and search: delete and select *)

(** What a [delete] request comes to.  As for an insert, a request answered
    with an error has changed nothing; one answered without error has
    deleted the rows it names and returns them. *)
Inductive DeleteReply : Type :=
| DeleteRejected (e : JsError)
| DeleteError (message : jsstring)
| Deleted.

(** The answer [{ count, error }] of a counting [select], or its rejection. *)
Inductive CountReply : Type :=
| CountRejected (e : JsError)
| CountAnswer (count : option nat) (error : option jsstring).

(** A row of [select('dataset_id, content, created_at')]. *)
Record StatRow := {
  sr_dataset_id : jsstring;
  sr_content : jsstring;
  created_at : jsstring
}.

Inductive RowsReply : Type :=
| RowsRejected (e : JsError)
| RowsAnswer (data : option (list StatRow)) (error : option jsstring).

(** The world with the scripts of these requests: the reply to the k-th
    delete and to the k-th select, as functions of k and of the request. *)
Record Db := {
  world : World;
  delete_reply : nat -> jsstring -> jsstring -> DeleteReply;
  delete_calls : nat;
  count_reply : nat -> jsstring -> CountReply;
  rows_reply : nat -> jsstring -> RowsReply;
  select_calls : nat
}.

Definition set_world (w : World) (db : Db) : Db :=
  {| world := w; delete_reply := delete_reply db; delete_calls := delete_calls db;
     count_reply := count_reply db; rows_reply := rows_reply db;
     select_calls := select_calls db |}.

Definition set_delete_calls (n : nat) (db : Db) : Db :=
  {| world := world db; delete_reply := delete_reply db; delete_calls := n;
     count_reply := count_reply db; rows_reply := rows_reply db;
     select_calls := select_calls db |}.

Definition set_select_calls (n : nat) (db : Db) : Db :=
  {| world := world db; delete_reply := delete_reply db; delete_calls := delete_calls db;
     count_reply := count_reply db; rows_reply := rows_reply db;
     select_calls := n |}.

Definition D (A : Type) : Type := Db -> (JsError + A) * Db.

Definition dret {A} (a : A) : D A := fun db => (inr a, db).

Definition dthrow {A} (e : JsError) : D A := fun db => (inl e, db).

Definition dbind {A B} (m : D A) (k : A -> D B) : D B :=
  fun db => match m db with
            | (inr a, db') => k a db'
            | (inl e, db') => (inl e, db')
            end.

Definition dtry_catch {A} (m : D A) (h : JsError -> D A) : D A :=
  fun db => match m db with
            | (inr a, db') => (inr a, db')
            | (inl e, db') => h e db'
            end.

(** A call that only uses the embedding API, the clock, insert and search. *)
Definition lift {A} (m : M A) : D A :=
  fun db => let (r, w') := m (world db) in (r, set_world w' db).

Declare Scope db_scope.
Delimit Scope db_scope with db.
Notation "x <- m ;; k" := (dbind m (fun x => k))
  (at level 61, m at next level, right associativity) : db_scope.
Notation "m ;;; k" := (dbind m (fun _ => k))
  (at level 61, right associativity) : db_scope.

(** [await supabase.from('embeddings').delete().eq(column, value).select('id')]:
    the fields [data] and [error] of the answer. *)
Definition supabase_delete (column : jsstring) (field : EmbeddingRecord -> jsstring)
  (value : jsstring) : D (option (list EmbeddingRecord) * option jsstring) :=
  fun db =>
    let db' := set_delete_calls (S (delete_calls db)) db in
    match delete_reply db (delete_calls db) column value with
    | DeleteRejected e => (inl e, db')
    | DeleteError message => (inr (None, Some message), db')
    | Deleted =>
        let w := world db in
        (inr (Some (filter (fun r => str_eqb (field r) value) (embeddings_table w)), None),
         set_world
           (set_store (insert_calls w)
              (filter (fun r => negb (str_eqb (field r) value)) (embeddings_table w)) w)
           db')
    end.

(** [await supabase.from('embeddings').select('*', { count: 'exact', head: true })
    .eq('gem_id', gemId)]. *)
Definition supabase_count (gemId : jsstring) : D (option nat * option jsstring) :=
  fun db =>
    let db' := set_select_calls (S (select_calls db)) db in
    match count_reply db (select_calls db) gemId with
    | CountRejected e => (inl e, db')
    | CountAnswer count error => (inr (count, error), db')
    end.

(** [await supabase.from('embeddings').select('dataset_id, content, created_at')
    .eq('gem_id', gemId)]. *)
Definition supabase_rows (gemId : jsstring) : D (option (list StatRow) * option jsstring) :=
  fun db =>
    let db' := set_select_calls (S (select_calls db)) db in
    match rows_reply db (select_calls db) gemId with
    | RowsRejected e => (inl e, db')
    | RowsAnswer data error => (inr (data, error), db')
    end.

(** ** ragService.ts: removal, reindexing, statistics, preview *)

Module RAGTools.
Import EmbeddingService RAGService.
Local Open Scope db_scope.

Definition removeDatasetEmbeddings (self : RAGService.t) (datasetId : jsstring) : D nat :=
  r <- supabase_delete (js "dataset_id") dataset_id datasetId ;;
  match snd r with
  | Some message => dthrow (Error (js "Erreur suppression embeddings: " ++ message))
  | None => dret (match fst r with Some data => length data | None => 0 end)
  end.

Definition removeGemEmbeddings (self : RAGService.t) (gemId : jsstring) : D nat :=
  r <- supabase_delete (js "gem_id") gem_id gemId ;;
  match snd r with
  | Some message => dthrow (Error (js "Erreur suppression embeddings: " ++ message))
  | None => dret (match fst r with Some data => length data | None => 0 end)
  end.

(** [(count || 0) > 0], [false] on an error answered or thrown. *)
Definition hasEmbeddings (self : RAGService.t) (gemId : jsstring) : D bool :=
  dtry_catch
    (r <- supabase_count gemId ;;
     match snd r with
     | Some _ => dret false
     | None => dret (0 <? match fst r with Some count => count | None => 0 end)
     end)
    (fun _ => dret false).

(** *** getGemStats *)

(** The value kept in [datasetsMap] for a dataset. *)
Record DatasetEntry := {
  e_count : nat;
  e_last_indexed : jsstring;
  e_content_size : nat
}.

(** A [Map] with string keys: its entries in insertion order. *)
Fixpoint map_get (m : list (jsstring * DatasetEntry)) (key : jsstring) : option DatasetEntry :=
  match m with
  | [] => None
  | (k, v) :: rest => if str_eqb k key then Some v else map_get rest key
  end.

Fixpoint map_set (m : list (jsstring * DatasetEntry)) (key : jsstring) (value : DatasetEntry)
  : list (jsstring * DatasetEntry) :=
  match m with
  | [] => [(key, value)]
  | (k, v) :: rest =>
      if str_eqb k key then (k, value) :: rest else (k, v) :: map_set rest key value
  end.

(** [a > b] on strings: the order of the code units. *)
Fixpoint str_gtb (a b : jsstring) : bool :=
  match a, b with
  | [], _ => false
  | _ :: _, [] => true
  | x :: a', y :: b' => if N.eqb x y then str_gtb a' b' else N.ltb y x
  end.

(** One call of the function given to [forEach]; the state is [datasetsMap]
    and [totalContentSize]. *)
Definition statsStep (st : list (jsstring * DatasetEntry) * nat) (row : StatRow)
  : list (jsstring * DatasetEntry) * nat :=
  let existing :=
    match map_get (fst st) (sr_dataset_id row) with
    | Some e => e
    | None => {| e_count := 0; e_last_indexed := created_at row; e_content_size := 0 |}
    end in
  let updated :=
    {| e_count := e_count existing + 1;
       e_last_indexed := if str_gtb (created_at row) (e_last_indexed existing)
                         then created_at row else e_last_indexed existing;
       e_content_size := e_content_size existing + length (sr_content row) |} in
  (map_set (fst st) (sr_dataset_id row) updated, snd st + length (sr_content row)).

Record DatasetStat := {
  ds_dataset_id : jsstring;
  ds_count : nat;
  last_indexed : jsstring
}.

Record GemStats := {
  gs_total_embeddings : nat;
  datasets : list DatasetStat;
  total_content_size : nat
}.

(** The grouping of the rows: [datasets] and [total_content_size]. *)
Definition groupRows (rows : list StatRow) : list DatasetStat * nat :=
  let st := fold_left statsStep rows ([], 0) in
  (map (fun entry => {| ds_dataset_id := fst entry;
                        ds_count := e_count (snd entry);
                        last_indexed := e_last_indexed (snd entry) |}) (fst st),
   snd st).

(** The rows of the dataset [k]. *)
Definition rowsOf (k : jsstring) (rows : list StatRow) : list StatRow :=
  filter (fun r => str_eqb (sr_dataset_id r) k) rows.

(** Rows of two datasets, for the examples. *)
Definition three_rows : list StatRow :=
  [ {| sr_dataset_id := js "d1"; sr_content := js "alpha"; created_at := js "2024-01-02" |};
    {| sr_dataset_id := js "d2"; sr_content := js "beta"; created_at := js "2024-01-03" |};
    {| sr_dataset_id := js "d1"; sr_content := js "gamma"; created_at := js "2024-01-01" |} ].

(** A row of the table. *)
Definition stored (gemId datasetId text : jsstring) : EmbeddingRecord :=
  {| gem_id := gemId; dataset_id := datasetId; r_content := text;
     r_metadata := metadata (Run.mkChunk 0 text); embedding := Run.ones |}.

(** A store whose table holds two rows of the dataset [d1] around one of
    [d2]; every delete is answered without error. *)
Definition stocked : Db :=
  {| world := set_store 0 [ stored (js "g1") (js "d1") (js "old text");
                            stored (js "g1") (js "d2") (js "other data");
                            stored (js "g1") (js "d1") (js "more old text") ]
                (Run.scripted 9 9);
     delete_reply := fun _ _ _ => Deleted;
     delete_calls := 0;
     count_reply := fun _ _ => CountAnswer (Some 3) None;
     rows_reply := fun _ _ => RowsAnswer (Some []) None;
     select_calls := 0 |}.

Definition getGemStats (self : RAGService.t) (gemId : jsstring) : D GemStats :=
  c <- supabase_count gemId ;;
  match snd c with
  | Some message => dthrow (Error (js "Erreur comptage: " ++ message))
  | None =>
      r <- supabase_rows gemId ;;
      match snd r with
      | Some message => dthrow (Error (js "Erreur stats: " ++ message))
      | None =>
          let grouped := groupRows (match fst r with Some rows => rows | None => [] end) in
          dret {| gs_total_embeddings := match fst c with Some n => n | None => 0 end;
                  datasets := fst grouped;
                  total_content_size := snd grouped |}
      end
  end.

Record IndexingPreview := {
  chunks_preview : list ChunkData;
  pv_total_chunks : nat;
  estimated_cost : float;
  estimated_tokens : nat;
  processing_time_estimate : jsstring
}.

Section WithJSON.

Variable JSON_parse : jsstring -> option JsonValue.
Variable JSON_stringify : JsonValue -> jsstring.

Definition reindexDataset (self : RAGService.t)
  (gemId datasetId content fileName fileType : jsstring) (config : RAGConfig)
  : D IndexingStats :=
  removeDatasetEmbeddings self datasetId ;;;
  lift (indexDataset JSON_parse JSON_stringify self gemId datasetId content fileName fileType
          config).

(** [Math.ceil(chunks.length / 50) * 2] and [Math.ceil(estimatedSeconds / 60)]
    are exact on the lengths an array can have. *)
Definition previewIndexing (self : RAGService.t) (content fileName fileType : jsstring)
  (config : RAGConfig) : JsError + IndexingPreview :=
  let chunks := ChunkingService.chunkContent JSON_parse JSON_stringify
                  content fileType fileName (chunkingConfig config) in
  match estimateCost chunks (embeddingProvider config) with
  | inl e => inl e
  | inr (totalTokens, costEstimate, _) =>
      let estimatedSeconds := (length chunks + 49) / 50 * 2 in
      inr {| chunks_preview := slice chunks 0 3;
             pv_total_chunks := length chunks;
             estimated_cost := costEstimate;
             estimated_tokens := totalTokens;
             processing_time_estimate :=
               if estimatedSeconds <? 60
               then Js.of_nat estimatedSeconds ++ js " secondes"
               else Js.of_nat ((estimatedSeconds + 59) / 60) ++ js " minutes" |}
  end.

End WithJSON.

End RAGTools.

(** ** aiService.ts *)

Module AIService.

Record ChatMessage := { role : jsstring; cm_content : jsstring }.

(** [temperature] and [maxTokens] are optional numbers; [maxTokens] is read
    as an integer. *)
Record ChatRequest := {
  cr_model : jsstring;
  cr_messages : list ChatMessage;
  cr_temperature : option float;
  cr_maxTokens : option Z;
  systemPrompt : option jsstring
}.

(** The body sent to [/chat/completions]. *)
Record ChatPayload := {
  p_model : jsstring;
  p_messages : list ChatMessage;
  temperature : float;
  max_tokens : Z;
  stream : bool
}.

(** Truthiness of a number: [0], [-0] and [NaN] are falsy. *)
Definition number_truthy (x : float) : bool :=
  negb (PrimFloat.eqb x 0 || negb (PrimFloat.eqb x x)).

(** [OPENROUTER_PROVIDER.transformRequest]. *)
Definition transformRequest (request : ChatRequest) : ChatPayload :=
  let messages :=
    match systemPrompt request with
    | Some p => if truthy p then [{| role := js "system"; cm_content := p |}] else []
    | None => []
    end in
  {| p_model := cr_model request;
     p_messages := messages ++ cr_messages request;
     temperature := match cr_temperature request with
                    | Some x => if number_truthy x then x else 0.7%float
                    | None => 0.7%float
                    end;
     max_tokens := match cr_maxTokens request with
                   | Some n => if (n =? 0)%Z then 1000%Z else n
                   | None => 1000%Z
                   end;
     stream := false |}.

Inductive AIErrorType : Type := rate_limit | api_key | model_error | network | unknown.

Record AIError := { ae_message : jsstring; ae_type : AIErrorType }.

Definition createError (message : jsstring) (type : AIErrorType) : AIError :=
  {| ae_message := message; ae_type := type |}.

(** The body of an answer that is not [ok], as [handleAPIError] reads it:
    [Unreadable] when [response.json()] rejects or yields [null];
    otherwise the text of [errorData.error?.message], if any. *)
Inductive ErrorBody : Type :=
| Unreadable
| Readable (error_message : option jsstring).

(** The error [handleAPIError] throws. *)
Definition handleAPIError (status : nat) (statusText : jsstring) (body : ErrorBody) : AIError :=
  let errorMessage0 := js "Erreur API: " ++ Js.of_nat status ++ js " " ++ statusText in
  match body with
  | Unreadable => createError errorMessage0 unknown
  | Readable m =>
      let errorMessage :=
        match m with
        | Some text => if truthy text then text else errorMessage0
        | None => errorMessage0
        end in
      if status =? 401 then createError (js "Cl" ++ [233%N] ++ js " API invalide ou manquante") api_key
      else if status =? 429 then createError (js "Limite de taux atteinte. Veuillez patienter.") rate_limit
      else if (400 <=? status) && (status <? 500) then createError errorMessage model_error
      else if 500 <=? status then createError (js "Erreur serveur. Veuillez r" ++ [233%N] ++ js "essayer.") network
      else createError errorMessage unknown
  end.

Record Choice := {
  message_content : option jsstring;
  finish_reason : option jsstring
}.

Record RawUsage := {
  prompt_tokens : option Z;
  completion_tokens : option Z;
  total_tokens_used : option Z
}.

Record TokenUsage := {
  promptTokens : Z;
  completionTokens : Z;
  totalTokens : Z
}.

Record AIResponse := {
  ai_content : jsstring;
  usage : option TokenUsage;
  processingTime : Z;
  ai_model : jsstring;
  finishReason : option jsstring
}.

(** What the request to [/chat/completions] comes to.  A body that is no
    object makes [transformResponse] throw a [TypeError]: it is counted with
    the unreadable ones. *)
Inductive ChatReply : Type :=
| ChatRejected (e : JsError)
| ChatNotOk (status : nat) (statusText : jsstring) (body : ErrorBody)
| ChatUnreadable (e : JsError)
| ChatData (choices : list Choice) (raw_usage : option RawUsage) (model : option jsstring).

(** [x || 0] on an optional integer. *)
Definition or_zero (x : option Z) : Z := match x with Some n => n | None => 0%Z end.

(** The [catch] of [generateResponse] on an error without [type]. *)
Definition untyped (error : JsError) : AIError :=
  createError (if truthy (err_message error) then err_message error
               else js "Erreur inconnue du service IA") unknown.

Section WithOpenRouter.

(** [import.meta.env.VITE_OPENROUTER_API_KEY] and the API: a call makes at
    most one request, whose answer is a function of the key and the body. *)
Variable VITE_OPENROUTER_API_KEY : option jsstring.
Variable chat : jsstring -> ChatPayload -> ChatReply.

(** [generateResponse]: the response, or the error thrown. *)
Definition generateResponse (request : ChatRequest) : M (AIError + AIResponse) :=
  (startTime <- Date_now ;;
   match VITE_OPENROUTER_API_KEY with
   | Some apiKey =>
       if truthy apiKey then
         match chat apiKey (transformRequest request) with
         | ChatRejected e => ret (inl (untyped e))
         | ChatNotOk status statusText body => ret (inl (handleAPIError status statusText body))
         | ChatUnreadable e => ret (inl (untyped e))
         | ChatData [] _ _ =>
             ret (inl (untyped (Error (js "R" ++ [233%N] ++ js "ponse invalide de l'API"))))
         | ChatData (choice :: _) raw_usage model =>
             now <- Date_now ;;
             ret (inr {| ai_content := match message_content choice with
                                       | Some text => text
                                       | None => []
                                       end;
                         usage := match raw_usage with
                                  | Some u =>
                                      Some {| promptTokens := or_zero (prompt_tokens u);
                                              completionTokens := or_zero (completion_tokens u);
                                              totalTokens := or_zero (total_tokens_used u) |}
                                  | None => None
                                  end;
                         processingTime := (now - startTime)%Z;
                         ai_model := match model with Some m => m | None => [] end;
                         finishReason := finish_reason choice |})
         end
       else ret (inl (createError (js "Cl" ++ [233%N] ++ js " API manquante pour OpenRouter")
                        api_key))
   | None => ret (inl (createError (js "Cl" ++ [233%N] ++ js " API manquante pour OpenRouter")
                         api_key))
   end)%js.

End WithOpenRouter.

End AIService.

(** ** useAI.ts: the request of [generateResponse] *)

Module UseAI.
Import AIService RAGService.

Record GemSettings := {
  gs_model : jsstring;
  gs_temperature : float;
  gs_maxTokens : Z
}.

Record Gem := {
  id : jsstring;
  prompt : jsstring;
  settings : option GemSettings
}.

Record Message := { m_role : jsstring; m_content : jsstring }.

Record RagContext := {
  rc_searchResult : RAGSearchResult;
  rc_sources : list jsstring;
  contextUsed : bool
}.

(** The template of the enriched prompt. *)
Definition enhancedPromptOf (prompt context : jsstring) : jsstring :=
  prompt
  ++ js "\n\n=== CONTEXTE DES DONN" ++ [201%N] ++ js "ES ===\nVoici les informations pertinentes trouv" ++ [233%N] ++ js "es dans les donn" ++ [233%N] ++ js "es pour r" ++ [233%N] ++ js "pondre " ++ [224%N] ++ js " la question de l'utilisateur :\n\n"
  ++ context
  ++ js "\n\n=== INSTRUCTIONS ===\n- Utilise prioritairement ces informations pour r" ++ [233%N] ++ js "pondre " ++ [224%N] ++ js " la question\n- Si les donn" ++ [233%N] ++ js "es ne contiennent pas l'information demand" ++ [233%N] ++ js "e, indique-le clairement\n- Cite tes sources quand possible\n- Reste factuel et pr" ++ [233%N] ++ js "cis".

(** The block [if (useRAG) { try { .. } catch { .. } }]: the prompt to send
    and [ragContext].  [onRAGSearch] is the optional callback of the
    options, [ragConfig] the optional configuration. *)
Definition ragSearch (ragService : RAGService.t) (gem : Gem) (userMessage : jsstring)
  (useRAG : bool) (ragConfig : option RAGConfig)
  (onRAGSearch : option (RAGSearchResult -> D unit)) : D (jsstring * option RagContext) :=
  (if useRAG then
     dtry_catch
       (hasEmbeddings <- RAGTools.hasEmbeddings ragService (id gem) ;;
        let isConfigured := EmbeddingService.isConfigured (embeddingService ragService) in
        if hasEmbeddings && isConfigured then
          searchResult <- lift (searchForAI ragService (id gem) userMessage
                                  (match ragConfig with
                                   | Some c => c
                                   | None => DEFAULT_RAG_CONFIG
                                   end)) ;;
          match onRAGSearch with
          | Some callback => callback (RAGService.searchResult searchResult)
          | None => dret tt
          end ;;;
          if truthy (context searchResult) && (0 <? length (trim (context searchResult)))
          then dret (enhancedPromptOf (prompt gem) (context searchResult),
                     Some {| rc_searchResult := RAGService.searchResult searchResult;
                             rc_sources := sources searchResult;
                             contextUsed := true |})
          else dret (prompt gem,
                     Some {| rc_searchResult := RAGService.searchResult searchResult;
                             rc_sources := [];
                             contextUsed := false |})
        else dret (prompt gem, None))
       (fun _ => dret (prompt gem, None))
   else dret (prompt gem, None))%db.

(** [messages.slice(-10)] followed by the new message of the user. *)
Definition chatMessages (messages : list Message) (userMessage : jsstring) : list ChatMessage :=
  map (fun msg => {| role := m_role msg; cm_content := m_content msg |})
    (skipn (length messages - 10) messages)
  ++ [{| role := js "user"; cm_content := userMessage |}].

(** The request handed to [aiService.generateResponse]. *)
Definition chatRequest (gem : Gem) (messages : list Message) (userMessage : jsstring)
  (enhancedPrompt : jsstring) : ChatRequest :=
  {| cr_model := match settings gem with
                 | Some st => if truthy (gs_model st) then gs_model st
                              else js "google/gemini-2.0-flash-exp:free"
                 | None => js "google/gemini-2.0-flash-exp:free"
                 end;
     cr_messages := chatMessages messages userMessage;
     cr_temperature := Some match settings gem with
                            | Some st => if number_truthy (gs_temperature st)
                                         then gs_temperature st else 0.7%float
                            | None => 0.7%float
                            end;
     cr_maxTokens := Some match settings gem with
                          | Some st => if (gs_maxTokens st =? 0)%Z then 1000%Z
                                       else gs_maxTokens st
                          | None => 1000%Z
                          end;
     systemPrompt := Some enhancedPrompt |}.

End UseAI.

(** ** fileParserService.ts: the parsers of text and of CSV *)

Module FileParserTools.
Import FileParserService RAGService.

(** What the parsers return, as far as the indexing reads it: [data],
    [columns] and [metadata.rows]. *)
Record ParsedFileData := {
  pf_type : jsstring;
  data : list JsonValue;
  columns : option (list jsstring);
  rows : nat
}.

(** The [replace] applied to headers and values: double quotes,
    backslashes and single quotes are removed. *)
Definition unquote (s : jsstring) : jsstring :=
  filter (fun c => negb ((c =? 34) || (c =? 92) || (c =? 39))%N) s.

(** The value of a string of decimal digits. *)
Fixpoint digits (s : jsstring) (acc : N) : option N :=
  match s with
  | [] => Some acc
  | c :: rest =>
      if ((48 <=? c) && (c <=? 57))%N then digits rest (10 * acc + (c - 48))%N else None
  end.

(** The array index a property key stands for, if any: the key is the
    canonical decimal writing of an integer below 2^32 - 1. *)
Definition array_index (key : jsstring) : option N :=
  match key with
  | [] => None
  | c :: rest =>
      if (c =? 48)%N && negb (length rest =? 0) then None
      else
        match digits key 0 with
        | Some n => if (n <? 4294967295)%N then Some n else None
        | None => None
        end
  end.

(** Whether a new property [key] is enumerated before the property [k]. *)
Definition enumerated_before (key k : jsstring) : bool :=
  match array_index key, array_index k with
  | Some n, Some m => (n <? m)%N
  | Some _, None => true
  | None, _ => false
  end.

(** [row[key] = value] on an object held as the list of its own properties,
    in the order in which the language enumerates them ([Object.values],
    [JSON.stringify]): the array indices first, ascending, then the other
    keys in order of creation.  A property that exists keeps its place. *)
Fixpoint obj_set (fields : list (jsstring * JsonValue)) (key : jsstring) (value : JsonValue)
  : list (jsstring * JsonValue) :=
  match fields with
  | [] => [(key, value)]
  | (k, v) :: rest =>
      if str_eqb k key then (k, value) :: rest
      else if enumerated_before key k then (key, value) :: (k, v) :: rest
      else (k, v) :: obj_set rest key value
  end.

(** [headers.forEach((header, index) => { row[header] = values[index] || '' })].
    The header [__proto__] creates no property: the assignment goes to the
    setter of [Object.prototype], which ignores a string. *)
Definition csvRow (headers values : list jsstring) : JsonValue :=
  JObject
    (fold_left (fun row entry =>
                  if str_eqb (snd entry) (js "__proto__") then row
                  else obj_set row (snd entry) (JString (nth (fst entry) values [])))
       (mapi (fun index header => (index, header)) headers) []).

(** The loop [for (let i = 1; i < lines.length && i <= 1000; i++)]: the rows
    pushed, for the lines under the header. *)
Definition csvData (bestSeparator : jsstring) (headers : list jsstring)
  (dataLines : list jsstring) : list JsonValue :=
  fold_left
    (fun data line =>
       let values := map (fun v => unquote (trim v)) (split bestSeparator line) in
       if length values =? length headers then data ++ [csvRow headers values] else data)
    (firstn 1000 dataLines) [].

Definition parseCSV (text : jsstring) : JsError + ParsedFileData :=
  match csvLines text with
  | [] => inl (Error (js "Le fichier CSV est vide"))
  | header :: dataLines =>
      let bestSeparator := detectSeparator header in
      let headers := map (fun h => unquote (trim h)) (split bestSeparator header) in
      inr {| pf_type := js "csv";
             data := csvData bestSeparator headers dataLines;
             columns := Some headers;
             rows := length dataLines |}
  end.

(** [parseText]: one object [{ ligne, contenu }] for each line kept. *)
Definition parseText (text : jsstring) : ParsedFileData :=
  let lines := csvLines text in
  {| pf_type := js "txt";
     data := mapi (fun index line =>
                     JObject [(js "ligne", JNumber (Num.of_nat (index + 1)));
                              (js "contenu", JString (trim line))]) lines;
     columns := Some [js "ligne"; js "contenu"];
     rows := length lines |}.

End FileParserTools.

(** ** datasetService.ts: from the parsed file to the index *)

Module DatasetService.
Import FileParserTools EmbeddingService RAGService.

Record DatasetRow := {
  id : jsstring;
  ds_gem_id : jsstring;
  file_name : jsstring;
  file_type : jsstring
}.

Record IndexingProgress := {
  ip_dataset_id : jsstring;
  status : jsstring;
  progress : nat;
  ip_message : option jsstring;
  ip_stats : option IndexingStats;
  ip_error : option jsstring
}.

(** Decimal rendering of an integer. *)
Definition of_Z (z : Z) : jsstring :=
  if (z <? 0)%Z then js "-" ++ Js.of_nat (Z.to_nat (- z)) else Js.of_nat (Z.to_nat z).

Section WithBuiltins.

(** Built-ins of the language: [JSON.parse], [JSON.stringify(v)],
    [JSON.stringify(v, null, 2)], [Object.values] (which throws on [null])
    and the rendering of a number. *)
Variable JSON_parse : jsstring -> option JsonValue.
Variable JSON_stringify : JsonValue -> jsstring.
Variable JSON_stringify2 : JsonValue -> jsstring.
Variable Object_values : JsonValue -> JsError + list JsonValue.
Variable Number_toString : float -> jsstring.

(** What [Array.prototype.join] makes of an element: [null] gives the empty
    string, a plain object gives [[object Object]], an array is joined with
    commas. *)
Fixpoint element_text (v : JsonValue) : jsstring :=
  match v with
  | JNull => []
  | JBool b => if b then js "true" else js "false"
  | JNumber x => Number_toString x
  | JString text => text
  | JArray items => join (js ",") (map element_text items)
  | JObject _ => js "[object Object]"
  end.

Definition array_join (sep : jsstring) (items : list JsonValue) : jsstring :=
  join sep (map element_text items).

(** [parsedData.data.map(row => Object.values(row).join(' | '))]. *)
Fixpoint rowTexts (data : list JsonValue) : JsError + list jsstring :=
  match data with
  | [] => inr []
  | row :: rest =>
      match Object_values row with
      | inl e => inl e
      | inr values =>
          match rowTexts rest with
          | inl e => inl e
          | inr texts => inr (array_join (js " | ") values :: texts)
          end
      end
  end.

Definition convertDataToText (parsedData : ParsedFileData) : JsError + jsstring :=
  if length (data parsedData) =? 0 then inr []
  else
    let type := pf_type parsedData in
    if str_eqb type (js "csv") || str_eqb type (js "xlsx") then
      let headers :=
        match columns parsedData with
        | Some names => join (js " | ") names
        | None => []
        end in
      match rowTexts (data parsedData) with
      | inl e => inl e
      | inr texts => inr (headers ++ js "\n" ++ join (js "\n") texts)
      end
    else if str_eqb type (js "json") then inr (JSON_stringify2 (JArray (data parsedData)))
    else if str_eqb type (js "txt") || str_eqb type (js "pdf")
    then inr (array_join (js "\n") (data parsedData))
    else inr (JSON_stringify (JArray (data parsedData))).

(** [indexDatasetInBackground] with a callback that records what it is
    called with: the list of the progress reports, in order. *)
Definition indexDatasetInBackground (ragService : RAGService.t) (dataset : DatasetRow)
  (parsedData : ParsedFileData) (ragConfig : RAGConfig) : M (list IndexingProgress) :=
  (let report status progress message stats error :=
     {| ip_dataset_id := id dataset; status := status; progress := progress;
        ip_message := message; ip_stats := stats; ip_error := error |} in
   let starting := report (js "starting") 0 (Some (js "Initialisation de l'indexation...")) None None in
   let chunking := report (js "chunking") 20 (Some (js "D" ++ [233%N] ++ js "coupage du contenu...")) None None in
   let embedding := report (js "embedding") 40 (Some (js "G" ++ [233%N] ++ js "n" ++ [233%N] ++ js "ration des embeddings...")) None None in
   let failed (sofar : list IndexingProgress) (error : JsError) :=
     ret (sofar ++ [report (js "error") 0 None None (Some (err_message error))]) in
   startTime <- Date_now ;;
   if negb (isConfigured (embeddingService ragService))
   then failed [starting] (Error (js "Service d'embeddings non configur" ++ [233%N] ++ js " (cl" ++ [233%N] ++ js " API OpenAI manquante)"))
   else
     match convertDataToText parsedData with
     | inl e => failed [starting; chunking] e
     | inr contentText =>
         try_catch
           (stats <- indexDataset JSON_parse JSON_stringify ragService (ds_gem_id dataset)
                       (id dataset) contentText (file_name dataset) (file_type dataset)
                       ragConfig ;;
            now <- Date_now ;;
            ret [starting; chunking; embedding;
                 report (js "completed") 100
                   (Some (js "Indexation termin" ++ [233%N] ++ js "e en " ++ of_Z (now - startTime) ++ js "ms")) (Some stats) None])
           (failed [starting; chunking; embedding])
     end)%js.

End WithBuiltins.

End DatasetService.

(** * Properties *)

(** ** Binary64 arithmetic *)

Lemma SFmul_comm (prec emax : Z) (x y : spec_float) :
  SFmul prec emax x y = SFmul prec emax y x.
Proof.
  destruct x as [sx|sx| |sx mx ex], y as [sy|sy| |sy my ey]; simpl;
    try reflexivity; try (rewrite (xorb_comm sx sy); reflexivity).
  rewrite (xorb_comm sx sy), (Pos.mul_comm mx my), (Z.add_comm ex ey).
  reflexivity.
Qed.

Lemma float_mul_comm (x y : float) : (x * y = y * x)%float.
Proof.
  apply Prim2SF_inj. rewrite !mul_spec. apply SFmul_comm.
Qed.

(** ** cosineSimilarity *)

Module CosineFacts.
Import EmbeddingService Notions.

Lemma cosineStep_swap (s : Sums) (a b : float) :
  cosineStep (swapSums s) (b, a) = swapSums (cosineStep s (a, b)).
Proof.
  unfold cosineStep, swapSums; simpl. rewrite (float_mul_comm b a). reflexivity.
Qed.

Lemma fold_cosine_swap (vecA vecB : list float) :
  forall s, fold_left cosineStep (combine vecB vecA) (swapSums s)
            = swapSums (fold_left cosineStep (combine vecA vecB) s).
Proof.
  revert vecB. induction vecA as [|a vecA IH]; intros [|b vecB] s;
    cbn [combine fold_left]; try reflexivity.
  rewrite cosineStep_swap. apply IH.
Qed.

Lemma cosineSimilarity_sym (vecA vecB : list float) :
  cosineSimilarity vecA vecB = cosineSimilarity vecB vecA.
Proof.
  unfold cosineSimilarity.
  rewrite (Nat.eqb_sym (length vecB) (length vecA)).
  destruct (length vecA =? length vecB); simpl; [|reflexivity].
  rewrite (fold_cosine_swap vecA vecB {| dotProduct := 0; normA := 0; normB := 0 |}
           : fold_left cosineStep (combine vecB vecA)
               {| dotProduct := 0; normA := 0; normB := 0 |} = _).
  set (s := fold_left cosineStep (combine vecA vecB) _).
  unfold swapSums; cbn [dotProduct normA normB].
  rewrite (orb_comm (PrimFloat.eqb (PrimFloat.sqrt (normB s)) 0)).
  rewrite (float_mul_comm (PrimFloat.sqrt (normB s))).
  reflexivity.
Qed.

(** C10. [cosineSimilarity] is commutative: on two vectors of equal length
    both calls return a number, the same one, in binary64 arithmetic. *)
Theorem cosineSimilarity_comm (vecA vecB : list float) :
  length vecA = length vecB ->
  exists r, cosineSimilarity vecA vecB = inr r /\ cosineSimilarity vecB vecA = inr r.
Proof.
  intros Hlen. rewrite (cosineSimilarity_sym vecB vecA).
  unfold cosineSimilarity. rewrite Hlen, Nat.eqb_refl. simpl.
  match goal with |- context [if ?c then _ else _] => destruct c end; eauto.
Qed.

Lemma cosineSimilarity_comm_witness :
  length [1%float; 2%float; 0.5%float] = length [3%float; (-1)%float; 4%float]
  /\ exists r, cosineSimilarity [1%float; 2%float; 0.5%float] [3%float; (-1)%float; 4%float] = inr r
            /\ cosineSimilarity [3%float; (-1)%float; 4%float] [1%float; 2%float; 0.5%float] = inr r.
Proof.
  split; [reflexivity|].
  apply (cosineSimilarity_comm [1%float; 2%float; 0.5%float] [3%float; (-1)%float; 4%float]).
  reflexivity.
Defined.

End CosineFacts.

(** ** The chunker *)

Module ChunkFacts.
Import ChunkingService Notions.

(** *** Chunk indices *)

Lemma indexed_nil : indexed [].
Proof. intros [|k] c H; discriminate H. Qed.

Lemma indexed_push (l : list ChunkData) (c : ChunkData) :
  indexed l -> chunk_index (metadata c) = length l -> indexed (l ++ [c]).
Proof.
  intros Hl Hc k d Hk.
  destruct (Nat.lt_ge_cases k (length l)) as [Hlt|Hge].
  - rewrite nth_error_app1 in Hk by exact Hlt. apply Hl, Hk.
  - rewrite nth_error_app2 in Hk by exact Hge.
    destruct (k - length l) as [|j] eqn:E; simpl in Hk.
    + injection Hk as <-. lia.
    + destruct j; discriminate Hk.
Qed.

(** A loop that only pushes chunks numbered by [chunks.length]. *)
Lemma indexed_push_loop {A} (mk : list ChunkData -> A -> ChunkData) (xs : list A) :
  (forall chunks x, chunk_index (metadata (mk chunks x)) = length chunks) ->
  forall acc, indexed acc ->
  indexed (fold_left (fun chunks x => chunks ++ [mk chunks x]) xs acc).
Proof.
  intros Hmk. induction xs as [|x xs IH]; intros acc Hacc; simpl; [exact Hacc|].
  apply IH, indexed_push; [exact Hacc|apply Hmk].
Qed.

Lemma chunkCSV_indexed (csvContent fileName : jsstring) (config : ChunkingConfig) :
  indexed (chunkCSV csvContent fileName config).
Proof.
  unfold chunkCSV. destruct (split (js "\n") csvContent) as [|headers rest].
  - apply indexed_nil.
  - apply (indexed_push_loop (csvChunk fileName headers (headers :: rest) _)).
    + reflexivity.
    + apply indexed_nil.
Qed.

Lemma textStep_indexed (content fileName : jsstring) (config : ChunkingConfig)
  (st : TextState) (paragraph : jsstring) :
  indexed (chunks st) -> indexed (chunks (textStep content fileName config st paragraph)).
Proof.
  intros H. unfold textStep.
  destruct (negb (truthy (trim paragraph))); [exact H|].
  destruct (_ && _); cbn [chunks]; [|exact H].
  destruct (_ >=? _)%Z; [|exact H].
  apply indexed_push; [exact H|reflexivity].
Qed.

Lemma textLoop_indexed (content fileName : jsstring) (config : ChunkingConfig) :
  indexed (chunks (textLoop content fileName config)).
Proof.
  unfold textLoop.
  set (st0 := {| chunks := []; currentChunk := []; chunkStart := 0 |}).
  assert (H0 : indexed (chunks st0)) by apply indexed_nil.
  revert H0. generalize st0. generalize (split_paragraphs content).
  induction l as [|p ps IH]; intros st Hst; simpl; [exact Hst|].
  apply IH, textStep_indexed, Hst.
Qed.

Lemma chunkText_indexed (content fileName : jsstring) (config : ChunkingConfig) :
  indexed (chunkText content fileName config).
Proof.
  unfold chunkText, textFlush.
  destruct (_ >=? _)%Z.
  - apply indexed_push; [apply textLoop_indexed|reflexivity].
  - rewrite app_nil_r. apply textLoop_indexed.
Qed.

Lemma chunkJSON_indexed parse stringify (jsonContent fileName : jsstring)
  (config : ChunkingConfig) :
  indexed (chunkJSON parse stringify jsonContent fileName config).
Proof.
  unfold chunkJSON.
  destruct (parse jsonContent) as [[| | | |data|]|]; try apply chunkText_indexed.
  apply (indexed_push_loop (jsonChunk stringify fileName data _)).
  - reflexivity.
  - apply indexed_nil.
Qed.

(** Under every strategy the chunk at position [k] has [chunk_index] [k]:
    the indices are 0, 1, 2, ... in order. *)
Lemma chunkContent_indexed parse stringify (content fileType fileName : jsstring)
  (config : ChunkingConfig) :
  indexed (chunkContent parse stringify content fileType fileName config).
Proof.
  unfold chunkContent, chunkPDF.
  repeat match goal with |- context [if ?b then _ else _] => destruct b end;
    auto using chunkCSV_indexed, chunkJSON_indexed, chunkText_indexed.
Qed.

(** The chunk at position [k] carries the index [k], under every strategy. *)
Theorem chunk_index_is_position parse stringify (text fileType fileName : jsstring)
  (config : ChunkingConfig) (k : nat) (c : ChunkData) :
  nth_error (chunkContent parse stringify text fileType fileName config) k = Some c ->
  chunk_index (metadata c) = k.
Proof. apply chunkContent_indexed. Qed.

Lemma chunk_index_is_position_witness :
  exists c,
    nth_error (chunkContent (fun _ => None) (fun _ => []) (js "abcd ef\n\nghij") (js "txt")
                 (js "n.txt") smallConfig) 1 = Some c
    /\ chunk_index (metadata c) = 1.
Proof.
  eexists. split; [vm_compute; reflexivity|].
  apply (chunk_index_is_position (fun _ => None) (fun _ => []) (js "abcd ef\n\nghij")
           (js "txt") (js "n.txt") smallConfig 1).
  vm_compute. reflexivity.
Defined.

(** *** Token estimates *)

(** [estimateTokens] is the ceiling of a quarter of the length. *)
Lemma estimateTokens_ceil (text : jsstring) :
  4 * estimateTokens text >= length text /\ 4 * estimateTokens text < length text + 4.
Proof.
  unfold estimateTokens.
  pose proof (Nat.div_mod_eq (length text + 3) 4) as E.
  pose proof (Nat.mod_upper_bound (length text + 3) 4) as B.
  lia.
Qed.

Lemma Forall_push_loop {A} (P : ChunkData -> Prop)
  (mk : list ChunkData -> A -> ChunkData) (xs : list A) :
  (forall chunks x, P (mk chunks x)) ->
  forall acc, Forall P acc ->
  Forall P (fold_left (fun chunks x => chunks ++ [mk chunks x]) xs acc).
Proof.
  intros Hmk. induction xs as [|x xs IH]; intros acc Hacc; simpl; [exact Hacc|].
  apply IH, Forall_app; split; [exact Hacc|].
  constructor; [apply Hmk|constructor].
Qed.

(** The tabular strategy estimates the tokens of the content it emits. *)
Lemma chunkCSV_tokens (csvContent fileName : jsstring) (config : ChunkingConfig) :
  Forall (fun c => tokens (metadata c) = estimateTokens (content c))
    (chunkCSV csvContent fileName config).
Proof.
  unfold chunkCSV. destruct (split (js "\n") csvContent) as [|headers rest]; [constructor|].
  apply (Forall_push_loop _ (csvChunk fileName headers (headers :: rest) _)).
  - reflexivity.
  - constructor.
Qed.

(** *** The size floor *)

(** The tabular strategy never reads [minChunkSize]: with the default
    configuration (floor 100) the two-line text [a], [1] yields one chunk
    whose content has 3 code units. *)
Lemma chunkCSV_below_floor :
  exists c,
    chunkCSV (js "a\n1") (js "t.csv") DEFAULT_CHUNKING_CONFIG = [c]
    /\ content c = js "a\n1"
    /\ (Z.of_nat (length (content c)) < minChunkSize DEFAULT_CHUNKING_CONFIG)%Z.
Proof.
  eexists. split; [vm_compute; reflexivity|]. split; [reflexivity|]. vm_compute. reflexivity.
Qed.

(** The test made when a chunk is closed inside the loop of [chunkText] is
    on the buffer before trimming.  With [chunkSize] 10, [chunkOverlap] 3 and
    [minChunkSize] 9, the second buffer [ ef], blank line, [ghij] has 9 code
    units and is closed by the third paragraph; the chunk emitted has 8. *)
Lemma chunkText_closed_chunk_below_floor :
  exists c c',
    chunkText (js "abcd ef\n\nghij\n\nklmnop") (js "n.txt")
      {| chunkSize := 10; chunkOverlap := 3; respectSentences := true;
         respectParagraphs := true; minChunkSize := 9 |} = [c; c']
    /\ content c = js "ef\n\nghij"
    /\ length (content c) = 8.
Proof.
  do 2 eexists. split; [vm_compute; reflexivity|]. split; reflexivity.
Qed.

(** C3 at a failing input, with the default configuration ([chunkSize]
    1000, [chunkOverlap] 200, [minChunkSize] 100).  The text
    [under_floor_text] has three paragraphs of 982, 96 and 950 code units,
    the first ending in a full stop, two spaces and [b].  The second
    paragraph closes the first chunk; the overlap carried over is what
    follows the full stop and one space: a space and [b].  The buffer closed
    by the third paragraph is that overlap, a blank line and the second
    paragraph: 100 code units, which passes the test made on the buffer, but
    the chunk emitted holds the buffer trimmed, 99 code units, under the
    floor of 100. *)
Theorem chunkText_default_below_floor :
  exists c0 c1 c2,
    chunkText under_floor_text (js "n.txt") DEFAULT_CHUNKING_CONFIG = [c0; c1; c2]
    /\ content c1 = js "b\n\n" ++ repeat 99%N 96
    /\ length (content c1) = 99
    /\ minChunkSize DEFAULT_CHUNKING_CONFIG = 100%Z
    /\ (Z.of_nat (length (content c1)) < minChunkSize DEFAULT_CHUNKING_CONFIG)%Z.
Proof.
  do 3 eexists. split; [vm_compute; reflexivity|].
  repeat split; vm_compute; reflexivity.
Qed.

(** The last flush of [chunkText] does keep the floor: the test there is on
    the trimmed text, which is what the chunk holds. *)
Lemma chunkText_flush_floor (text fileName : jsstring) (config : ChunkingConfig)
  (c : ChunkData) :
  In c (textFlush text fileName config (textLoop text fileName config)) ->
  In c (chunkText text fileName config)
  /\ (minChunkSize config <= Z.of_nat (length (content c)))%Z.
Proof.
  intros Hc. split.
  - unfold chunkText. apply in_or_app. right. exact Hc.
  - unfold textFlush in Hc.
    destruct (Z.of_nat (length (trim (currentChunk (textLoop text fileName config))))
              >=? minChunkSize config)%Z eqn:E.
    + destruct Hc as [<-|[]]. cbn [content textChunk]. lia.
    + destruct Hc.
Qed.

(** A last accumulation that is shorter, once trimmed, gives no chunk. *)
Lemma textFlush_drops_short (text fileName : jsstring) (config : ChunkingConfig)
  (st : TextState) :
  (Z.of_nat (length (trim (currentChunk st))) < minChunkSize config)%Z ->
  textFlush text fileName config st = [].
Proof.
  intros Hshort. unfold textFlush.
  destruct (Z.geb_spec (Z.of_nat (length (trim (currentChunk st)))) (minChunkSize config));
    [lia|reflexivity].
Qed.

(** *** Token estimate of the free-text strategy *)

(** C8 at a failing input.  Two paragraphs, [abcd ef] and [ghij], with
    [chunkSize] 10 and [chunkOverlap] 3: the overlap carried into the second
    chunk is [ ef], with its leading space.  The chunk's content is the
    trimmed text (8 code units, so 2 tokens) but its estimate is computed on
    the untrimmed buffer (9 code units): 3. *)
Theorem chunkText_tokens_untrimmed :
  exists c0 c1,
    chunkText (js "abcd ef\n\nghij") (js "n.txt") smallConfig = [c0; c1]
    /\ chunk_index (metadata c1) = 1
    /\ content c1 = js "ef\n\nghij"
    /\ tokens (metadata c1) = 3
    /\ estimateTokens (content c1) = 2.
Proof.
  do 2 eexists. split; [vm_compute; reflexivity|]. repeat split.
Qed.

End ChunkFacts.

(** ** Delimiters *)

Module DelimiterFacts.
Import ChunkingService Notions.

(** *** The tabular strategy looks at line feeds only *)

Section Renaming.

Variable rho : N -> N.
Hypothesis rho_lf : forall c, rho c = LF <-> c = LF.

Lemma rho_lf_eqb (c : N) : N.eqb LF (rho c) = N.eqb LF c.
Proof.
  destruct (N.eqb_spec LF c) as [E|E].
  - apply N.eqb_eq. symmetry. apply rho_lf. congruence.
  - apply N.eqb_neq. intros E'. apply E. symmetry. apply rho_lf. congruence.
Qed.

Lemma split_go_lf_map (s : jsstring) :
  forall skip cur,
    split_go [LF] skip (map rho cur) (map rho s) = map (map rho) (split_go [LF] skip cur s).
Proof.
  induction s as [|c s IH]; intros skip cur; cbn [map split_go].
  - rewrite map_rev. reflexivity.
  - destruct skip as [|k]; [|apply IH].
    cbn [starts_with]. rewrite rho_lf_eqb.
    destruct (N.eqb LF c); cbn [andb length Nat.sub map].
    + rewrite map_rev. f_equal. apply (IH 0 []).
    + apply (IH 0 (c :: cur)).
Qed.

Lemma split_lf_map (s : jsstring) :
  split (js "\n") (map rho s) = map (map rho) (split (js "\n") s).
Proof. apply (split_go_lf_map s 0 []). Qed.

Lemma join_lf_map (parts : list jsstring) :
  join (js "\n") (map (map rho) parts) = map rho (join (js "\n") parts).
Proof.
  induction parts as [|p [|q rest] IH]; try reflexivity.
  change (join (js "\n") (map (map rho) (p :: q :: rest)))
    with (map rho p ++ [LF] ++ join (js "\n") (map (map rho) (q :: rest))).
  rewrite IH.
  change (join (js "\n") (p :: q :: rest)) with (p ++ [LF] ++ join (js "\n") (q :: rest)).
  rewrite !map_app. cbn [map].
  replace (rho LF) with LF by (symmetry; apply rho_lf; reflexivity).
  reflexivity.
Qed.

Lemma slice_step_map {A B} (f : A -> B) (l : list A) (i : nat) (step : Num.integral) :
  Num.slice_step (map f l) i step = map f (Num.slice_step l i step).
Proof.
  destruct step; cbn [Num.slice_step]; unfold slice;
    rewrite ?skipn_map, ?firstn_map; reflexivity.
Qed.

Lemma csvChunk_rename (fileName headers : jsstring) (lines : list jsstring)
  (step : Num.integral) (chunks : list ChunkData) (i : nat) :
  csvChunk fileName (map rho headers) (map (map rho) lines) step
    (map (renameContent rho) chunks) i
  = renameContent rho (csvChunk fileName headers lines step chunks i).
Proof.
  unfold csvChunk, renameContent; cbn [content metadata].
  rewrite slice_step_map, join_lf_map, !length_map.
  set (body := join _ _).
  replace (map rho headers ++ js "\n" ++ map rho body)
    with (map rho (headers ++ js "\n" ++ body)).
  - unfold estimateTokens. rewrite length_map. reflexivity.
  - change (js "\n") with [LF]. rewrite !map_app. cbn [map].
    replace (rho LF) with LF by (symmetry; apply rho_lf; reflexivity).
    reflexivity.
Qed.

Lemma csv_loop_rename (fileName headers : jsstring) (lines : list jsstring)
  (step : Num.integral) (idx : list nat) :
  forall acc,
    fold_left (fun chunks i =>
                 chunks ++ [csvChunk fileName (map rho headers) (map (map rho) lines) step chunks i])
      idx (map (renameContent rho) acc)
    = map (renameContent rho)
        (fold_left (fun chunks i => chunks ++ [csvChunk fileName headers lines step chunks i])
           idx acc).
Proof.
  induction idx as [|i idx IH]; intros acc; cbn [fold_left]; [reflexivity|].
  rewrite csvChunk_rename.
  rewrite <- (IH (acc ++ [csvChunk fileName headers lines step acc i])).
  rewrite map_app. reflexivity.
Qed.

Lemma chunkCSV_rename (csvContent fileName : jsstring) (config : ChunkingConfig) :
  chunkCSV (map rho csvContent) fileName config
  = map (renameContent rho) (chunkCSV csvContent fileName config).
Proof.
  unfold chunkCSV. rewrite split_lf_map.
  destruct (split (js "\n") csvContent) as [|headers rest]; [reflexivity|].
  cbn [map]. rewrite !length_map.
  change (map rho headers :: map (map rho) rest) with (map (map rho) (headers :: rest)).
  rewrite !length_map.
  apply (csv_loop_rename fileName headers (headers :: rest) _ _ []).
Qed.

End Renaming.

(** *** The separator detection of the file parser *)

Import FileParserService.

Lemma split_go_length (sep : jsstring) (s : jsstring) :
  forall skip cur, 1 <= length (split_go sep skip cur s).
Proof.
  induction s as [|c s IH]; intros skip cur; cbn [split_go].
  - simpl. lia.
  - destruct skip; [|apply IH].
    destruct (starts_with sep (c :: s)); [cbn [length]; lia|apply IH].
Qed.

(** The loop keeps a separator whose column count no candidate exceeds. *)
Lemma separator_loop (header : jsstring) (seps : list jsstring) :
  forall st,
    let r := fold_left (separatorStep header) seps st in
    snd st <= snd r
    /\ (forall sep, In sep seps -> Spec.columns sep header <= snd r)
    /\ (r = st \/ (In (fst r) seps /\ snd r = Spec.columns (fst r) header)).
Proof.
  induction seps as [|sep seps IH]; intros st; cbn [fold_left].
  - repeat split; [lia|intros ? []|left; reflexivity].
  - specialize (IH (separatorStep header st sep)). cbv zeta in IH.
    destruct IH as (Hle & Hmax & Hkept).
    assert (Hstep : snd st <= snd (separatorStep header st sep)
                    /\ Spec.columns sep header <= snd (separatorStep header st sep)).
    { unfold separatorStep, Spec.columns.
      destruct (Nat.ltb_spec (snd st) (length (split sep header))); cbn [snd]; lia. }
    cbv zeta. repeat split.
    + lia.
    + intros s' [<-|Hin]; [lia|apply Hmax, Hin].
    + destruct Hkept as [E|[Hin E]].
      * unfold separatorStep in E |- *. unfold Spec.columns.
        destruct (Nat.ltb_spec (snd st) (length (split sep header))).
        -- right. rewrite E. cbn [fst snd]. split; [left|]; reflexivity.
        -- left. exact E.
      * right. split; [right; exact Hin|exact E].
Qed.

Lemma detectSeparator_max (header : jsstring) :
  In (detectSeparator header) separators
  /\ forall sep, In sep separators ->
       Spec.columns sep header <= Spec.columns (detectSeparator header) header.
Proof.
  unfold detectSeparator.
  destruct (separator_loop header separators (js ",", 0)) as (_ & Hmax & Hkept).
  cbv zeta in *.
  destruct Hkept as [E|[Hin E]].
  - exfalso. specialize (Hmax (js ",") (or_introl eq_refl)).
    rewrite E in Hmax. cbn [snd] in Hmax.
    pose proof (split_go_length (js ",") header 0 []) as H1.
    unfold Spec.columns, split in Hmax. lia.
  - split; [exact Hin|]. intros sep Hsep. rewrite <- E. apply Hmax, Hsep.
Qed.

(** With a tab among the candidates, the loop of [parseCSV] is the
    detection the specification describes, on every header. *)
Lemma separator_loop_with_tab (header : jsstring) :
  fst (fold_left (separatorStep header) [js ","; js ";"; js "\t"] (js ",", 0))
  = Spec.detectDelimiter header.
Proof.
  unfold Spec.detectDelimiter, Spec.columns. cbn [fold_left].
  unfold separatorStep at 3. cbn [snd].
  pose proof (split_go_length (js ",") header 0 []) as H1. fold (split (js ",") header) in H1.
  destruct (Nat.ltb_spec 0 (length (split (js ",") header))) as [_|H0]; [|lia].
  unfold separatorStep at 2. cbn [snd fst].
  destruct (length (split (js ",") header) <? length (split (js ";") header));
    unfold separatorStep; cbn [snd fst];
    destruct (_ <? _); reflexivity.
Qed.

(** C5 at a failing input.  The separator detection of the repository is
    the loop of [parseCSV]; its third candidate is written with a doubled
    backslash, so that it is the two code units backslash and [t], not the
    tab.  On the tab-separated header [a<TAB>b<TAB>c] the detection the
    specification describes answers the tab (three columns); the code
    answers the comma, which yields one column.  The loop is otherwise the
    specified one: with the tab as third candidate it gives the specified
    answer on every header. *)
Theorem detectSeparator_misses_tab :
  separators = [js ","; js ";"; [BACKSLASH; 116%N]]
  /\ Spec.detectDelimiter (js "a\tb\tc") = js "\t"
  /\ Spec.columns (js "\t") (js "a\tb\tc") = 3
  /\ detectSeparator (js "a\tb\tc") = js ","
  /\ Spec.columns (js ",") (js "a\tb\tc") = 1
  /\ bestSeparator (js "a\tb\tc") = inr (js ",")
  /\ (forall header,
        fst (fold_left (separatorStep header) [js ","; js ";"; js "\t"] (js ",", 0))
        = Spec.detectDelimiter header).
Proof.
  repeat split; try (vm_compute; reflexivity).
  apply separator_loop_with_tab.
Qed.

(** The tabular strategy of the chunker makes no detection: on the same
    tab-separated text it emits the lines as they stand. *)
Lemma chunkCSV_keeps_tabs :
  exists c,
    chunkCSV (js "a\tb\tc\n1\t2\t3") (js "t.csv") DEFAULT_CHUNKING_CONFIG = [c]
    /\ content c = js "a\tb\tc\n1\t2\t3".
Proof.
  eexists. split; vm_compute; reflexivity.
Qed.

End DelimiterFacts.

(** ** Loops by strides *)

Module StrideFacts.

Lemma strides_unfold (i step n : nat) :
  Num.strides i step n
  = if lt_dec i n then i :: Num.strides (i + S (pred step)) step n else [].
Proof.
  rewrite Num.strides_equation_1. destruct (lt_dec i n); reflexivity.
Qed.

(** The slices a loop of stride [S s] takes cover the list, in order. *)
Lemma slices_cover {A} (l : list A) (s : nat) :
  forall i, i <= length l ->
  concat (map (fun i => slice l i (i + S s)) (Num.strides i (S s) (length l))) = skipn i l.
Proof.
  intros i. remember (length l - i) as d eqn:Hd. revert i Hd.
  induction d as [d IH] using lt_wf_ind. intros i Hd Hi.
  rewrite strides_unfold. destruct (lt_dec i (length l)) as [Hlt|Hge].
  - cbn [map concat pred].
    destruct (le_lt_dec (i + S s) (length l)) as [Hin|Hout].
    + rewrite (IH (length l - (i + S s))); try lia.
      unfold slice. replace (i + S s - i) with (S s) by lia.
      transitivity (firstn (S s) (skipn i l) ++ skipn (S s) (skipn i l));
        [|apply firstn_skipn].
      f_equal. rewrite skipn_skipn. f_equal. lia.
    + rewrite strides_unfold. destruct (lt_dec _ _); [lia|].
      cbn [map concat]. rewrite app_nil_r.
      unfold slice. apply firstn_all2. rewrite length_skipn. lia.
  - cbn [map concat]. symmetry. apply skipn_all2. lia.
Qed.

Lemma slices_concat {A} (l : list A) (s : nat) :
  concat (map (fun i => slice l i (i + S s)) (Num.strides 0 (S s) (length l))) = l.
Proof. apply (slices_cover l s 0). lia. Qed.

Lemma Forall2_concat {A B} (R : A -> B -> Prop) (xss : list (list A)) (yss : list (list B)) :
  Forall2 (Forall2 R) xss yss -> Forall2 R (concat xss) (concat yss).
Proof.
  induction 1 as [|xs ys xss yss H _ IH]; cbn [concat]; [constructor|].
  apply Forall2_app; assumption.
Qed.

Lemma length_concat_map {A B} (f : A -> list B) (g : A -> nat) (l : list A) :
  Forall (fun x => length (f x) = g x) l ->
  length (concat (map f l)) = list_sum (map g l).
Proof.
  induction 1 as [|x l Hx _ IH]; cbn [map concat list_sum]; [reflexivity|].
  rewrite length_app, Hx, IH. reflexivity.
Qed.

End StrideFacts.

(** ** generateEmbeddings *)

Module EmbeddingFacts.
Import EmbeddingService Run.

Lemma advanced_refl (w : World) : advanced 0 w w.
Proof. constructor; try reflexivity. lia. Qed.

Lemma advanced_trans (a b : nat) (w1 w2 w3 : World) :
  advanced a w1 w2 -> advanced b w2 w3 -> advanced (a + b) w1 w3.
Proof.
  intros [] []. constructor; try congruence. lia.
Qed.

Lemma advanced_eq (a b : nat) (w w' : World) : a = b -> advanced a w w' -> advanced b w w'.
Proof. intros ->. exact (fun H => H). Qed.

Lemma Date_now_advanced (w : World) : advanced 0 w (snd (Date_now w)).
Proof. constructor; cbn; try reflexivity. lia. Qed.

Lemma sleep_advanced (ms : Z) (w : World) : advanced 0 w (snd (sleep ms w)).
Proof. constructor; cbn; try reflexivity. lia. Qed.

Lemma check_reply_values (r : GeminiReply) (v : list float) :
  check_reply r = inr v -> r = Values v.
Proof. destruct r; cbn; intros E; try discriminate E. congruence. Qed.

(** [generateGeminiBatch] does what the script says. *)
Lemma generateGeminiBatch_loop (provider : EmbeddingProvider) (batch : list ChunkData) :
  forall (acc : list (list float)) (w : World),
  exists w',
    forM batch acc (fun embeddings chunk =>
      v <- embedOne provider (content chunk) ;;
      sleep 50 ;;;
      ret (embeddings ++ [v])) w
    = (match fst (batch_outcome (gemini w) (model provider) (gemini_calls w) batch) with
       | inr vs => inr (acc ++ vs)
       | inl e => inl e
       end, w')
    /\ advanced (snd (batch_outcome (gemini w) (model provider) (gemini_calls w) batch)) w w'.
Proof.
  induction batch as [|c rest IH]; intros acc w.
  - exists w. cbn. rewrite app_nil_r. split; [reflexivity|apply advanced_refl].
  - cbn [forM batch_outcome].
    cbv beta iota delta [bind embedOne fetch_embedContent].
    destruct (check_reply (gemini w (gemini_calls w) (model provider) (content c)))
      as [e|v] eqn:E.
    + eexists. split; [reflexivity|]. constructor; cbn; try reflexivity. lia.
    + cbv beta iota delta [ret sleep].
      set (w2 := set_slept _ _).
      destruct (IH (acc ++ [v]) w2) as (w' & Hrun & Hadv).
      change (gemini w2) with (gemini w) in Hrun, Hadv.
      change (gemini_calls w2) with (S (gemini_calls w)) in Hrun, Hadv.
      exists w'.
      change (forM rest (acc ++ [v]) _ w2) with
        (forM rest (acc ++ [v]) (fun embeddings chunk =>
           v <- embedOne provider (content chunk) ;; sleep 50 ;;; ret (embeddings ++ [v])) w2).
      rewrite Hrun.
      destruct (batch_outcome (gemini w) (model provider) (S (gemini_calls w)) rest)
        as [[e|vs] used]; cbn [fst snd] in *.
      * split; [reflexivity|].
        destruct Hadv. constructor; cbn in *; try congruence. lia.
      * rewrite <- app_assoc. split; [reflexivity|].
        destruct Hadv. constructor; cbn in *; try congruence. lia.
Qed.

Lemma generateGeminiBatch_spec (self : t) (batch : list ChunkData)
  (provider : EmbeddingProvider) (w : World) :
  exists w',
    generateGeminiBatch self batch provider w
    = (fst (batch_outcome (gemini w) (model provider) (gemini_calls w) batch), w')
    /\ advanced (snd (batch_outcome (gemini w) (model provider) (gemini_calls w) batch)) w w'.
Proof.
  destruct (generateGeminiBatch_loop provider batch [] w) as (w' & Hrun & Hadv).
  exists w'. split; [|exact Hadv].
  unfold generateGeminiBatch. rewrite Hrun.
  destruct (fst _); reflexivity.
Qed.

(** A provider that passes the credentials check is the Gemini one. *)
Lemma configuredProvider_gemini (self : t) (providerKey : jsstring)
  (provider : EmbeddingProvider) :
  configuredProvider self providerKey = inr provider ->
  str_eqb (name provider) (js "Google Gemini") = true.
Proof.
  unfold configuredProvider, isProviderConfigured.
  destruct (lookup_provider EMBEDDING_PROVIDERS providerKey) as [p|]; [|discriminate].
  destruct (str_eqb (name p) (js "Google Gemini")) eqn:E.
  - destruct (isConfigured self); [|discriminate]. intros H. injection H as <-. exact E.
  - discriminate.
Qed.

Lemma batchStep_spec (self : t) (chunks : list ChunkData) (provider : EmbeddingProvider)
  (providerKey : jsstring) (acc : Acc) (i : nat) (w : World) :
  str_eqb (name provider) (js "Google Gemini") = true ->
  let batch := slice chunks i (i + batchSize) in
  let o := batch_outcome (gemini w) (model provider) (gemini_calls w) batch in
  exists w',
    batchStep self chunks provider providerKey acc i w
    = (inr (after_batch provider acc
              {| br_start := i; br_batch := batch; br_first_call := gemini_calls w;
                 br_outcome := fst o |}), w')
    /\ advanced (snd o) w w'.
Proof.
  intros Hname batch o.
  unfold batchStep, try_catch, generateBatch. rewrite Hname.
  fold batch. unfold bind at 1.
  destruct (generateGeminiBatch_spec self batch provider w) as (w1 & Hrun & Hadv).
  rewrite Hrun. fold o in Hadv |- *.
  unfold after_batch, br_vectors, br_errors, br_tokens; cbn [br_outcome br_batch br_start].
  destruct (fst o) as [e|vs].
  - exists w1. split; [|exact Hadv]. unfold ret. rewrite Nat.add_0_r. reflexivity.
  - unfold bind at 1.
    destruct (i + batchSize <? length chunks).
    + eexists. split; [cbn; rewrite app_nil_r; reflexivity|].
      apply (advanced_eq (snd o + 0)); [lia|].
      eapply advanced_trans; [exact Hadv|apply sleep_advanced].
    + exists w1. split; [cbn; rewrite app_nil_r; reflexivity|exact Hadv].
Qed.

Lemma embed_loop (self : t) (chunks : list ChunkData) (provider : EmbeddingProvider)
  (providerKey : jsstring) (starts : list nat) :
  str_eqb (name provider) (js "Google Gemini") = true ->
  forall (acc : Acc) (w : World),
  exists w',
    forM starts acc (batchStep self chunks provider providerKey) w
    = (inr (fold_left (after_batch provider)
              (batches (gemini w) provider chunks (gemini_calls w) starts) acc), w')
    /\ advanced (requests (gemini w) provider chunks (gemini_calls w) starts) w w'.
Proof.
  intros Hname. induction starts as [|i rest IH]; intros acc w.
  - exists w. split; [reflexivity|apply advanced_refl].
  - cbn [forM batches fold_left requests]. unfold bind at 1.
    destruct (batchStep_spec self chunks provider providerKey acc i w Hname)
      as (w1 & Hstep & Hadv1).
    cbv zeta in Hstep, Hadv1. rewrite Hstep.
    set (o := batch_outcome _ _ _ _) in *.
    destruct (IH (after_batch provider acc
                    {| br_start := i; br_batch := slice chunks i (i + batchSize);
                       br_first_call := gemini_calls w; br_outcome := fst o |}) w1)
      as (w' & Hrun & Hadv).
    rewrite (adv_gemini _ _ _ Hadv1), (adv_calls _ _ _ Hadv1) in Hrun, Hadv.
    exists w'. split; [exact Hrun|].
    eapply advanced_trans; eassumption.
Qed.

Lemma fold_after_batch (provider : EmbeddingProvider) (results : list BatchResult) :
  forall acc,
    let acc' := fold_left (after_batch provider) results acc in
    embeddings acc' = embeddings acc ++ concat (map (br_vectors provider) results)
    /\ errs acc' = errs acc ++ concat (map br_errors results)
    /\ totalTokens acc' = totalTokens acc + list_sum (map br_tokens results).
Proof.
  induction results as [|r rest IH]; intros acc; cbv zeta;
    cbn [fold_left map concat list_sum].
  - rewrite !app_nil_r, Nat.add_0_r. repeat split.
  - destruct (IH (after_batch provider acc r)) as (He & Hr & Ht).
    cbv zeta in He, Hr, Ht. rewrite He, Hr, Ht.
    cbn [after_batch embeddings errs totalTokens].
    rewrite <- !app_assoc. repeat split. unfold list_sum; cbn [fold_right]. lia.
Qed.

(** The run of [generateEmbeddings], batch by batch. *)
Lemma generateEmbeddings_run (self : t) (chunks : list ChunkData)
  (providerKey : jsstring) (provider : EmbeddingProvider) (w : World) :
  configuredProvider self providerKey = inr provider ->
  exists stats used w',
    generateEmbeddings self chunks providerKey w
    = (inr (concat (map (br_vectors provider) (batches_of provider chunks w)), stats), w')
    /\ advanced used w w'
    /\ total_chunks stats = length chunks
    /\ total_embeddings stats
       = length (concat (map (br_vectors provider) (batches_of provider chunks w)))
    /\ total_tokens stats = list_sum (map br_tokens (batches_of provider chunks w))
    /\ cost_estimate stats = cost_of (total_tokens stats) provider
    /\ errors stats = concat (map br_errors (batches_of provider chunks w)).
Proof.
  intros Hcfg. pose proof (configuredProvider_gemini _ _ _ Hcfg) as Hname.
  unfold generateEmbeddings. rewrite Hcfg.
  unfold bind at 1. cbv beta iota delta [Date_now].
  set (w0 := set_clock_reads _ w).
  destruct (embed_loop self chunks provider providerKey
              (Num.strides 0 batchSize (length chunks)) Hname
              {| embeddings := []; errs := []; totalTokens := 0 |} w0)
    as (w1 & Hrun & Hadv).
  change (gemini w0) with (gemini w) in Hrun.
  change (gemini_calls w0) with (gemini_calls w) in Hrun.
  fold (batches_of provider chunks w) in Hrun.
  unfold bind at 1. rewrite Hrun.
  destruct (fold_after_batch provider (batches_of provider chunks w)
              {| embeddings := []; errs := []; totalTokens := 0 |}) as (He & Hr & Ht).
  cbv zeta in He, Hr, Ht. cbn [embeddings errs totalTokens app Nat.add] in He, Hr, Ht.
  cbv beta iota delta [bind Date_now ret].
  rewrite He, Hr, Ht.
  eexists _, (0 + _ + 0), _. split; [reflexivity|]. split.
  { eapply advanced_trans; [eapply advanced_trans|].
    - apply (Date_now_advanced w).
    - exact Hadv.
    - apply (Date_now_advanced w1). }
  cbn [total_chunks total_embeddings total_tokens cost_estimate errors].
  repeat split.
Qed.

(** *** What the script makes of one batch *)

Lemma batch_outcome_ok (script : nat -> jsstring -> jsstring -> GeminiReply)
  (model : jsstring) (batch : list ChunkData) :
  forall k vs used,
    batch_outcome script model k batch = (inr vs, used) ->
    Forall2 (fun c v => exists k', script k' model (content c) = Values v) batch vs.
Proof.
  induction batch as [|c rest IH]; intros k vs used H; cbn [batch_outcome] in H.
  - injection H as <- _. constructor.
  - destruct (check_reply (script k model (content c))) as [e|v] eqn:E; [discriminate H|].
    destruct (batch_outcome script model (S k) rest) as [[e|vs'] used'] eqn:E';
      [discriminate H|].
    injection H as <- _. constructor.
    + exists k. apply check_reply_values, E.
    + eapply IH, E'.
Qed.

Lemma batch_outcome_failed (script : nat -> jsstring -> jsstring -> GeminiReply)
  (model : jsstring) (batch : list ChunkData) :
  forall k e used,
    batch_outcome script model k batch = (inl e, used) ->
    exists j c,
      nth_error batch j = Some c
      /\ check_reply (script (k + j) model (content c)) = inl e
      /\ forall j' c', j' < j -> nth_error batch j' = Some c' ->
           exists v, script (k + j') model (content c') = Values v.
Proof.
  induction batch as [|c rest IH]; intros k e used H; cbn [batch_outcome] in H.
  - discriminate H.
  - destruct (check_reply (script k model (content c))) as [e0|v] eqn:E.
    + injection H as <- _. exists 0, c. rewrite Nat.add_0_r.
      repeat split; [exact E|]. intros j' c' Hlt. lia.
    + destruct (batch_outcome script model (S k) rest) as [[e'|vs'] used'] eqn:E';
        [|discriminate H].
      injection H as <- _.
      destruct (IH (S k) e' used' E') as (j & c0 & Hnth & Hfail & Hbefore).
      exists (S j), c0. replace (k + S j) with (S k + j) by lia.
      repeat split; [exact Hnth|exact Hfail|].
      intros [|j'] c' Hlt Hc'; cbn [nth_error] in Hc'.
      * injection Hc' as <-. exists v. rewrite Nat.add_0_r. apply check_reply_values, E.
      * replace (k + S j') with (S k + j') by lia. apply (Hbefore j' c'); [lia|exact Hc'].
Qed.

Lemma batches_rule (w : World) (provider : EmbeddingProvider) (chunks : list ChunkData)
  (starts : list nat) :
  forall k, Forall (batch_rule w provider chunks) (batches (gemini w) provider chunks k starts).
Proof.
  induction starts as [|i rest IH]; intros k; cbn [batches]; constructor; [|apply IH].
  unfold batch_rule, br_vectors, br_errors, br_tokens;
    cbn [br_batch br_start br_first_call br_outcome].
  split; [reflexivity|].
  destruct (batch_outcome (gemini w) (model provider) k (slice chunks i (i + batchSize)))
    as [[e|vs] used] eqn:E; cbn [fst].
  - split; [|repeat split]. eapply batch_outcome_failed, E.
  - split; [|repeat split]. eapply batch_outcome_ok, E.
Qed.

Lemma batches_starts (script : nat -> jsstring -> jsstring -> GeminiReply)
  (provider : EmbeddingProvider) (chunks : list ChunkData) (starts : list nat) :
  forall k, map br_start (batches script provider chunks k starts) = starts.
Proof.
  induction starts as [|i rest IH]; intros k; cbn [batches map br_start]; [reflexivity|].
  f_equal. apply IH.
Qed.

Lemma batches_chunks (script : nat -> jsstring -> jsstring -> GeminiReply)
  (provider : EmbeddingProvider) (chunks : list ChunkData) (starts : list nat) :
  forall k, map br_batch (batches script provider chunks k starts)
            = map (fun i => slice chunks i (i + batchSize)) starts.
Proof.
  induction starts as [|i rest IH]; intros k; cbn [batches map br_batch]; [reflexivity|].
  f_equal. apply IH.
Qed.

Lemma batch_rule_aligned (w : World) (provider : EmbeddingProvider)
  (chunks : list ChunkData) (r : BatchResult) :
  batch_rule w provider chunks r ->
  Forall2 (aligned w provider) (br_batch r) (br_vectors provider r).
Proof.
  intros [_ H]. destruct (br_outcome r) as [e|vs].
  - destruct H as (_ & -> & _).
    induction (br_batch r) as [|c rest IH]; cbn [length repeat]; constructor.
    + left. reflexivity.
    + exact IH.
  - destruct H as (H & -> & _).
    eapply Forall2_impl; [|exact H]. intros c v Hr. right. exact Hr.
Qed.

Lemma run_aligned (w : World) (provider : EmbeddingProvider) (chunks : list ChunkData) :
  Forall2 (aligned w provider) chunks
    (concat (map (br_vectors provider) (batches_of provider chunks w))).
Proof.
  rewrite <- (StrideFacts.slices_concat chunks 99) at 1.
  change (S 99) with batchSize.
  rewrite <- (batches_chunks (gemini w) provider chunks _ (gemini_calls w)).
  fold (batches_of provider chunks w).
  apply StrideFacts.Forall2_concat.
  pose proof (batches_rule w provider chunks (Num.strides 0 batchSize (length chunks))
                (gemini_calls w)) as Hall.
  fold (batches_of provider chunks w) in Hall.
  induction Hall as [|r rs Hr _ IH]; cbn [map]; constructor.
  - eapply batch_rule_aligned, Hr.
  - exact IH.
Qed.

(** *** Requests, positions and vectors *)

Lemma generateEmbeddings_requests (self : t) (chunks : list ChunkData)
  (providerKey : jsstring) (provider : EmbeddingProvider) (w : World) :
  configuredProvider self providerKey = inr provider ->
  gemini_calls (snd (generateEmbeddings self chunks providerKey w))
  = gemini_calls w + requests_of provider chunks w.
Proof.
  intros Hcfg. pose proof (configuredProvider_gemini _ _ _ Hcfg) as Hname.
  unfold generateEmbeddings. rewrite Hcfg.
  unfold bind at 1. cbv beta iota delta [Date_now].
  set (w0 := set_clock_reads _ w).
  destruct (embed_loop self chunks provider providerKey
              (Num.strides 0 batchSize (length chunks)) Hname
              {| embeddings := []; errs := []; totalTokens := 0 |} w0)
    as (w1 & Hrun & Hadv).
  unfold bind at 1. rewrite Hrun.
  cbv beta iota delta [bind Date_now ret]. cbn [snd].
  change (gemini_calls (set_clock_reads _ w1)) with (gemini_calls w1).
  rewrite (adv_calls _ _ _ Hadv). reflexivity.
Qed.

(** A batch that succeeds makes one request per chunk, in order: the item
    of rank [j] is answered by the request of ordinal [k + j]. *)
Lemma batch_outcome_ok_at (script : nat -> jsstring -> jsstring -> GeminiReply)
  (model : jsstring) (batch : list ChunkData) :
  forall k vs used,
    batch_outcome script model k batch = (inr vs, used) ->
    used = length batch
    /\ length vs = length batch
    /\ forall j c, nth_error batch j = Some c ->
         exists v, script (k + j) model (content c) = Values v /\ nth_error vs j = Some v.
Proof.
  induction batch as [|c rest IH]; intros k vs used H; cbn [batch_outcome] in H.
  - injection H as <- <-. repeat split. intros [|j] c H; discriminate H.
  - destruct (check_reply (script k model (content c))) as [e|v] eqn:E; [discriminate H|].
    destruct (batch_outcome script model (S k) rest) as [[e|vs'] used'] eqn:E';
      [discriminate H|].
    injection H as <- <-. destruct (IH _ _ _ E') as (Hu & Hl & Hat).
    cbn [length]. split; [congruence|]. split; [congruence|].
    intros [|j] c0 Hc; cbn [nth_error] in Hc |- *.
    + injection Hc as <-. exists v. rewrite Nat.add_0_r.
      split; [apply check_reply_values, E|reflexivity].
    + replace (k + S j) with (S k + j) by lia. apply Hat, Hc.
Qed.

Lemma length_slice {A} (l : list A) (a b : nat) :
  length (slice l a b) = Nat.min (b - a) (length l - a).
Proof. unfold slice. rewrite length_firstn, length_skipn. reflexivity. Qed.

Lemma nth_error_slice {A} (l : list A) (a b j : nat) :
  j < b - a -> nth_error (slice l a b) j = nth_error l (a + j).
Proof.
  intros Hj. unfold slice. rewrite nth_error_firstn, nth_error_skipn.
  destruct (Nat.ltb_spec j (b - a)); [reflexivity|lia].
Qed.

Lemma br_vectors_length (script : nat -> jsstring -> jsstring -> GeminiReply)
  (provider : EmbeddingProvider) (k i : nat) (batch : list ChunkData) :
  length (br_vectors provider
            {| br_start := i; br_batch := batch; br_first_call := k;
               br_outcome := fst (batch_outcome script (model provider) k batch) |})
  = length batch.
Proof.
  unfold br_vectors; cbn [br_outcome br_batch].
  destruct (batch_outcome script (model provider) k batch) as [[e|vs] used] eqn:E; cbn [fst].
  - apply repeat_length.
  - apply (batch_outcome_ok_at _ _ _ _ _ _ E).
Qed.

(** Every batch of a run holds the slice of the chunks at its start, and its
    outcome is what the script makes of it from its first request on. *)
Lemma batches_outcome (script : nat -> jsstring -> jsstring -> GeminiReply)
  (provider : EmbeddingProvider) (chunks : list ChunkData) (starts : list nat) :
  forall k r, In r (batches script provider chunks k starts) ->
    br_batch r = slice chunks (br_start r) (br_start r + batchSize)
    /\ exists used,
         batch_outcome script (model provider) (br_first_call r) (br_batch r)
         = (br_outcome r, used).
Proof.
  induction starts as [|i rest IH]; intros k r Hin; cbn [batches] in Hin.
  - destruct Hin.
  - destruct Hin as [<-|Hin]; [|eapply IH, Hin].
    cbn [br_batch br_start br_first_call br_outcome]. split; [reflexivity|].
    eexists. apply surjective_pairing.
Qed.

(** The chunk at position [i] lies in the batch that starts at the multiple
    of 100 below [i], at rank [i] minus that start, and the vector at
    position [i] of the run is the vector at that rank of what the batch
    gives.  When the batches before it all succeed, the first request of
    the batch has the ordinal of its start. *)
Lemma run_positions (script : nat -> jsstring -> jsstring -> GeminiReply)
  (provider : EmbeddingProvider) (chunks : list ChunkData) (i : nat) :
  i < length chunks ->
  forall start k, start <= i ->
    exists r j,
      In r (batches script provider chunks k (Num.strides start batchSize (length chunks)))
      /\ start <= br_start r
      /\ i = br_start r + j
      /\ j < batchSize
      /\ nth_error (concat (map (br_vectors provider)
                      (batches script provider chunks k
                         (Num.strides start batchSize (length chunks))))) (i - start)
         = nth_error (br_vectors provider r) j
      /\ (forallb br_ok (batches script provider chunks k
                           (Num.strides start batchSize (length chunks))) = true ->
          br_first_call r = k + (br_start r - start)).
Proof.
  intros Hi start. remember (length chunks - start) as d eqn:Hd.
  revert start Hd. induction d as [d IH] using lt_wf_ind. intros start Hd k Hle.
  rewrite StrideFacts.strides_unfold.
  destruct (lt_dec start (length chunks)) as [_|Hge]; [|lia].
  change (S (pred batchSize)) with batchSize.
  cbn [batches map concat forallb].
  set (batch := slice chunks start (start + batchSize)).
  set (r0 := {| br_start := start; br_batch := batch; br_first_call := k;
                br_outcome := fst (batch_outcome script (model provider) k batch) |}).
  assert (Hlen : length (br_vectors provider r0) = Nat.min batchSize (length chunks - start)).
  { unfold r0. rewrite br_vectors_length. unfold batch. rewrite length_slice.
    f_equal. lia. }
  destruct (lt_dec i (start + batchSize)) as [Hin|Hout].
  - exists r0, (i - start). cbn [br_start r0].
    split; [left; reflexivity|]. split; [apply Nat.le_refl|].
    split; [unfold r0; cbn [br_start]; lia|]. split; [lia|].
    split; [apply nth_error_app1; rewrite Hlen; lia|].
    intros _. unfold r0; cbn [br_first_call br_start]. lia.
  - destruct (IH (length chunks - (start + batchSize))) with
      (start := start + batchSize)
      (k := k + snd (batch_outcome script (model provider) k batch))
      as (r & j & Hr & Hstart & Hpos & Hj & Hnth & Hcall);
      [unfold batchSize in *; lia|reflexivity|lia|].
    exists r, j. split; [right; exact Hr|]. split; [lia|].
    split; [exact Hpos|]. split; [exact Hj|]. split.
    + rewrite nth_error_app2 by (rewrite Hlen; lia).
      rewrite Hlen, <- Hnth. f_equal. unfold batchSize in *. lia.
    + intros Hok. apply andb_prop in Hok. destruct Hok as [Hok0 Hok].
      rewrite (Hcall Hok).
      unfold br_ok, r0 in Hok0; cbn [br_outcome] in Hok0.
      destruct (batch_outcome script (model provider) k batch) as [[e|vs] used] eqn:E;
        cbn [fst snd] in *; [discriminate Hok0|].
      destruct (batch_outcome_ok_at _ _ _ _ _ _ E) as (-> & _).
      unfold batch. rewrite length_slice. unfold batchSize in *. lia.
Qed.

(** When every batch succeeds, one request is made per chunk. *)
Lemma requests_all_ok (script : nat -> jsstring -> jsstring -> GeminiReply)
  (provider : EmbeddingProvider) (chunks : list ChunkData) (starts : list nat) :
  forall k,
    forallb br_ok (batches script provider chunks k starts) = true ->
    requests script provider chunks k starts
    = length (concat (map (fun i => slice chunks i (i + batchSize)) starts)).
Proof.
  induction starts as [|i rest IH]; intros k Hok;
    cbn [batches forallb requests map concat] in *; [reflexivity|].
  apply andb_prop in Hok. destruct Hok as [Hok0 Hok].
  rewrite length_app, (IH _ Hok). f_equal.
  unfold br_ok in Hok0; cbn [br_outcome] in Hok0.
  destruct (batch_outcome script (model provider) k (slice chunks i (i + batchSize)))
    as [[e|vs] used] eqn:E; cbn [fst snd] in *; [discriminate Hok0|].
  apply (batch_outcome_ok_at _ _ _ _ _ _ E).
Qed.

(** *** Alignment *)

(** C1. With a configured provider [generateEmbeddings] returns, and its
    list of vectors has the length of the list of chunks.  Position by
    position: the chunk at position [i] is the item of rank [j] of the batch
    [r] that starts at [i - j], with [j] below 100.  When that batch
    succeeds, the vector at position [i] is the answer to the very request
    made for that chunk, the one of ordinal [br_first_call r + j], sent with
    its text.  When the batch fails, position [i] holds the placeholder, and
    a request of that batch was indeed answered with the error: a placeholder
    stands only where a failure occurred.  The run makes [requests_of]
    requests.  When no batch fails, that is one request per chunk, and the
    vector at position [i] is the answer to the request of ordinal [i] after
    those made before the run. *)
Theorem generateEmbeddings_aligned (self : t) (chunks : list ChunkData)
  (providerKey : jsstring) (provider : EmbeddingProvider) (w : World) :
  configuredProvider self providerKey = inr provider ->
  exists vectors stats w',
    generateEmbeddings self chunks providerKey w = (inr (vectors, stats), w')
    /\ length vectors = length chunks
    /\ gemini_calls w' = gemini_calls w + requests_of provider chunks w
    /\ (forall i c, nth_error chunks i = Some c ->
          exists r j,
            In r (batches_of provider chunks w)
            /\ i = br_start r + j /\ j < batchSize
            /\ nth_error (br_batch r) j = Some c
            /\ match br_outcome r with
               | inr _ =>
                   exists v,
                     gemini w (br_first_call r + j) (model provider) (content c) = Values v
                     /\ nth_error vectors i = Some v
               | inl e =>
                   nth_error vectors i = Some (placeholder provider)
                   /\ exists j' c',
                        nth_error (br_batch r) j' = Some c'
                        /\ check_reply (gemini w (br_first_call r + j') (model provider)
                                          (content c')) = inl e
               end)
    /\ (forallb br_ok (batches_of provider chunks w) = true ->
        gemini_calls w' = gemini_calls w + length chunks
        /\ forall i c, nth_error chunks i = Some c ->
             exists v,
               gemini w (gemini_calls w + i) (model provider) (content c) = Values v
               /\ nth_error vectors i = Some v).
Proof.
  intros Hcfg.
  destruct (generateEmbeddings_run self chunks providerKey provider w Hcfg)
    as (stats & used & w' & Hrun & _).
  pose proof (generateEmbeddings_requests self chunks providerKey provider w Hcfg) as Hcalls.
  rewrite Hrun in Hcalls. cbn [snd] in Hcalls.
  assert (Hat : forall i c, nth_error chunks i = Some c ->
            exists r j,
              In r (batches_of provider chunks w)
              /\ i = br_start r + j /\ j < batchSize
              /\ nth_error (br_batch r) j = Some c
              /\ nth_error (concat (map (br_vectors provider) (batches_of provider chunks w))) i
                 = nth_error (br_vectors provider r) j
              /\ (forallb br_ok (batches_of provider chunks w) = true ->
                  br_first_call r = gemini_calls w + br_start r)).
  { intros i c Hc.
    assert (Hi : i < length chunks) by (apply nth_error_Some; congruence).
    destruct (run_positions (gemini w) provider chunks i Hi 0 (gemini_calls w) (Nat.le_0_l i))
      as (r & j & Hr & _ & Hpos & Hj & Hnth & Hcall).
    rewrite Nat.sub_0_r in Hnth, Hcall.
    exists r, j. split; [exact Hr|]. split; [exact Hpos|]. split; [exact Hj|].
    split; [|split; [exact Hnth|exact Hcall]].
    destruct (batches_outcome _ _ _ _ _ _ Hr) as (-> & _).
    rewrite nth_error_slice by lia. rewrite <- Hpos. exact Hc. }
  assert (Hvec : forall r j c,
            In r (batches_of provider chunks w) -> nth_error (br_batch r) j = Some c ->
            match br_outcome r with
            | inr _ =>
                exists v,
                  gemini w (br_first_call r + j) (model provider) (content c) = Values v
                  /\ nth_error (br_vectors provider r) j = Some v
            | inl e =>
                nth_error (br_vectors provider r) j = Some (placeholder provider)
                /\ exists j' c',
                     nth_error (br_batch r) j' = Some c'
                     /\ check_reply (gemini w (br_first_call r + j') (model provider)
                                       (content c')) = inl e
            end).
  { intros r j c Hr Hc.
    destruct (batches_outcome _ _ _ _ _ _ Hr) as (_ & used0 & Hout).
    unfold br_vectors. destruct (br_outcome r) as [e|vs].
    - split.
      + apply nth_error_repeat. apply nth_error_Some. congruence.
      + destruct (batch_outcome_failed _ _ _ _ _ _ Hout) as (j' & c' & Hc' & Hfail & _).
        exists j', c'. split; assumption.
    - destruct (batch_outcome_ok_at _ _ _ _ _ _ Hout) as (_ & _ & Hok).
      apply Hok, Hc. }
  eexists _, stats, w'. split; [exact Hrun|].
  split; [symmetry; eapply Forall2_length, run_aligned|].
  split; [exact Hcalls|]. split.
  - intros i c Hc.
    destruct (Hat i c Hc) as (r & j & Hr & Hpos & Hj & Hrc & Hnth & _).
    exists r, j. split; [exact Hr|]. split; [exact Hpos|]. split; [exact Hj|].
    split; [exact Hrc|]. rewrite Hnth. apply Hvec; assumption.
  - intros Hok. split.
    + rewrite Hcalls. f_equal. unfold requests_of.
      rewrite (requests_all_ok _ _ _ _ _ Hok).
      change batchSize with (S 99). rewrite StrideFacts.slices_concat. reflexivity.
    + intros i c Hc.
      destruct (Hat i c Hc) as (r & j & Hr & Hpos & Hj & Hrc & Hnth & Hcall).
      pose proof (Hvec r j c Hr Hrc) as Hv.
      assert (Hokr : br_ok r = true).
      { rewrite forallb_forall in Hok. apply Hok, Hr. }
      unfold br_ok in Hokr. destruct (br_outcome r) as [e|vs]; [discriminate Hokr|].
      destruct Hv as (v & Hans & Hv). exists v. rewrite Hnth. split; [|exact Hv].
      rewrite <- Hans. f_equal. rewrite (Hcall Hok). lia.
Qed.

Lemma generateEmbeddings_aligned_witness :
  configuredProvider service (js "gemini-embedding-004") = inr gemini004
  /\ (exists vectors stats w',
        generateEmbeddings service many_chunks (js "gemini-embedding-004") (numbered 100)
        = (inr (vectors, stats), w')
        /\ length vectors = 101
        /\ nth_error vectors 0 = Some [0%float]
        /\ nth_error vectors 7 = Some [7%float]
        /\ nth_error vectors 99 = Some [99%float]
        /\ nth_error vectors 100 = Some zeros
        /\ gemini_calls w' = 101)
  /\ (exists vectors stats w',
        generateEmbeddings service many_chunks (js "gemini-embedding-004") (numbered 1)
        = (inr (vectors, stats), w')
        /\ length vectors = 101
        /\ nth_error vectors 0 = Some zeros
        /\ nth_error vectors 99 = Some zeros
        /\ nth_error vectors 100 = Some [2%float]
        /\ gemini_calls w' = 3).
Proof.
  split; [reflexivity|]. split.
  - destruct (generateEmbeddings_aligned service many_chunks (js "gemini-embedding-004")
                gemini004 (numbered 100) eq_refl)
      as (vectors & stats & w' & Hrun & Hlen & Hcalls & _).
    exists vectors, stats, w'. split; [exact Hrun|]. split; [exact Hlen|].
    assert (Hv : vectors
                 = match fst (generateEmbeddings service many_chunks
                                (js "gemini-embedding-004") (numbered 100)) with
                   | inr (v, _) => v
                   | inl _ => []
                   end) by (rewrite Hrun; reflexivity).
    rewrite Hv, Hcalls. repeat split; vm_compute; reflexivity.
  - destruct (generateEmbeddings_aligned service many_chunks (js "gemini-embedding-004")
                gemini004 (numbered 1) eq_refl)
      as (vectors & stats & w' & Hrun & Hlen & Hcalls & _).
    exists vectors, stats, w'. split; [exact Hrun|]. split; [exact Hlen|].
    assert (Hv : vectors
                 = match fst (generateEmbeddings service many_chunks
                                (js "gemini-embedding-004") (numbered 1)) with
                   | inr (v, _) => v
                   | inl _ => []
                   end) by (rewrite Hrun; reflexivity).
    rewrite Hv, Hcalls. repeat split; vm_compute; reflexivity.
Defined.

(** *** Failures are per batch *)

(** C2, as stated, fails.  Three chunks, one batch; the API answers the
    second request with status 500 and would answer every other with
    [ones].  The run returns three vectors and one error, but all three
    positions hold [zeros], the first included, and the third chunk is
    never requested (two requests were made). *)
Lemma one_failure_blanks_the_batch :
  exists stats w',
    generateEmbeddings service three_chunks (js "gemini-embedding-004") (scripted 1 99)
    = (inr ([zeros; zeros; zeros], stats), w')
    /\ gemini (scripted 1 99) 0 (model gemini004) (js "first chunk") = Values ones
    /\ gemini (scripted 1 99) 2 (model gemini004) (js "third chunk") = Values ones
    /\ PrimFloat.eqb (hd 0%float ones) (hd 0%float zeros) = false
    /\ length (errors stats) = 1
    /\ gemini_calls w' = 2.
Proof.
  do 2 eexists. split; [vm_compute; reflexivity|].
  repeat split; vm_compute; reflexivity.
Qed.

(** C2, amended.  Failures are handled batch by batch (100 chunks), not
    item by item.  The run is the concatenation of what its batches give;
    a batch none of whose items fails gives the vectors returned, in order,
    and no error; a batch with a failing item gives placeholders at all of
    its positions and the one message [Erreur batch <ordinal>: <error>] of
    its first failing item, the items after it being never requested. *)
Theorem generateEmbeddings_by_batch (self : t) (chunks : list ChunkData)
  (providerKey : jsstring) (provider : EmbeddingProvider) (w : World) :
  configuredProvider self providerKey = inr provider ->
  exists stats w',
    generateEmbeddings self chunks providerKey w
    = (inr (concat (map (br_vectors provider) (batches_of provider chunks w)), stats), w')
    /\ errors stats = concat (map br_errors (batches_of provider chunks w))
    /\ map br_start (batches_of provider chunks w) = Num.strides 0 batchSize (length chunks)
    /\ Forall (batch_rule w provider chunks) (batches_of provider chunks w).
Proof.
  intros Hcfg.
  destruct (generateEmbeddings_run self chunks providerKey provider w Hcfg)
    as (stats & used & w' & Hrun & _ & _ & _ & _ & _ & Herr).
  exists stats, w'. split; [exact Hrun|]. split; [exact Herr|]. split.
  - apply batches_starts.
  - apply batches_rule.
Qed.

Lemma generateEmbeddings_by_batch_witness :
  configuredProvider service (js "gemini-embedding-004") = inr gemini004
  /\ exists stats w',
       generateEmbeddings service three_chunks (js "gemini-embedding-004") (scripted 1 99)
       = (inr (concat (map (br_vectors gemini004)
                         (batches_of gemini004 three_chunks (scripted 1 99))), stats), w')
       /\ errors stats = concat (map br_errors (batches_of gemini004 three_chunks (scripted 1 99)))
       /\ map br_start (batches_of gemini004 three_chunks (scripted 1 99))
          = Num.strides 0 batchSize (length three_chunks)
       /\ Forall (batch_rule (scripted 1 99) gemini004 three_chunks)
            (batches_of gemini004 three_chunks (scripted 1 99)).
Proof.
  split; [reflexivity|].
  apply (generateEmbeddings_by_batch service three_chunks (js "gemini-embedding-004")
           gemini004 (scripted 1 99)).
  reflexivity.
Defined.

(** *** Cost *)

Lemma sum_tokens_from (batch : list ChunkData) :
  forall a, fold_left (fun sum chunk => sum + tokens (metadata chunk)) batch a
            = a + sum_tokens batch.
Proof.
  unfold sum_tokens. induction batch as [|c rest IH]; intros a; cbn [fold_left]; [lia|].
  rewrite (IH (a + _)), (IH (0 + _)). lia.
Qed.

Lemma sum_tokens_concat (parts : list (list ChunkData)) :
  sum_tokens (concat parts) = list_sum (map sum_tokens parts).
Proof.
  induction parts as [|p rest IH]; [reflexivity|].
  cbn [concat map]. unfold list_sum; cbn [fold_right]. fold (list_sum (map sum_tokens rest)).
  rewrite <- IH. unfold sum_tokens at 1. rewrite fold_left_app.
  rewrite sum_tokens_from. reflexivity.
Qed.

Lemma tokens_when_all_ok (results : list BatchResult) :
  forallb br_ok results = true ->
  list_sum (map br_tokens results) = list_sum (map sum_tokens (map br_batch results)).
Proof.
  induction results as [|r rest IH]; [reflexivity|].
  cbn [forallb map]. intros H. apply andb_prop in H as [Hr Hrest].
  unfold list_sum in *; cbn [fold_right]. rewrite (IH Hrest).
  unfold br_ok in Hr. unfold br_tokens. destruct (br_outcome r); [discriminate Hr|reflexivity].
Qed.

(** C4, as stated, fails.  In the run above (second request fails) the three
    chunks carry 9 estimated tokens, which the claim prices at a positive
    cost; the statistics report no token and a cost of zero. *)
Lemma failed_batch_costs_nothing :
  exists vectors stats w',
    generateEmbeddings service three_chunks (js "gemini-embedding-004") (scripted 1 99)
    = (inr (vectors, stats), w')
    /\ sum_tokens three_chunks = 9
    /\ PrimFloat.ltb 0 (cost_of (sum_tokens three_chunks) gemini004) = true
    /\ total_tokens stats = 0
    /\ cost_estimate stats = 0%float.
Proof.
  do 3 eexists. split; [vm_compute; reflexivity|].
  repeat split; vm_compute; reflexivity.
Qed.

(** C4, amended.  The cost estimate is [(total_tokens / 1000) *
    costPer1KTokens] where [total_tokens] adds the token estimates of the
    chunks of the batches that succeeded; the chunks of a failed batch are
    not counted.  When no batch fails this is the sum over all chunks. *)
Theorem generateEmbeddings_cost (self : t) (chunks : list ChunkData)
  (providerKey : jsstring) (provider : EmbeddingProvider) (w : World) :
  configuredProvider self providerKey = inr provider ->
  exists vectors stats w',
    generateEmbeddings self chunks providerKey w = (inr (vectors, stats), w')
    /\ total_tokens stats = list_sum (map br_tokens (batches_of provider chunks w))
    /\ cost_estimate stats = cost_of (total_tokens stats) provider
    /\ (forallb br_ok (batches_of provider chunks w) = true ->
        total_tokens stats = sum_tokens chunks).
Proof.
  intros Hcfg.
  destruct (generateEmbeddings_run self chunks providerKey provider w Hcfg)
    as (stats & used & w' & Hrun & _ & _ & _ & Htok & Hcost & _).
  eexists _, stats, w'. split; [exact Hrun|]. split; [exact Htok|]. split; [exact Hcost|].
  intros Hok. rewrite Htok, (tokens_when_all_ok _ Hok).
  unfold batches_of. rewrite batches_chunks, <- sum_tokens_concat.
  change batchSize with (S 99). rewrite StrideFacts.slices_concat. reflexivity.
Qed.

Lemma generateEmbeddings_cost_witness :
  configuredProvider service (js "gemini-embedding-004") = inr gemini004
  /\ exists vectors stats w',
       generateEmbeddings service three_chunks (js "gemini-embedding-004") (scripted 9 99)
       = (inr (vectors, stats), w')
       /\ total_tokens stats
          = list_sum (map br_tokens (batches_of gemini004 three_chunks (scripted 9 99)))
       /\ cost_estimate stats = cost_of (total_tokens stats) gemini004
       /\ (forallb br_ok (batches_of gemini004 three_chunks (scripted 9 99)) = true ->
           total_tokens stats = sum_tokens three_chunks).
Proof.
  split; [reflexivity|].
  apply (generateEmbeddings_cost service three_chunks (js "gemini-embedding-004")
           gemini004 (scripted 9 99)).
  reflexivity.
Defined.

End EmbeddingFacts.

(** ** indexDataset *)

Module IndexFacts.
Import EmbeddingService RAGService Run.

Lemma mapi_from_length {A B} (f : nat -> A -> B) (l : list A) :
  forall start, length (mapi_from start f l) = length l.
Proof.
  induction l as [|x rest IH]; intros start; cbn [mapi_from length]; [reflexivity|].
  f_equal. apply IH.
Qed.

Lemma embeddingRecords_length (gemId datasetId : jsstring) (chunks : list ChunkData)
  (vectors : list (list float)) :
  length (embeddingRecords gemId datasetId chunks vectors) = length chunks.
Proof. apply mapi_from_length. Qed.

Lemma insertStep_spec (records : list EmbeddingRecord) (st : nat * list jsstring)
  (i : nat) (w : World) :
  let r := (i, slice records i (i + insertBatchSize),
            insert_error w (insert_calls w) (slice records i (i + insertBatchSize))) in
  insertStep records st i w
  = (inr (fst st + length (ins_stored r), snd st ++ ins_errors r),
     set_store (S (insert_calls w)) (embeddings_table w ++ ins_stored r) w).
Proof.
  cbv zeta. unfold insertStep, bind, supabase_insert, ins_stored, ins_errors; cbn [fst snd].
  destruct (insert_error w (insert_calls w) (slice records i (i + insertBatchSize))).
  - cbn [ret length]. rewrite !app_nil_r, Nat.add_0_r. reflexivity.
  - cbn [ret]. rewrite app_nil_r. reflexivity.
Qed.

(** The insertion loop sends every batch; each batch answered without error
    is stored and counted, each batch answered with an error is recorded. *)
Lemma insert_loop (records : list EmbeddingRecord) (starts : list nat) :
  forall (st : nat * list jsstring) (w : World),
    let ins := inserts (insert_error w) records (insert_calls w) starts in
    exists w',
      forM starts st (insertStep records) w
      = (inr (fst st + length (concat (map ins_stored ins)),
              snd st ++ concat (map ins_errors ins)), w')
      /\ embeddings_table w' = embeddings_table w ++ concat (map ins_stored ins)
      /\ insert_calls w' = insert_calls w + length starts
      /\ insert_error w' = insert_error w.
Proof.
  induction starts as [|i rest IH]; intros st w; cbv zeta.
  - exists w. cbn [forM inserts map concat length]. rewrite !app_nil_r, !Nat.add_0_r.
    destruct st. repeat split.
  - cbn [forM inserts map concat]. unfold bind at 1.
    rewrite insertStep_spec. cbv zeta.
    set (r := (i, slice records i (i + insertBatchSize), _)).
    set (w1 := set_store _ _ w).
    destruct (IH (fst st + length (ins_stored r), snd st ++ ins_errors r) w1)
      as (w' & Hrun & Htab & Hcalls & Hscript).
    cbv zeta in Hrun, Htab.
    change (insert_error w1) with (insert_error w) in *.
    change (insert_calls w1) with (S (insert_calls w)) in *.
    change (embeddings_table w1) with (embeddings_table w ++ ins_stored r) in *.
    exists w'. rewrite Hrun. cbn [fst snd].
    rewrite length_app, <- !app_assoc, Nat.add_assoc.
    repeat split; try assumption.
    + rewrite Htab, <- app_assoc. reflexivity.
    + cbn [length]. lia.
Qed.

Lemma inserts_starts (script : nat -> list EmbeddingRecord -> option jsstring)
  (records : list EmbeddingRecord) (starts : list nat) :
  forall k, map (fun r => fst (fst r)) (inserts script records k starts) = starts.
Proof.
  induction starts as [|i rest IH]; intros k; cbn [inserts map fst]; [reflexivity|].
  f_equal. apply IH.
Qed.

Lemma inserts_stored_le (script : nat -> list EmbeddingRecord -> option jsstring)
  (records : list EmbeddingRecord) (starts : list nat) :
  forall k,
    length (concat (map ins_stored (inserts script records k starts)))
    <= length (concat (map (fun i => slice records i (i + insertBatchSize)) starts)).
Proof.
  induction starts as [|i rest IH]; intros k; cbn [inserts map concat]; [lia|].
  rewrite !length_app. specialize (IH (S k)).
  unfold ins_stored at 1; cbn [fst snd].
  destruct (script k _); cbn [length]; lia.
Qed.

(** C6. A run of [indexDataset] that produces at least one chunk, with a
    configured provider, returns statistics.  Every batch of 50 records is
    sent to the store, whatever the answers to the batches before it; the
    batches answered without error are the records added to the table, and
    [total_embeddings] counts exactly those (at most [total_chunks]); each
    batch answered with an error adds one message to [errors], after the
    messages of the embedding step. *)
Theorem indexDataset_counts parse stringify (self : RAGService.t)
  (gemId datasetId text fileName fileType : jsstring) (config : RAGConfig)
  (provider : EmbeddingProvider) (w : World) :
  configuredProvider (embeddingService self) (embeddingProvider config) = inr provider ->
  0 < length (ChunkingService.chunkContent parse stringify text fileType fileName
                (chunkingConfig config)) ->
  let chunks := ChunkingService.chunkContent parse stringify text fileType fileName
                  (chunkingConfig config) in
  let records := embeddingRecords gemId datasetId chunks
                   (concat (map (br_vectors provider) (batches_of provider chunks w))) in
  let ins := inserts (insert_error w) records (insert_calls w)
               (Num.strides 0 insertBatchSize (length records)) in
  exists stats w',
    indexDataset parse stringify self gemId datasetId text fileName fileType config w
    = (inr stats, w')
    /\ embeddings_table w' = embeddings_table w ++ concat (map ins_stored ins)
    /\ total_embeddings stats = length (concat (map ins_stored ins))
    /\ total_chunks stats = length chunks
    /\ total_embeddings stats <= total_chunks stats
    /\ insert_calls w' = insert_calls w + length ins
    /\ map (fun r => fst (fst r)) ins = Num.strides 0 insertBatchSize (length chunks)
    /\ errors stats
       = concat (map br_errors (batches_of provider chunks w)) ++ concat (map ins_errors ins).
Proof.
  intros Hcfg Hpos chunks records ins.
  unfold indexDataset. fold chunks.
  destruct (Nat.eqb_spec (length chunks) 0) as [E0|_]; [unfold chunks in E0; lia|].
  unfold bind at 1.
  destruct (EmbeddingFacts.generateEmbeddings_run (embeddingService self) chunks
              (embeddingProvider config) provider w Hcfg)
    as (stats & used & w1 & Hrun & Hadv & Htotal & _ & Htok & Hcost & Herr).
  rewrite Hrun. cbv iota beta.
  pose proof (Forall2_length (EmbeddingFacts.run_aligned w provider chunks)) as Hlen.
  rewrite <- Hlen, Nat.eqb_refl. cbn [negb].
  fold records. unfold bind at 1.
  destruct (insert_loop records (Num.strides 0 insertBatchSize (length records))
              (0, errors stats) w1) as (w' & Hloop & Htab & Hcalls & _).
  cbv zeta in Hloop, Htab.
  rewrite (adv_insert_error _ _ _ Hadv), (adv_insert_calls _ _ _ Hadv) in Hloop, Htab.
  rewrite (adv_table _ _ _ Hadv) in Htab. rewrite (adv_insert_calls _ _ _ Hadv) in Hcalls.
  fold ins in Hloop, Htab. rewrite Hloop.
  assert (Hrec : length records = length chunks) by apply embeddingRecords_length.
  eexists _, w'. split; [reflexivity|].
  cbn [total_embeddings total_chunks errors fst snd Nat.add].
  split; [exact Htab|]. split; [reflexivity|]. split; [exact Htotal|]. split.
  - rewrite Htotal, <- Hrec.
    etransitivity; [apply inserts_stored_le|].
    change insertBatchSize with (S 49). rewrite StrideFacts.slices_concat. lia.
  - split; [|split].
    + rewrite Hcalls. unfold ins.
      rewrite <- (length_map (fun r => fst (fst r)) (inserts _ _ _ _)), inserts_starts.
      reflexivity.
    + unfold ins. rewrite inserts_starts, Hrec. reflexivity.
    + rewrite Herr. reflexivity.
Qed.

Lemma indexDataset_counts_witness :
  configuredProvider (embeddingService rag) (embeddingProvider smallFloorConfig) = inr gemini004
  /\ 0 < length (ChunkingService.chunkContent (fun _ => None) (fun _ => []) (js "hello world")
                   (js "txt") (js "n.txt") (chunkingConfig smallFloorConfig))
  /\ exists stats w',
       indexDataset (fun _ => None) (fun _ => []) rag (js "g1") (js "d1") (js "hello world")
         (js "n.txt") (js "txt") smallFloorConfig (scripted 9 0)
       = (inr stats, w')
       /\ total_embeddings stats = 0
       /\ total_chunks stats = 1
       /\ length (errors stats) = 1
       /\ embeddings_table w' = [].
Proof.
  split; [reflexivity|]. split; [vm_compute; lia|].
  destruct (indexDataset_counts (fun _ => None) (fun _ => []) rag (js "g1") (js "d1")
              (js "hello world") (js "n.txt") (js "txt") smallFloorConfig gemini004
              (scripted 9 0))
    as (stats & w' & Hrun & Htab & Hcount & Hchunks & _ & _ & _ & Herr).
  - reflexivity.
  - vm_compute. lia.
  - exists stats, w'. split; [exact Hrun|].
    rewrite Hcount, Hchunks, Herr, Htab. repeat split.
Defined.

End IndexFacts.

(** ** searchForAI *)

Module SearchFacts.
Import EmbeddingService RAGService Run.

Lemma mapi_from_nth {A B} (f : nat -> A -> B) (l : list A) :
  forall start i x,
    nth_error l i = Some x -> nth_error (mapi_from start f l) i = Some (f (start + i) x).
Proof.
  induction l as [|y rest IH]; intros start [|i] x H; cbn [nth_error mapi_from] in *;
    try discriminate H.
  - injection H as <-. rewrite Nat.add_0_r. reflexivity.
  - rewrite (IH (S start) i x H). f_equal. f_equal. lia.
Qed.

Lemma mapi_nth {A B} (f : nat -> A -> B) (l : list A) (i : nat) (x : A) :
  nth_error l i = Some x -> nth_error (mapi f l) i = Some (f i x).
Proof. apply (mapi_from_nth f l 0). Qed.

Lemma mapi_length {A B} (f : nat -> A -> B) (l : list A) : length (mapi f l) = length l.
Proof. apply IndexFacts.mapi_from_length. Qed.

(** C7. When the search returns, [searchForAI] returns it together with
    - a context that joins with a blank line one block per match, in ranked
      order, the block of the match of rank [i] (from 0) being
      [[Source i+1] <content>];
    - a list of sources of the same length, whose entry [i] is
      [Source i+1: <sourceFile>], followed by [ (<section>)] when the match
      has a section;
    and with no match the context is the empty string and the list of
    sources is empty. *)
Theorem searchForAI_context (self : RAGService.t) (gemId query : jsstring)
  (config : RAGConfig) (w w1 : World) (found : RAGSearchResult) :
  searchSimilar self gemId query config (snd (Date_now w)) = (inr found, w1) ->
  exists out w' blocks,
    searchForAI self gemId query config w = (inr out, w')
    /\ searchResult out = found
    /\ context out = join (js "\n\n") blocks
    /\ length blocks = length (matches found)
    /\ (forall i m, nth_error (matches found) i = Some m ->
          nth_error blocks i
          = Some (js "[Source " ++ Js.of_nat (i + 1) ++ js "] " ++ sm_content m))
    /\ length (sources out) = length (matches found)
    /\ (forall i m, nth_error (matches found) i = Some m ->
          nth_error (sources out) i
          = Some (js "Source " ++ Js.of_nat (i + 1) ++ js ": " ++ sourceFileOf m
                  ++ (if truthy (sectionOf m) then js " (" ++ sectionOf m ++ js ")" else [])))
    /\ (matches found = [] -> context out = [] /\ sources out = []).
Proof.
  intros Hsearch.
  unfold searchForAI. unfold bind at 1. cbv beta iota delta [Date_now].
  change (set_clock_reads (S (clock_reads w)) w) with (snd (Date_now w)).
  unfold bind at 1. rewrite Hsearch.
  cbv beta iota delta [bind Date_now ret].
  eexists _, _, (mapi contextBlock (matches found)).
  split; [reflexivity|]. cbn [searchResult context sources].
  split; [reflexivity|]. split; [reflexivity|]. split; [apply mapi_length|].
  split; [intros i m Hm; apply (mapi_nth contextBlock), Hm|].
  split; [apply mapi_length|].
  split; [intros i m Hm; apply (mapi_nth sourceLine), Hm|].
  intros ->. split; reflexivity.
Qed.

Lemma searchForAI_context_witness :
  exists found w1,
    searchSimilar rag (js "g1") (js "what is alpha") smallFloorConfig
      (snd (Date_now (answering two_matches))) = (inr found, w1)
    /\ matches found = two_matches
    /\ exists out w',
         searchForAI rag (js "g1") (js "what is alpha") smallFloorConfig (answering two_matches)
         = (inr out, w')
         /\ context out = js "[Source 1] alpha\n\n[Source 2] beta"
         /\ sources out = [js "Source 1: a.txt (Lignes 1-5)"; js "Source 2: b.txt"].
Proof.
  do 2 eexists. split; [vm_compute; reflexivity|]. split; [reflexivity|].
  destruct (searchForAI_context rag (js "g1") (js "what is alpha") smallFloorConfig
              (answering two_matches) _ _ eq_refl)
    as (out & w' & blocks & Hrun & _).
  exists out, w'. split; [exact Hrun|].
  vm_compute in Hrun. injection Hrun as <- _. split; reflexivity.
Defined.

(** The scenario of the specification: no match. *)
Lemma searchForAI_no_match :
  exists out w',
    searchForAI rag (js "g1") (js "anything") smallFloorConfig (answering [])
    = (inr out, w')
    /\ context out = []
    /\ sources out = []
    /\ total_matches (searchResult out) = 0.
Proof.
  do 2 eexists. split; [vm_compute; reflexivity|]. repeat split.
Qed.

End SearchFacts.

(** ** White space *)

Module TrimFacts.

Lemma trimStart_head (s : jsstring) :
  trimStart s = [] \/ exists c r, trimStart s = c :: r /\ is_space c = false.
Proof.
  induction s as [|c s IH]; cbn [trimStart]; [left; reflexivity|].
  destruct (is_space c) eqn:E; [exact IH|].
  right. exists c, s. split; [reflexivity|exact E].
Qed.

Lemma trimStart_nonspace (c : N) (r : jsstring) :
  is_space c = false -> trimStart (c :: r) = c :: r.
Proof. intros E. cbn [trimStart]. rewrite E. reflexivity. Qed.

Lemma trimStart_snoc (s : jsstring) (c : N) :
  is_space c = false -> trimStart (s ++ [c]) = trimStart s ++ [c].
Proof.
  intros E. induction s as [|d s IH]; cbn [app trimStart].
  - rewrite E. reflexivity.
  - destruct (is_space d); [exact IH|reflexivity].
Qed.

(** A trimmed text is empty, or starts and ends with something else than
    white space. *)
Lemma trim_shape (s : jsstring) :
  trim s = []
  \/ exists c r, trim s = c :: r /\ is_space c = false
                 /\ exists r' d, trim s = r' ++ [d] /\ is_space d = false.
Proof.
  unfold trim, trimEnd.
  destruct (trimStart_head s) as [E|(c & r & E & Hc)]; rewrite E.
  - left. reflexivity.
  - right. cbn [rev]. rewrite (trimStart_snoc (rev r) c Hc), rev_app_distr. cbn [rev app].
    exists c, (rev (trimStart (rev r))). split; [reflexivity|]. split; [exact Hc|].
    destruct (trimStart_head (rev r)) as [E'|(d & r' & E' & Hd)]; rewrite E'.
    + exists [], c. split; [reflexivity|exact Hc].
    + exists (c :: rev r'), d. cbn [rev]. split; [reflexivity|exact Hd].
Qed.

Lemma trim_fixed (s : jsstring) (c d : N) (r r' : jsstring) :
  s = c :: r -> is_space c = false -> s = r' ++ [d] -> is_space d = false -> trim s = s.
Proof.
  intros Hs Hc Hs' Hd. unfold trim, trimEnd.
  rewrite Hs, (trimStart_nonspace c r Hc), <- Hs, Hs'.
  rewrite rev_app_distr. cbn [rev app]. rewrite (trimStart_nonspace d _ Hd).
  change (d :: rev r') with (rev [d] ++ rev r'). rewrite <- rev_app_distr, rev_involutive.
  reflexivity.
Qed.

(** Trimming twice is trimming once. *)
Lemma trim_idempotent (s : jsstring) : trim (trim s) = trim s.
Proof.
  destruct (trim_shape s) as [E|(c & r & E & Hc & r' & d & E' & Hd)].
  - rewrite E. reflexivity.
  - eapply trim_fixed; eassumption.
Qed.

(** A text that ends with something else than white space does not trim to
    the empty text. *)
Lemma trim_snoc_nonempty (s : jsstring) (c : N) :
  is_space c = false -> trim (s ++ [c]) <> [].
Proof.
  intros Hc. unfold trim, trimEnd. rewrite (trimStart_snoc s c Hc), rev_app_distr.
  cbn [rev app]. rewrite (trimStart_nonspace c _ Hc). cbn [rev].
  intros E. apply app_eq_nil in E as [_ E]. discriminate E.
Qed.

End TrimFacts.

(** ** The tabular strategy: rows and ranges *)

Module TabularFacts.
Import ChunkingService ChunkingTools.

(** A loop that only pushes: what a projection of the pushed objects that
    does not depend on the chunks before gives. *)
Lemma push_loop_map {A B} (mk : list ChunkData -> A -> ChunkData)
  (p : ChunkData -> B) (g : A -> B) (xs : list A) :
  (forall chunks x, p (mk chunks x) = g x) ->
  forall acc,
    map p (fold_left (fun chunks x => chunks ++ [mk chunks x]) xs acc)
    = map p acc ++ map g xs.
Proof.
  intros Hp. induction xs as [|x xs IH]; intros acc; cbn [fold_left map].
  - rewrite app_nil_r. reflexivity.
  - rewrite IH, map_app, <- app_assoc. cbn [map app]. rewrite Hp. reflexivity.
Qed.

(** The groups cut by a step [Math.max(x, m)] that is a number cover the
    list from the start of the loop on, in order. *)
Lemma groups_cover {A} (l : list A) (x : Num.integral) (m : Z) :
  (1 <= m)%Z -> Num.Math_max x m <> Num.NaN ->
  forall start, start <= length l ->
  concat (map (fun i => Num.slice_step l i (Num.Math_max x m))
            (Num.loop_indices start (Num.Math_max x m) (length l)))
  = skipn start l.
Proof.
  intros Hm Hnan start Hstart.
  assert (Hfin : forall z, (1 <= z)%Z ->
            concat (map (fun i => Num.slice_step l i (Num.Finite z))
                      (Num.loop_indices start (Num.Finite z) (length l))) = skipn start l).
  { intros z Hz. cbn [Num.loop_indices Num.slice_step].
    destruct (Z.to_nat z) as [|s] eqn:E; [lia|].
    apply StrideFacts.slices_cover, Hstart. }
  destruct x as [z| | |]; cbn [Num.Math_max] in *.
  - apply Hfin. lia.
  - cbn [Num.loop_indices Num.slice_step].
    destruct (Nat.ltb_spec start (length l)); cbn [map concat].
    + apply app_nil_r.
    + symmetry. apply skipn_all2. lia.
  - apply Hfin, Hm.
  - contradiction.
Qed.

(** The ranges a loop of step [Math.max(x, m)] labels its groups with follow
    one another up to the last index. *)
Lemma strides_tile (s n : nat) :
  forall i, i < n ->
  tiles i (map (fun i => (i, Nat.min (i + S s - 1) (n - 1))) (Num.strides i (S s) n)) (n - 1).
Proof.
  intros i. remember (n - i) as d eqn:Hd. revert i Hd.
  induction d as [d IH] using lt_wf_ind. intros i Hd Hi.
  rewrite StrideFacts.strides_unfold. destruct (lt_dec i n) as [_|Hge]; [|lia].
  cbn [map tiles pred]. split; [reflexivity|]. split; [lia|].
  destruct (le_lt_dec n (i + S s)) as [Hlast|Hmore].
  - rewrite StrideFacts.strides_unfold. destruct (lt_dec (i + S s) n); [lia|].
    cbn [map tiles]. lia.
  - replace (S (Nat.min (i + S s - 1) (n - 1))) with (i + S s) by lia.
    apply (IH (n - (i + S s))); lia.
Qed.

Lemma ranges_tile (x : Num.integral) (m : Z) (n : nat) :
  (1 <= m)%Z -> 1 <= n ->
  tiles 1 (map (fun i => (i, Num.min_end i (Num.Math_max x m) (n - 1)))
             (Num.loop_indices 1 (Num.Math_max x m) n)) (n - 1).
Proof.
  intros Hm Hn.
  assert (Hfin : forall z, (1 <= z)%Z ->
            tiles 1 (map (fun i => (i, Num.min_end i (Num.Finite z) (n - 1)))
                       (Num.loop_indices 1 (Num.Finite z) n)) (n - 1)).
  { intros z Hz. cbn [Num.loop_indices Num.min_end].
    destruct (Z.to_nat z) as [|s] eqn:E; [lia|].
    destruct (Nat.eq_dec n 1) as [->|Hne].
    - rewrite StrideFacts.strides_unfold. destruct (lt_dec 1 1); [lia|]. reflexivity.
    - apply strides_tile. lia. }
  assert (Hone : forall step, (forall z, step <> Num.Finite z) ->
            tiles 1 (map (fun i => (i, Num.min_end i step (n - 1)))
                       (Num.loop_indices 1 step n)) (n - 1)).
  { intros step Hstep.
    destruct step as [z| | |]; try (exfalso; apply (Hstep z); reflexivity);
      cbn [Num.loop_indices Num.min_end];
      (destruct (Nat.ltb_spec 1 n); cbn [map tiles]; [repeat split; lia|lia]). }
  destruct x as [z| | |]; cbn [Num.Math_max].
  - apply Hfin. lia.
  - apply Hone. discriminate.
  - apply Hfin, Hm.
  - apply Hone. discriminate.
Qed.

Lemma strides_bounds (step n : nat) :
  forall start i, In i (Num.strides start step n) -> start <= i < n.
Proof.
  intros start. remember (n - start) as d eqn:Hd. revert start Hd.
  induction d as [d IH] using lt_wf_ind. intros start Hd i.
  rewrite StrideFacts.strides_unfold. destruct (lt_dec start n) as [Hlt|_]; [|intros []].
  intros [<-|Hin]; [lia|].
  apply (IH (n - (start + S (pred step)))) in Hin; lia.
Qed.

Lemma loop_indices_bounds (step : Num.integral) (start n i : nat) :
  In i (Num.loop_indices start step n) -> start <= i < n.
Proof.
  destruct step; cbn [Num.loop_indices];
    try (destruct (Nat.ltb_spec start n); [intros [<-|[]]; lia|intros []]).
  apply strides_bounds.
Qed.

Lemma group_nonempty {A} (l : list A) (x : Num.integral) (m : Z) (i : nat) :
  (1 <= m)%Z -> Num.Math_max x m <> Num.NaN -> i < length l ->
  Num.slice_step l i (Num.Math_max x m) <> [].
Proof.
  intros Hm Hnan Hi.
  assert (Hskip : skipn i l <> []).
  { intros E. apply (f_equal (@length A)) in E. rewrite length_skipn in E. cbn in E. lia. }
  assert (Hfin : forall z, (1 <= z)%Z -> Num.slice_step l i (Num.Finite z) <> []).
  { intros z Hz. cbn [Num.slice_step]. unfold slice.
    replace (i + Z.to_nat z - i) with (S (pred (Z.to_nat z))) by lia.
    destruct (skipn i l); [contradiction|discriminate]. }
  destruct x as [z| | |]; cbn [Num.Math_max] in *.
  - apply Hfin. lia.
  - exact Hskip.
  - apply Hfin, Hm.
  - contradiction.
Qed.

(** The text handed to [chunkCSV] always has a first line. *)
Lemma split_nonempty (sep s : jsstring) : exists first rest, split sep s = first :: rest.
Proof.
  pose proof (DelimiterFacts.split_go_length sep s 0 []) as H. unfold split.
  destruct (split_go sep 0 [] s) as [|first rest]; [cbn in H; lia|eauto].
Qed.

(** Every data line goes to exactly one chunk.  When the step computed is a
    number, the chunks of the tabular strategy are the header line followed
    by consecutive, non-empty groups of the lines under it; the groups, put
    end to end, are those lines: none is lost, repeated or reordered. *)
Theorem chunkCSV_rows (csvContent fileName : jsstring) (config : ChunkingConfig)
  (headers : jsstring) (rows : list jsstring) :
  split (js "\n") csvContent = headers :: rows ->
  csvLinesPerChunk csvContent config <> Num.NaN ->
  exists groups,
    concat groups = rows
    /\ Forall (fun g => g <> []) groups
    /\ map content (chunkCSV csvContent fileName config)
       = map (fun g => headers ++ js "\n" ++ join (js "\n") g) groups.
Proof.
  intros Hsplit Hnan. unfold csvLinesPerChunk in Hnan. unfold chunkCSV.
  rewrite Hsplit in *.
  set (step := Num.Math_max _ 5) in *.
  exists (map (fun i => Num.slice_step (headers :: rows) i step)
            (Num.loop_indices 1 step (length (headers :: rows)))).
  split; [|split].
  - unfold step. rewrite groups_cover; [reflexivity|lia|exact Hnan|cbn [length]; lia].
  - apply Forall_forall. intros g Hg. apply in_map_iff in Hg as (i & <- & Hi).
    apply loop_indices_bounds in Hi. unfold step.
    apply group_nonempty; [lia|exact Hnan|lia].
  - rewrite (push_loop_map (csvChunk fileName headers (headers :: rows) step) content
               (fun i => headers ++ js "\n"
                         ++ join (js "\n") (Num.slice_step (headers :: rows) i step)));
      [|reflexivity].
    cbn [map app]. rewrite map_map. reflexivity.
Qed.

Lemma chunkCSV_rows_witness :
  exists groups,
    concat groups = [js "1,2"; js "3,4"; js "5,6"; js "7,8"; js "9,10"; js "11,12"; js "13,14"]
    /\ Forall (fun g => g <> []) groups
    /\ map content
         (chunkCSV (js "h,k\n1,2\n3,4\n5,6\n7,8\n9,10\n11,12\n13,14") (js "t.csv")
            {| chunkSize := 20; chunkOverlap := 0; respectSentences := true;
               respectParagraphs := true; minChunkSize := 100 |})
       = map (fun g => js "h,k" ++ js "\n" ++ join (js "\n") g) groups.
Proof.
  apply (chunkCSV_rows (js "h,k\n1,2\n3,4\n5,6\n7,8\n9,10\n11,12\n13,14") (js "t.csv")
           {| chunkSize := 20; chunkOverlap := 0; respectSentences := true;
              respectParagraphs := true; minChunkSize := 100 |}).
  - vm_compute. reflexivity.
  - vm_compute. discriminate.
Defined.

(** The row ranges of the chunks follow one another.  When the step computed
    is a number, the first chunk starts at line 1, each chunk starts at the
    line after the end of the chunk before it, and the last chunk ends at the
    last line: the ranges neither overlap nor leave a gap. *)
Theorem chunkCSV_ranges (csvContent fileName : jsstring) (config : ChunkingConfig) :
  csvLinesPerChunk csvContent config <> Num.NaN ->
  tiles 1 (map rowRange (chunkCSV csvContent fileName config))
    (length (split (js "\n") csvContent) - 1).
Proof.
  intros Hnan. unfold csvLinesPerChunk in Hnan. unfold chunkCSV.
  destruct (split_nonempty (js "\n") csvContent) as (headers & rows & Hsplit).
  rewrite Hsplit in *.
  set (step := Num.Math_max _ 5) in *.
  rewrite (push_loop_map (csvChunk fileName headers (headers :: rows) step) rowRange
             (fun i => (i, Num.min_end i step (length (headers :: rows) - 1))));
    [|reflexivity].
  cbn [map app]. unfold step. apply ranges_tile; [lia|cbn [length]; lia].
Qed.

Lemma chunkCSV_ranges_witness :
  tiles 1
    (map rowRange
       (chunkCSV (js "h,k\n1,2\n3,4\n5,6\n7,8\n9,10\n11,12\n13,14") (js "t.csv")
          {| chunkSize := 20; chunkOverlap := 0; respectSentences := true;
             respectParagraphs := true; minChunkSize := 100 |}))
    (length (split (js "\n") (js "h,k\n1,2\n3,4\n5,6\n7,8\n9,10\n11,12\n13,14")) - 1).
Proof.
  apply (chunkCSV_ranges (js "h,k\n1,2\n3,4\n5,6\n7,8\n9,10\n11,12\n13,14") (js "t.csv")
           {| chunkSize := 20; chunkOverlap := 0; respectSentences := true;
              respectParagraphs := true; minChunkSize := 100 |}).
  vm_compute. discriminate.
Defined.

Lemma chunkCSV_one_line (csvContent fileName : jsstring) (config : ChunkingConfig) :
  countLines csvContent = 1 -> chunkCSV csvContent fileName config = [].
Proof.
  unfold chunkCSV, countLines.
  destruct (split_nonempty (js "\n") csvContent) as (headers & rows & Hsplit).
  rewrite Hsplit. intros E. destruct rows as [|r rows]; [|cbn in E; lia]. cbn [length].
  generalize (Num.Math_max
    (Num.Math_floor
       (Num.of_Z (chunkSize config) / (Num.of_nat (length csvContent) / Num.of_nat 1))%float)
    5).
  intros step.
  assert (Hnone : Num.loop_indices 1 step 1 = []).
  { destruct step; cbn [Num.loop_indices Nat.ltb Nat.leb]; try reflexivity.
    all: rewrite StrideFacts.strides_unfold; destruct (lt_dec 1 1); [lia|reflexivity]. }
  rewrite Hnone. reflexivity.
Qed.

(** A text of one line gives no chunk, and only such a text.  The loop of
    [chunkCSV] starts under the header: the result is empty exactly when the
    text has no line feed, be it empty, blank or a header alone. *)
Theorem chunkCSV_empty_iff (csvContent fileName : jsstring) (config : ChunkingConfig) :
  chunkCSV csvContent fileName config = [] <-> countLines csvContent = 1.
Proof.
  unfold chunkCSV, countLines.
  destruct (split_nonempty (js "\n") csvContent) as (headers & rows & Hsplit).
  rewrite Hsplit. generalize (Num.Math_max
    (Num.Math_floor
       (Num.of_Z (chunkSize config)
        / (Num.of_nat (length csvContent) / Num.of_nat (length (headers :: rows))))%float) 5).
  intros step.
  assert (Hlen : forall (f : list ChunkData -> nat -> ChunkData) l acc,
             length (fold_left (fun chunks i => chunks ++ [f chunks i]) l acc)
             = length acc + length l).
  { intros f l. induction l as [|i l IH]; intros acc; cbn [fold_left length]; [lia|].
    rewrite IH, length_app. cbn [length]. lia. }
  split.
  - intros E. apply (f_equal (@length ChunkData)) in E. rewrite Hlen in E.
    cbn [length] in *. destruct rows as [|r rows]; [reflexivity|exfalso].
    cbn [length] in E.
    assert (Hfirst : exists rest,
               Num.loop_indices 1 step (S (S (length rows))) = 1 :: rest).
    { destruct step; cbn [Num.loop_indices Nat.ltb Nat.leb]; eauto.
      rewrite StrideFacts.strides_unfold. destruct (lt_dec 1 (S (S (length rows)))); [eauto|lia]. }
    destruct Hfirst as [rest Hrest]. rewrite Hrest in E. cbn in E. lia.
  - intros E. destruct rows as [|r rows]; [|cbn in E; lia]. cbn [length].
    assert (Hnone : Num.loop_indices 1 step 1 = []).
    { destruct step; cbn [Num.loop_indices Nat.ltb Nat.leb]; try reflexivity.
      all: rewrite StrideFacts.strides_unfold; destruct (lt_dec 1 1); [lia|reflexivity]. }
    rewrite Hnone. reflexivity.
Qed.

(** Every item of the array goes to exactly one chunk.  When the text parses
    to an array and the step computed is a number, each chunk is the rendering
    of a non-empty group of consecutive items, and the groups put end to end
    are the array. *)
Theorem chunkJSON_items (JSON_parse : jsstring -> option JsonValue)
  (JSON_stringify : JsonValue -> jsstring)
  (jsonContent fileName : jsstring) (config : ChunkingConfig) (data : list JsonValue) :
  JSON_parse jsonContent = Some (JArray data) ->
  jsonItemsPerChunk jsonContent data config <> Num.NaN ->
  exists groups,
    concat groups = data
    /\ Forall (fun g => g <> []) groups
    /\ map content (chunkJSON JSON_parse JSON_stringify jsonContent fileName config)
       = map (fun g => JSON_stringify (JArray g)) groups.
Proof.
  intros Hparse Hnan. unfold jsonItemsPerChunk in Hnan. unfold chunkJSON.
  rewrite Hparse. set (step := Num.Math_max _ 1) in *.
  exists (map (fun i => Num.slice_step data i step)
            (Num.loop_indices 0 step (length data))).
  split; [|split].
  - unfold step. rewrite groups_cover; [reflexivity|lia|exact Hnan|lia].
  - apply Forall_forall. intros g Hg. apply in_map_iff in Hg as (i & <- & Hi).
    apply loop_indices_bounds in Hi. unfold step.
    apply group_nonempty; [lia|exact Hnan|lia].
  - rewrite (push_loop_map (jsonChunk JSON_stringify fileName data step) content
               (fun i => JSON_stringify (JArray (Num.slice_step data i step))));
      [|reflexivity].
    cbn [map app]. rewrite map_map. reflexivity.
Qed.

Lemma chunkJSON_items_witness :
  exists groups,
    concat groups = [JNumber 1; JNumber 2; JNumber 3]
    /\ Forall (fun g => g <> []) groups
    /\ map content
         (chunkJSON (fun _ => Some (JArray [JNumber 1; JNumber 2; JNumber 3]))
            (fun v => match v with JArray l => Js.of_nat (length l) | _ => [] end)
            (js "[1,2,3]") (js "t.json")
            {| chunkSize := 5; chunkOverlap := 0; respectSentences := true;
               respectParagraphs := true; minChunkSize := 1 |})
       = map (fun g => (fun v => match v with JArray l => Js.of_nat (length l) | _ => [] end)
                         (JArray g)) groups.
Proof.
  apply (chunkJSON_items (fun _ => Some (JArray [JNumber 1; JNumber 2; JNumber 3]))
           (fun v => match v with JArray l => Js.of_nat (length l) | _ => [] end)
           (js "[1,2,3]") (js "t.json")
           {| chunkSize := 5; chunkOverlap := 0; respectSentences := true;
              respectParagraphs := true; minChunkSize := 1 |}).
  - reflexivity.
  - vm_compute. discriminate.
Defined.

End TabularFacts.

(** ** Free text: what [chunkText] and [getOverlap] return *)

Module TextFacts.
Import ChunkingService ChunkingTools TrimFacts.

Lemma split_blank_single_line (s cur : jsstring) :
  single_line s -> split_blank_go 0 cur s = [rev cur ++ s].
Proof.
  unfold single_line. revert cur. induction s as [|c s IH]; intros cur H.
  - cbn. rewrite app_nil_r. reflexivity.
  - inversion H as [|? ? Hc Hs]; subst. cbn [split_blank_go match_blank_line].
    destruct (N.eqb_spec c LF) as [->|_]; [contradiction|].
    rewrite (IH (c :: cur) Hs). cbn [rev]. rewrite <- app_assoc. reflexivity.
Qed.

(** The state of the loop of [chunkText] on a text that is one paragraph:
    no chunk closed, the trimmed text in the buffer. *)
Lemma textLoop_single_line (text fileName : jsstring) (config : ChunkingConfig) :
  single_line text ->
  textLoop text fileName config
  = {| chunks := []; currentChunk := trim text; chunkStart := 0 |}.
Proof.
  intros H. unfold textLoop, split_paragraphs.
  rewrite (split_blank_single_line text [] H). cbn [rev app fold_left].
  unfold textStep. destruct (trim text) as [|c r]; [reflexivity|].
  cbn [truthy negb currentChunk]. rewrite Bool.andb_false_r. reflexivity.
Qed.

(** [chunkSize] groups paragraphs, it never cuts one.  A text without a line
    feed is one paragraph: it comes back whole (trimmed) as the single chunk,
    however long it is against [chunkSize], or not at all when it is shorter
    than [minChunkSize]. *)
Theorem chunkText_single_paragraph (text fileName : jsstring) (config : ChunkingConfig) :
  single_line text ->
  map content (chunkText text fileName config)
  = if (Z.of_nat (length (trim text)) >=? minChunkSize config)%Z then [trim text] else [].
Proof.
  intros H. unfold chunkText. rewrite (textLoop_single_line text fileName config H).
  unfold textFlush. cbn [chunks currentChunk chunkStart app].
  rewrite trim_idempotent.
  destruct (Z.of_nat (length (trim text)) >=? minChunkSize config)%Z; [|reflexivity].
  cbn [map textChunk content]. rewrite trim_idempotent. reflexivity.
Qed.

Lemma chunkText_single_paragraph_witness :
  map content
    (chunkText (js "  one long line, far above the size asked for  ") (js "t.txt")
       {| chunkSize := 10; chunkOverlap := 3; respectSentences := true;
          respectParagraphs := true; minChunkSize := 5 |})
  = [js "one long line, far above the size asked for"].
Proof.
  apply (chunkText_single_paragraph (js "  one long line, far above the size asked for  ")
           (js "t.txt")
           {| chunkSize := 10; chunkOverlap := 3; respectSentences := true;
              respectParagraphs := true; minChunkSize := 5 |}).
  unfold single_line. vm_compute. repeat (constructor; [discriminate|]). constructor.
Defined.

Lemma textStep_clean (text fileName : jsstring) (config : ChunkingConfig)
  (st : TextState) (paragraph : jsstring) :
  ends_solid (currentChunk st) -> Forall clean (chunks st) ->
  ends_solid (currentChunk (textStep text fileName config st paragraph))
  /\ Forall clean (chunks (textStep text fileName config st paragraph)).
Proof.
  intros Hbuf Hch. unfold textStep.
  destruct (trim_shape paragraph) as [E|(c & r & E & Hc & r' & d & E' & Hd)].
  - rewrite E. cbn [truthy negb]. split; assumption.
  - assert (Ht : negb (truthy (trim paragraph)) = false) by (rewrite E; reflexivity).
    rewrite Ht. split.
    + right. rewrite E'. cbn [currentChunk].
      eexists _, d. split; [|exact Hd]. rewrite !app_assoc. reflexivity.
    + cbn [chunks].
      destruct ((Z.of_nat (length (currentChunk st) + length (trim paragraph))
                 >? chunkSize config)%Z && (0 <? length (currentChunk st))) eqn:Hclose;
        [|exact Hch].
      cbn [chunks].
      destruct (Z.of_nat (length (currentChunk st)) >=? minChunkSize config)%Z; [|exact Hch].
      apply Forall_app. split; [exact Hch|]. constructor; [|constructor].
      apply Bool.andb_true_iff in Hclose as [_ Hpos]. apply Nat.ltb_lt in Hpos.
      destruct Hbuf as [Hnil|(b & e & Hb & He)]; [rewrite Hnil in Hpos; cbn in Hpos; lia|].
      split; cbn [textChunk content].
      * rewrite Hb. apply trim_snoc_nonempty, He.
      * apply trim_idempotent.
Qed.

Lemma textLoop_clean (text fileName : jsstring) (config : ChunkingConfig)
  (l : list jsstring) :
  forall st, ends_solid (currentChunk st) -> Forall clean (chunks st) ->
  Forall clean (chunks (fold_left (textStep text fileName config) l st)).
Proof.
  induction l as [|p l IH]; intros st Hbuf Hch; cbn [fold_left]; [exact Hch|].
  destruct (textStep_clean text fileName config st p Hbuf Hch) as [Hbuf' Hch'].
  apply IH; assumption.
Qed.

(** No blank chunk, no white space around a chunk.  With a [minChunkSize] of
    at least 1, every chunk of a free text has a content that is not empty
    and that [trim] leaves as it is. *)
Theorem chunkText_contents_trimmed (text fileName : jsstring) (config : ChunkingConfig) :
  (1 <= minChunkSize config)%Z ->
  Forall (fun c => content c <> [] /\ trim (content c) = content c)
    (chunkText text fileName config).
Proof.
  intros Hmin. unfold chunkText. apply Forall_app. split.
  - apply textLoop_clean; [left; reflexivity|constructor].
  - unfold textFlush.
    destruct (Z.of_nat (length (trim (currentChunk (textLoop text fileName config))))
              >=? minChunkSize config)%Z eqn:E; [|constructor].
    constructor; [|constructor]. cbn [textChunk content]. split.
    + intros Hnil. rewrite Hnil in E. cbn in E. lia.
    + apply trim_idempotent.
Qed.

Lemma chunkText_contents_trimmed_witness :
  Forall (fun c => content c <> [] /\ trim (content c) = content c)
    (chunkText (js " first paragraph \n \n second one. \n\n\n third ") (js "t.txt")
       {| chunkSize := 20; chunkOverlap := 4; respectSentences := true;
          respectParagraphs := true; minChunkSize := 1 |}).
Proof.
  apply (chunkText_contents_trimmed (js " first paragraph \n \n second one. \n\n\n third ")
           (js "t.txt")
           {| chunkSize := 20; chunkOverlap := 4; respectSentences := true;
              respectParagraphs := true; minChunkSize := 1 |}).
  cbn. lia.
Defined.

(** The overlap is taken from the end of the chunk and is no longer than
    asked.  For a positive [overlapSize], [getOverlap] returns a suffix of
    its text of at most [overlapSize] units. *)
Theorem getOverlap_suffix (text : jsstring) (overlapSize : Z) :
  (0 < overlapSize)%Z ->
  (exists before, text = before ++ getOverlap text overlapSize)
  /\ (Z.of_nat (length (getOverlap text overlapSize)) <= overlapSize)%Z.
Proof.
  intros Hpos. unfold getOverlap.
  destruct (Z.geb_spec overlapSize (Z.of_nat (length text))) as [Hge|Hlt].
  - split; [exists []; reflexivity|lia].
  - unfold str_slice_from. destruct (Z.ltb_spec (- overlapSize) 0) as [_|Hneg]; [|lia].
    set (k := Z.to_nat (Z.max (Z.of_nat (length text) + - overlapSize) 0)).
    assert (Hk : length (skipn k text) = Z.to_nat overlapSize).
    { rewrite length_skipn. unfold k. lia. }
    destruct (search_sentence_end (skipn k text)) as [[|j]|].
    + split; [exists (firstn k text); symmetry; apply firstn_skipn|lia].
    + split.
      * exists (firstn k text ++ firstn (S j + 2) (skipn k text)).
        rewrite <- app_assoc, firstn_skipn, firstn_skipn. reflexivity.
      * rewrite length_skipn. lia.
    + split; [exists (firstn k text); symmetry; apply firstn_skipn|lia].
Qed.

Lemma getOverlap_suffix_witness :
  (exists before, js "One. Two. Three" = before ++ getOverlap (js "One. Two. Three") 12)
  /\ (Z.of_nat (length (getOverlap (js "One. Two. Three") 12)) <= 12)%Z.
Proof.
  apply (getOverlap_suffix (js "One. Two. Three") 12). lia.
Defined.

Lemma no_mark_search (s : jsstring) : no_sentence_mark s -> search_sentence_end s = None.
Proof.
  unfold no_sentence_mark. induction 1 as [|c s Hc Hs IH]; cbn [search_sentence_end].
  - reflexivity.
  - rewrite Hc, IH. reflexivity.
Qed.

Lemma getOverlap_zero (s : jsstring) : no_sentence_mark s -> getOverlap s 0 = s.
Proof.
  intros H. unfold getOverlap.
  destruct (0 >=? Z.of_nat (length s))%Z; [reflexivity|].
  change (str_slice_from s (- 0)) with s. rewrite (no_mark_search s H). reflexivity.
Qed.

Lemma trimStart_Forall (Q : N -> Prop) (s : jsstring) : Forall Q s -> Forall Q (trimStart s).
Proof.
  induction 1 as [|c s Hc Hs IH]; cbn [trimStart]; [constructor|].
  destruct (is_space c); [exact IH|constructor; assumption].
Qed.

Lemma trim_Forall (Q : N -> Prop) (s : jsstring) : Forall Q s -> Forall Q (trim s).
Proof.
  intros H. unfold trim, trimEnd.
  apply Forall_rev, trimStart_Forall, Forall_rev, trimStart_Forall, H.
Qed.

Lemma split_blank_Forall (Q : N -> Prop) (s : jsstring) :
  forall skip cur, Forall Q s -> Forall Q cur -> Forall (Forall Q) (split_blank_go skip cur s).
Proof.
  induction s as [|c s IH]; intros skip cur Hs Hcur; cbn [split_blank_go].
  - constructor; [apply Forall_rev, Hcur|constructor].
  - inversion Hs as [|? ? Hc Hs']; subst. destruct skip as [|k]; [|apply IH; assumption].
    destruct (match_blank_line (c :: s)).
    + constructor; [apply Forall_rev, Hcur|apply IH; [assumption|constructor]].
    + apply IH; [assumption|constructor; assumption].
Qed.

Lemma join_snoc (sep : jsstring) (l : list jsstring) (p : jsstring) :
  l <> [] -> join sep (l ++ [p]) = join sep l ++ sep ++ p.
Proof.
  induction l as [|a l IH]; intros Hl; [contradiction|].
  destruct l as [|b l]; [reflexivity|].
  change (join sep ((a :: b :: l) ++ [p])) with (a ++ sep ++ join sep ((b :: l) ++ [p])).
  rewrite IH by discriminate.
  change (join sep (a :: b :: l)) with (a ++ sep ++ join sep (b :: l)).
  rewrite <- !app_assoc. reflexivity.
Qed.

Lemma join_Forall (Q : N -> Prop) (sep : jsstring) (l : list jsstring) :
  Forall Q sep -> Forall (Forall Q) l -> Forall Q (join sep l).
Proof.
  intros Hsep. induction 1 as [|a l Ha Hl IH]; [constructor|].
  destruct l as [|b l]; [exact Ha|].
  change (join sep (a :: b :: l)) with (a ++ sep ++ join sep (b :: l)).
  apply Forall_app; split; [exact Ha|]. apply Forall_app; split; [exact Hsep|exact IH].
Qed.

(** The joined paragraphs start as the first and end as the last of them. *)
Lemma join_solid (sep : jsstring) (l : list jsstring) :
  l <> [] -> Forall solid l -> solid (join sep l).
Proof.
  intros Hl Hall. split.
  - destruct l as [|a l]; [contradiction|]. inversion Hall as [|? ? [(c & r & -> & Hc) _] _]; subst.
    destruct l as [|b l]; [exists c, r; split; [reflexivity|exact Hc]|].
    change (join sep ((c :: r) :: b :: l)) with ((c :: r) ++ sep ++ join sep (b :: l)).
    eexists c, _. split; [reflexivity|exact Hc].
  - destruct (exists_last Hl) as (l' & z & ->).
    apply Forall_app in Hall as [_ Hz]. inversion Hz as [|? ? [_ (r & d & -> & Hd)] _]; subst.
    destruct l' as [|a l']; [exists r, d; split; [reflexivity|exact Hd]|].
    rewrite join_snoc by discriminate.
    eexists _, d. split; [|exact Hd]. rewrite !app_assoc. reflexivity.
Qed.

Lemma trim_join (sep : jsstring) (l : list jsstring) :
  Forall solid l -> trim (join sep l) = join sep l.
Proof.
  intros Hall. destruct l as [|a l]; [reflexivity|].
  destruct (join_solid sep (a :: l)) as [(c & r & E & Hc) (r' & d & E' & Hd)];
    [discriminate|exact Hall|].
  eapply trim_fixed; eassumption.
Qed.

Lemma from_the_start_more (D X : list jsstring) (c : ChunkData) :
  from_the_start D c -> from_the_start (D ++ X) c.
Proof.
  intros [k Hk]. exists (Nat.min k (length D)). rewrite Hk, firstn_app.
  replace (Nat.min k (length D) - length D) with 0 by lia.
  cbn [firstn]. rewrite app_nil_r.
  destruct (Nat.le_ge_cases k (length D)) as [H|H].
  - rewrite Nat.min_l by exact H. reflexivity.
  - rewrite Nat.min_r by exact H. rewrite !firstn_all2 by lia. reflexivity.
Qed.

Lemma textLoop_zero_overlap (text fileName : jsstring) (config : ChunkingConfig) :
  chunkOverlap config = 0%Z ->
  forall (l : list jsstring) (done : list jsstring) (st : TextState),
    Forall no_sentence_mark l ->
    Forall solid done -> Forall no_sentence_mark done ->
    currentChunk st = join (js "\n\n") done ->
    Forall (from_the_start done) (chunks st) ->
    let st' := fold_left (textStep text fileName config) l st in
    let all := done ++ filter truthy (map trim l) in
    currentChunk st' = join (js "\n\n") all
    /\ Forall solid all
    /\ Forall (from_the_start all) (chunks st').
Proof.
  intros Hzero. induction l as [|p l IH]; intros done st Hl Hsolid Hmark Hbuf Hch.
  - cbn [fold_left map filter]. rewrite app_nil_r. auto.
  - inversion Hl as [|? ? Hp Hl']; subst. cbn [fold_left map filter].
    destruct (trim_shape p) as [E|(c & r & E & Hc & r' & d & E' & Hd)].
    + assert (Hstep : textStep text fileName config st p = st)
        by (unfold textStep; rewrite E; reflexivity).
      rewrite Hstep, E. cbn [truthy]. apply IH; assumption.
    + assert (Ht : truthy (trim p) = true) by (rewrite E; reflexivity).
      rewrite Ht.
      replace (done ++ trim p :: filter truthy (map trim l))
        with ((done ++ [trim p]) ++ filter truthy (map trim l))
        by (rewrite <- app_assoc; reflexivity).
      assert (Hbufmark : no_sentence_mark (currentChunk st)).
      { rewrite Hbuf. apply join_Forall; [|exact Hmark].
        repeat constructor. }
      apply IH; clear IH.
      * exact Hl'.
      * apply Forall_app. split; [exact Hsolid|]. constructor; [|constructor].
        split; [exists c, r|exists r', d]; auto.
      * apply Forall_app. split; [exact Hmark|]. constructor; [|constructor].
        apply trim_Forall, Hp.
      * unfold textStep. rewrite Ht. cbn [negb currentChunk].
        rewrite Hzero, (getOverlap_zero _ Hbufmark).
        assert (Hsame : currentChunk
                          (if (Z.of_nat (length (currentChunk st) + length (trim p))
                               >? chunkSize config)%Z && (0 <? length (currentChunk st))
                           then {| chunks :=
                                     if (Z.of_nat (length (currentChunk st))
                                         >=? minChunkSize config)%Z
                                     then chunks st
                                          ++ [textChunk text fileName (chunks st)
                                                (currentChunk st) (chunkStart st)]
                                     else chunks st;
                                   currentChunk := currentChunk st;
                                   chunkStart := chunkStart st
                                     + (length (currentChunk st) - length (currentChunk st)) |}
                           else st) = currentChunk st).
        { destruct (_ && _); reflexivity. }
        rewrite Hsame, Hbuf. destruct done as [|a done]; [reflexivity|].
        rewrite join_snoc by discriminate.
        destruct (join_solid (js "\n\n") (a :: done)) as [(c0 & r0 & E0 & _) _];
          [discriminate|exact Hsolid|].
        rewrite E0. cbn [truthy]. rewrite <- E0. reflexivity.
      * unfold textStep. rewrite Ht. cbn [negb chunks].
        destruct (_ && _); cbn [chunks];
          [|eapply Forall_impl; [|exact Hch]; intros x; apply from_the_start_more].
        destruct (_ >=? _)%Z;
          [|eapply Forall_impl; [|exact Hch]; intros x; apply from_the_start_more].
        apply Forall_app. split;
          [eapply Forall_impl; [|exact Hch]; intros x; apply from_the_start_more|].
        constructor; [|constructor]. apply from_the_start_more.
        exists (length done). cbn [textChunk content].
        rewrite Hbuf, firstn_all, trim_join by exact Hsolid. reflexivity.
Qed.

(** An overlap of 0 does not switch the overlap off.  [text.slice(-0)] is the
    whole text, so the buffer is never emptied: in a text without [.], [!]
    or [?], every chunk starts at the first paragraph again and holds all
    the paragraphs read up to its end. *)
Theorem chunkText_zero_overlap (text fileName : jsstring) (config : ChunkingConfig) :
  chunkOverlap config = 0%Z ->
  no_sentence_mark text ->
  Forall (from_the_start (keptParagraphs text)) (chunkText text fileName config).
Proof.
  intros Hzero Hmark.
  destruct (textLoop_zero_overlap text fileName config Hzero (split_paragraphs text) []
              {| chunks := []; currentChunk := []; chunkStart := 0 |})
    as (Hbuf & Hsolid & Hch); try solve [constructor | reflexivity].
  { apply split_blank_Forall; [exact Hmark|constructor]. }
  cbn [app] in Hbuf, Hsolid, Hch. fold (keptParagraphs text) in Hbuf, Hsolid, Hch.
  fold (textLoop text fileName config) in Hbuf, Hch.
  unfold chunkText. apply Forall_app. split; [exact Hch|].
  unfold textFlush. destruct (_ >=? _)%Z; [|constructor].
  constructor; [|constructor]. exists (length (keptParagraphs text)).
  cbn [textChunk content]. rewrite Hbuf, firstn_all, trim_join by exact Hsolid. reflexivity.
Qed.

Lemma chunkText_zero_overlap_witness :
  Forall (from_the_start (keptParagraphs (js "aaaa\n\nbbbb\n\ncccc")))
    (chunkText (js "aaaa\n\nbbbb\n\ncccc") (js "t.txt")
       {| chunkSize := 5; chunkOverlap := 0; respectSentences := true;
          respectParagraphs := true; minChunkSize := 1 |}).
Proof.
  apply (chunkText_zero_overlap (js "aaaa\n\nbbbb\n\ncccc") (js "t.txt")
           {| chunkSize := 5; chunkOverlap := 0; respectSentences := true;
              respectParagraphs := true; minChunkSize := 1 |}).
  - reflexivity.
  - unfold no_sentence_mark. vm_compute. repeat (constructor; [reflexivity|]). constructor.
Defined.

End TextFacts.

(** ** The embedding service: credentials, dimensions, validation *)

Module EmbeddingToolFacts.
Import EmbeddingService EmbeddingTools Run.
Local Open Scope js_scope.

Lemma configuredProvider_no_key (self : t) (providerKey : jsstring) :
  isConfigured self = false ->
  exists e, configuredProvider self providerKey = inl e
            /\ (providerKey = js "gemini-embedding-004" ->
                e = Error (js "Cl" ++ [233%N] ++ js " API Google Gemini non configur" ++ [233%N] ++ js "e")).
Proof.
  intros Hkey. unfold configuredProvider, isProviderConfigured.
  destruct (lookup_provider EMBEDDING_PROVIDERS providerKey) as [p|] eqn:Hp.
  - destruct (str_eqb (name p) (js "Google Gemini")) eqn:Hname.
    + rewrite Hkey. eexists. split; [reflexivity|]. intros ->.
      vm_compute in Hp. injection Hp as <-. reflexivity.
    + eexists. split; [reflexivity|]. intros ->.
      vm_compute in Hp. injection Hp as <-. discriminate Hname.
  - eexists. split; [reflexivity|]. intros ->. discriminate Hp.
Qed.

(** Without a key nothing is sent.  When the service holds no key (or an
    empty one), [generateEmbeddings] and [generateSingleEmbedding] fail at
    once, whatever the provider asked for, and leave the world as it was: no
    request is made.  For the registered provider the error is
    [Clé API Google Gemini non configurée]. *)
Theorem no_key_no_request (self : t) (chunks : list ChunkData) (text providerKey : jsstring)
  (w : World) :
  isConfigured self = false ->
  exists e,
    generateEmbeddings self chunks providerKey w = (inl e, w)
    /\ generateSingleEmbedding self text providerKey w = (inl e, w)
    /\ (providerKey = js "gemini-embedding-004" ->
        e = Error (js "Cl" ++ [233%N] ++ js " API Google Gemini non configur" ++ [233%N] ++ js "e")).
Proof.
  intros Hkey. destruct (configuredProvider_no_key self providerKey Hkey) as (e & He & Hmsg).
  exists e. unfold generateEmbeddings, generateSingleEmbedding. rewrite He.
  split; [reflexivity|]. split; [reflexivity|exact Hmsg].
Qed.

Lemma no_key_no_request_witness :
  exists e,
    generateEmbeddings {| geminiApiKey := Some [] |} three_chunks (js "gemini-embedding-004")
      (scripted 9 9) = (inl e, scripted 9 9)
    /\ generateSingleEmbedding {| geminiApiKey := Some [] |} (js "question")
         (js "gemini-embedding-004") (scripted 9 9) = (inl e, scripted 9 9)
    /\ (js "gemini-embedding-004" = js "gemini-embedding-004" ->
        e = Error (js "Cl" ++ [233%N] ++ js " API Google Gemini non configur" ++ [233%N] ++ js "e")).
Proof.
  apply (no_key_no_request {| geminiApiKey := Some [] |} three_chunks (js "question")
           (js "gemini-embedding-004") (scripted 9 9)).
  reflexivity.
Defined.

(** All vectors of a run have one dimension.  When the API answers with
    vectors of the dimension of the provider, every vector
    [generateEmbeddings] returns has that dimension, those standing for the
    chunks of a failed batch included. *)
Theorem generateEmbeddings_dimensions (self : t) (chunks : list ChunkData)
  (providerKey : jsstring) (provider : EmbeddingProvider) (w : World) :
  configuredProvider self providerKey = inr provider ->
  (forall k text v, gemini w k (model provider) text = Values v ->
                    length v = dimensions provider) ->
  exists vectors stats w',
    generateEmbeddings self chunks providerKey w = (inr (vectors, stats), w')
    /\ Forall (fun v => length v = dimensions provider) vectors.
Proof.
  intros Hcfg Hdim.
  destruct (EmbeddingFacts.generateEmbeddings_run self chunks providerKey provider w Hcfg)
    as (stats & used & w' & Hrun & _).
  eexists _, stats, w'. split; [exact Hrun|].
  generalize (EmbeddingFacts.run_aligned w provider chunks).
  generalize (concat (map (br_vectors provider) (batches_of provider chunks w))).
  intros vectors Hal. clear Hrun.
  induction Hal as [|c v cs vs Hv _ IH]; constructor; [|exact IH].
  destruct Hv as [->|(k & Hv)]; [apply repeat_length|].
  apply (Hdim k (content c) v Hv).
Qed.

Lemma generateEmbeddings_dimensions_witness :
  exists vectors stats w',
    generateEmbeddings service three_chunks (js "gemini-embedding-004") (scripted 1 99)
    = (inr (vectors, stats), w')
    /\ Forall (fun v => length v = dimensions gemini004) vectors.
Proof.
  apply (generateEmbeddings_dimensions service three_chunks (js "gemini-embedding-004")
           gemini004 (scripted 1 99)).
  - reflexivity.
  - intros k text v. cbn [scripted gemini]. destruct (k =? 1); [discriminate|].
    intros E. injection E as <-. reflexivity.
Defined.

Lemma fold_cosine_zero_left (v : list float) :
  forall s, normA s = 0%float ->
            normA (fold_left cosineStep (combine (repeat 0%float (length v)) v) s) = 0%float.
Proof.
  induction v as [|b v IH]; intros s Hs; cbn [length repeat combine fold_left]; [exact Hs|].
  apply IH. cbn [cosineStep normA]. rewrite Hs. reflexivity.
Qed.

Lemma fold_cosine_zero_right (v : list float) :
  forall s, normB s = 0%float ->
            normB (fold_left cosineStep (combine v (repeat 0%float (length v))) s) = 0%float.
Proof.
  induction v as [|b v IH]; intros s Hs; cbn [length repeat combine fold_left]; [exact Hs|].
  apply IH. cbn [cosineStep normB]. rewrite Hs. reflexivity.
Qed.

(** The vector of zeros is similar to nothing.  Against a vector of zeros of
    its own length, every vector has similarity 0, on either side: never
    [NaN], whatever the other vector holds. *)
Theorem cosineSimilarity_zero (v : list float) :
  cosineSimilarity (repeat 0%float (length v)) v = inr 0%float
  /\ cosineSimilarity v (repeat 0%float (length v)) = inr 0%float.
Proof.
  unfold cosineSimilarity. rewrite repeat_length, Nat.eqb_refl. cbn [negb]. split.
  - rewrite fold_cosine_zero_left by reflexivity. reflexivity.
  - rewrite fold_cosine_zero_right by reflexivity.
    change (PrimFloat.eqb (PrimFloat.sqrt 0) 0) with true.
    rewrite Bool.orb_true_r. reflexivity.
Qed.

Lemma fold_squares_zero (n : nat) :
  fold_left (fun sum val => (sum + val * val)%float) (repeat 0%float n) 0%float = 0%float.
Proof. induction n as [|n IH]; cbn [repeat fold_left]; [reflexivity|exact IH]. Qed.

(** [validateEmbedding] never accepts the vector that stands for a failed
    batch.  A vector of zeros, of any length and against any expected
    dimension, is reported invalid, with the message of the zero vector
    among its issues. *)
Theorem validateEmbedding_rejects_zeros (n expectedDimensions : nat) :
  isValid (validateEmbedding (repeat 0%float n) expectedDimensions) = false
  /\ In (js "L'embedding est un vecteur z" ++ [233%N] ++ js "ro")
       (issues (validateEmbedding (repeat 0%float n) expectedDimensions)).
Proof.
  unfold validateEmbedding. rewrite fold_squares_zero.
  change (PrimFloat.eqb (PrimFloat.sqrt 0) 0) with true. cbn [isValid issues].
  split.
  - rewrite length_app. cbn [length]. rewrite Nat.add_comm. reflexivity.
  - apply in_or_app. right. left. reflexivity.
Qed.

Lemma existsb_isNaN_false (v : list float) :
  existsb isNaN v = false -> Forall (fun x => PrimFloat.eqb x x = true) v.
Proof.
  induction v as [|x v IH]; cbn [existsb]; intros H; constructor.
  - apply Bool.orb_false_iff in H as [H _]. unfold isNaN in H.
    destruct (PrimFloat.eqb x x); [reflexivity|discriminate H].
  - apply IH. apply Bool.orb_false_iff in H as [_ H]. exact H.
Qed.

(** What a valid embedding is.  A vector [validateEmbedding] accepts has the
    expected dimension, no component that is [NaN], and a norm that is not
    zero. *)
Theorem validateEmbedding_valid (embedding : list float) (expectedDimensions : nat) :
  isValid (validateEmbedding embedding expectedDimensions) = true ->
  length embedding = expectedDimensions
  /\ Forall (fun x => PrimFloat.eqb x x = true) embedding
  /\ PrimFloat.eqb
       (PrimFloat.sqrt (fold_left (fun sum val => (sum + val * val)%float) embedding 0%float))
       0 = false.
Proof.
  unfold validateEmbedding. cbn [isValid].
  destruct (Nat.eqb_spec (length embedding) expectedDimensions) as [Hlen|Hlen];
    destruct (existsb isNaN embedding) eqn:Hnan;
    destruct (PrimFloat.eqb _ 0) eqn:Hnorm;
    cbn [negb app length Nat.eqb]; intros H; try discriminate H.
  split; [exact Hlen|]. split; [apply existsb_isNaN_false, Hnan|reflexivity].
Qed.

Lemma validateEmbedding_valid_witness :
  length [3%float; 4%float] = 2
  /\ Forall (fun x => PrimFloat.eqb x x = true) [3%float; 4%float]
  /\ PrimFloat.eqb
       (PrimFloat.sqrt (fold_left (fun sum val => (sum + val * val)%float)
                          [3%float; 4%float] 0%float)) 0 = false.
Proof.
  apply (validateEmbedding_valid [3%float; 4%float] 2). reflexivity.
Defined.

Lemma getItem_setItem (storage : Storage) (key value : jsstring) :
  str_eqb key key = true -> getItem (setItem storage key value) key = Some value.
Proof.
  intros Hkey. induction storage as [|[k v] rest IH]; cbn [setItem getItem].
  - rewrite Hkey. reflexivity.
  - destruct (str_eqb k key) eqn:E; cbn [getItem]; rewrite E; [reflexivity|exact IH].
Qed.

(** The key survives a reload.  After [setGeminiApiKey], the instance holds
    the key, and an instance constructed later from the same browser storage,
    with no key in the environment, holds it too; it counts as configured
    exactly when the key is not empty. *)
Theorem setGeminiApiKey_persists (self : t) (apiKey : jsstring) (localStorage : Storage)
  (VITE_GEMINI_API_KEY : option jsstring) :
  match VITE_GEMINI_API_KEY with Some k => truthy k | None => false end = false ->
  let (self', localStorage') := setGeminiApiKey self apiKey localStorage in
  getGeminiApiKey self' = Some apiKey
  /\ construct VITE_GEMINI_API_KEY localStorage' = self'
  /\ isConfigured (construct VITE_GEMINI_API_KEY localStorage') = truthy apiKey.
Proof.
  intros Henv. cbn [setGeminiApiKey]. split; [reflexivity|].
  assert (Hnew : construct VITE_GEMINI_API_KEY
                   (setItem localStorage (js "gemini_api_key") apiKey)
                 = {| geminiApiKey := Some apiKey |}).
  { unfold construct. rewrite (getItem_setItem localStorage _ apiKey) by reflexivity.
    destruct VITE_GEMINI_API_KEY as [k|]; [rewrite Henv|]; reflexivity. }
  rewrite Hnew. split; reflexivity.
Qed.

Lemma setGeminiApiKey_persists_witness :
  let (self', localStorage') :=
    setGeminiApiKey {| geminiApiKey := None |} (js "AIza-key")
      [(js "theme", js "dark"); (js "gemini_api_key", js "old")] in
  getGeminiApiKey self' = Some (js "AIza-key")
  /\ construct (Some []) localStorage' = self'
  /\ isConfigured (construct (Some []) localStorage') = truthy (js "AIza-key").
Proof.
  apply (setGeminiApiKey_persists {| geminiApiKey := None |} (js "AIza-key")
           [(js "theme", js "dark"); (js "gemini_api_key", js "old")] (Some [])).
  reflexivity.
Defined.

Lemma registered_provider :
  lookup_provider EMBEDDING_PROVIDERS (js "gemini-embedding-004") = Some gemini004.
Proof. reflexivity. Qed.

Lemma isProviderConfigured_key (self : t) :
  isConfigured self = true ->
  isProviderConfigured self (js "gemini-embedding-004") = inr true.
Proof.
  intros Hkey. unfold isProviderConfigured. rewrite registered_provider.
  replace (str_eqb (name gemini004) (js "Google Gemini")) with true by reflexivity.
  rewrite Hkey. reflexivity.
Qed.

Lemma configuredProvider_key (self : t) :
  isConfigured self = true ->
  configuredProvider self (js "gemini-embedding-004") = inr gemini004.
Proof.
  intros Hkey. unfold configuredProvider.
  rewrite (isProviderConfigured_key self Hkey), registered_provider. reflexivity.
Qed.

(** One request, and its answer as [check_reply] reads it. *)
Lemma generateSingleEmbedding_run (self : t) (text : jsstring) (w : World) :
  isConfigured self = true ->
  generateSingleEmbedding self text (js "gemini-embedding-004") w
  = (check_reply (gemini w (gemini_calls w) (js "text-embedding-004") text),
     set_gemini_calls (S (gemini_calls w)) w).
Proof.
  intros Hkey. unfold generateSingleEmbedding. rewrite (configuredProvider_key self Hkey).
  replace (str_eqb (name gemini004) (js "Google Gemini")) with true by reflexivity.
  unfold generateSingleGeminiEmbedding, embedOne, bind, fetch_embedContent.
  change (model gemini004) with (js "text-embedding-004").
  destruct (check_reply _); reflexivity.
Qed.

(** The connection test never throws.  Called without a provider, it always
    returns a result.  Without a key it makes no request and reports
    failure; with a key it makes exactly one request, for the text
    [Test de connexion], and reports success exactly when that request is
    answered with a vector, the message being that of the error otherwise. *)
Theorem testConnection_default (self : t) (w : World) :
  let reply := gemini w (gemini_calls w) (js "text-embedding-004") (js "Test de connexion") in
  exists r,
    testConnection self None w
    = (inr r, if isConfigured self then set_gemini_calls (S (gemini_calls w)) w else w)
    /\ success r = (isConfigured self
                    && match check_reply reply with inr _ => true | inl _ => false end)
    /\ (isConfigured self = true ->
        forall e, check_reply reply = inl e -> message r = err_message e).
Proof.
  cbv zeta. unfold testConnection.
  destruct (isConfigured self) eqn:Hkey.
  - rewrite (isProviderConfigured_key self Hkey), registered_provider.
    unfold try_catch, bind. rewrite (generateSingleEmbedding_run self _ w Hkey).
    destruct (check_reply (gemini w (gemini_calls w) (js "text-embedding-004")
                             (js "Test de connexion"))) as [e|v] eqn:Hreply.
    + eexists. split; [reflexivity|]. split; [reflexivity|].
      intros _ e' He'. injection He' as <-. reflexivity.
    + eexists. split; [reflexivity|]. split; [reflexivity|].
      intros _ e' He'. discriminate He'.
  - eexists. split; [reflexivity|]. split; [reflexivity|]. intros H. discriminate H.
Qed.

End EmbeddingToolFacts.

(** ** The store: indexing, reindexing, preview, statistics *)

Module StoreFacts.
Import EmbeddingService RAGService RAGTools Run.
Local Open Scope db_scope.

Lemma configuredProvider_lookup (self : EmbeddingService.t) (providerKey : jsstring)
  (provider : EmbeddingProvider) :
  configuredProvider self providerKey = inr provider ->
  lookup_provider EMBEDDING_PROVIDERS providerKey = Some provider.
Proof.
  unfold configuredProvider.
  destruct (lookup_provider EMBEDDING_PROVIDERS providerKey) as [p|]; [|discriminate].
  destruct (isProviderConfigured self providerKey) as [e|[|]]; try discriminate.
  intros H. injection H as <-. reflexivity.
Qed.

Lemma Forall_slice {A} (P : A -> Prop) (l : list A) (i j : nat) :
  Forall P l -> Forall P (slice l i j).
Proof.
  intros H. unfold slice.
  assert (Hskip : Forall P (skipn i l)).
  { clear j. revert i. induction H as [|x l Hx Hl IH]; intros [|i]; cbn [skipn];
      try constructor; auto. }
  generalize (j - i). revert Hskip. generalize (skipn i l). clear.
  intros l H. induction H as [|x l Hx Hl IH]; intros [|n]; cbn [firstn];
    constructor; auto.
Qed.

Lemma inserts_stored_Forall (P : EmbeddingRecord -> Prop)
  (script : nat -> list EmbeddingRecord -> option jsstring)
  (records : list EmbeddingRecord) (starts : list nat) :
  Forall P records ->
  forall k, Forall P (concat (map ins_stored (inserts script records k starts))).
Proof.
  intros Hall. induction starts as [|i rest IH]; intros k; cbn [inserts map concat].
  - constructor.
  - apply Forall_app. split; [|apply IH].
    unfold ins_stored; cbn [fst snd]. destruct (script k _); [constructor|].
    apply Forall_slice, Hall.
Qed.

Lemma mapi_from_Forall {A B} (P : B -> Prop) (f : nat -> A -> B) (l : list A) :
  (forall i x, P (f i x)) -> forall start, Forall P (mapi_from start f l).
Proof.
  intros Hf. induction l as [|x l IH]; intros start; cbn [mapi_from]; constructor.
  - apply Hf.
  - apply IH.
Qed.

(** The run of [indexDataset] when there are chunks and credentials. *)
Lemma indexDataset_run parse stringify (self : RAGService.t)
  (gemId datasetId text fileName fileType : jsstring) (config : RAGConfig)
  (provider : EmbeddingProvider) (w : World) :
  configuredProvider (embeddingService self) (embeddingProvider config) = inr provider ->
  let chunks := ChunkingService.chunkContent parse stringify text fileType fileName
                  (chunkingConfig config) in
  0 < length chunks ->
  exists stats w' added,
    indexDataset parse stringify self gemId datasetId text fileName fileType config w
    = (inr stats, w')
    /\ embeddings_table w' = embeddings_table w ++ added
    /\ Forall (fun r => gem_id r = gemId /\ dataset_id r = datasetId) added
    /\ total_embeddings stats = length added
    /\ total_chunks stats = length chunks
    /\ total_tokens stats = list_sum (map br_tokens (batches_of provider chunks w))
    /\ cost_estimate stats = cost_of (total_tokens stats) provider.
Proof.
  intros Hcfg chunks Hpos.
  unfold indexDataset. fold chunks.
  destruct (Nat.eqb_spec (length chunks) 0) as [E0|_]; [lia|].
  unfold bind at 1.
  destruct (EmbeddingFacts.generateEmbeddings_run (embeddingService self) chunks
              (embeddingProvider config) provider w Hcfg)
    as (stats & used & w1 & Hrun & Hadv & Htotal & _ & Htok & Hcost & Herr).
  rewrite Hrun. cbv iota beta.
  pose proof (Forall2_length (EmbeddingFacts.run_aligned w provider chunks)) as Hlen.
  rewrite <- Hlen, Nat.eqb_refl. cbn [negb].
  set (records := embeddingRecords gemId datasetId chunks _).
  unfold bind at 1.
  destruct (IndexFacts.insert_loop records (Num.strides 0 insertBatchSize (length records))
              (0, errors stats) w1) as (w' & Hloop & Htab & _).
  cbv zeta in Hloop, Htab. rewrite Hloop.
  rewrite (adv_table _ _ _ Hadv) in Htab.
  eexists _, w', _. split; [reflexivity|].
  cbn [total_embeddings total_chunks total_tokens cost_estimate fst snd Nat.add].
  split; [exact Htab|]. split.
  - apply inserts_stored_Forall. unfold records, embeddingRecords, mapi.
    apply mapi_from_Forall. intros i x. split; reflexivity.
  - split; [reflexivity|]. split; [exact Htotal|]. split; [exact Htok|exact Hcost].
Qed.

Lemma tokens_all_ok (provider : EmbeddingProvider) (chunks : list ChunkData) (w : World) :
  forallb br_ok (batches_of provider chunks w) = true ->
  list_sum (map br_tokens (batches_of provider chunks w)) = sum_tokens chunks.
Proof.
  intros Hok. rewrite (EmbeddingFacts.tokens_when_all_ok _ Hok).
  unfold batches_of. rewrite EmbeddingFacts.batches_chunks, <- EmbeddingFacts.sum_tokens_concat.
  change batchSize with (S 99). rewrite StrideFacts.slices_concat. reflexivity.
Qed.

(** The preview tells what the run will report.  With credentials and at
    least one chunk, when no batch of the embedding step fails, the run of
    [indexDataset] reports the number of chunks, the tokens and the cost that
    [previewIndexing] announced for the same content and configuration. *)
Theorem previewIndexing_matches_run parse stringify (self : RAGService.t)
  (gemId datasetId text fileName fileType : jsstring) (config : RAGConfig)
  (provider : EmbeddingProvider) (w : World) :
  configuredProvider (embeddingService self) (embeddingProvider config) = inr provider ->
  let chunks := ChunkingService.chunkContent parse stringify text fileType fileName
                  (chunkingConfig config) in
  0 < length chunks ->
  forallb br_ok (batches_of provider chunks w) = true ->
  exists preview stats w',
    previewIndexing parse stringify self text fileName fileType config = inr preview
    /\ indexDataset parse stringify self gemId datasetId text fileName fileType config w
       = (inr stats, w')
    /\ total_chunks stats = pv_total_chunks preview
    /\ total_tokens stats = estimated_tokens preview
    /\ cost_estimate stats = estimated_cost preview.
Proof.
  intros Hcfg chunks Hpos Hok.
  destruct (indexDataset_run parse stringify self gemId datasetId text fileName fileType
              config provider w Hcfg Hpos)
    as (stats & w' & added & Hrun & _ & _ & _ & Htotal & Htok & Hcost).
  unfold previewIndexing, estimateCost. fold chunks.
  rewrite (configuredProvider_lookup _ _ _ Hcfg).
  eexists _, stats, w'. split; [reflexivity|]. split; [exact Hrun|].
  cbn [pv_total_chunks estimated_tokens estimated_cost].
  fold chunks in Htok. rewrite (tokens_all_ok provider chunks w Hok) in Htok.
  split; [exact Htotal|]. split; [exact Htok|]. rewrite Hcost, Htok. reflexivity.
Qed.

Lemma previewIndexing_matches_run_witness :
  exists preview stats w',
    previewIndexing (fun _ => None) (fun _ => []) rag (js "hello world") (js "n.txt") (js "txt")
      smallFloorConfig = inr preview
    /\ indexDataset (fun _ => None) (fun _ => []) rag (js "g1") (js "d1") (js "hello world")
         (js "n.txt") (js "txt") smallFloorConfig (scripted 9 9)
       = (inr stats, w')
    /\ total_chunks stats = pv_total_chunks preview
    /\ total_tokens stats = estimated_tokens preview
    /\ cost_estimate stats = estimated_cost preview.
Proof.
  apply (previewIndexing_matches_run (fun _ => None) (fun _ => []) rag (js "g1") (js "d1")
           (js "hello world") (js "n.txt") (js "txt") smallFloorConfig gemini004 (scripted 9 9)).
  - reflexivity.
  - vm_compute. lia.
  - vm_compute. reflexivity.
Defined.

Lemma removeDatasetEmbeddings_deleted (self : RAGService.t) (datasetId : jsstring) (db : Db) :
  delete_reply db (delete_calls db) (js "dataset_id") datasetId = Deleted ->
  removeDatasetEmbeddings self datasetId db
  = (inr (length (filter (fun r => str_eqb (dataset_id r) datasetId)
                    (embeddings_table (world db)))),
     set_world
       (set_store (insert_calls (world db))
          (filter (fun r => negb (str_eqb (dataset_id r) datasetId))
             (embeddings_table (world db))) (world db))
       (set_delete_calls (S (delete_calls db)) db)).
Proof.
  intros Hdel. unfold removeDatasetEmbeddings, dbind, supabase_delete. rewrite Hdel.
  reflexivity.
Qed.

(** Reindexing replaces the rows of the dataset.  When the delete is
    answered without error and the indexing has chunks and credentials,
    [reindexDataset] returns; the table then holds the rows of the other
    datasets as they were, in order, followed by the rows stored by this
    run, all of them of this dataset and gem, and [total_embeddings] counts
    these. *)
Theorem reindexDataset_replaces parse stringify (self : RAGService.t)
  (gemId datasetId text fileName fileType : jsstring) (config : RAGConfig)
  (provider : EmbeddingProvider) (db : Db) :
  delete_reply db (delete_calls db) (js "dataset_id") datasetId = Deleted ->
  configuredProvider (embeddingService self) (embeddingProvider config) = inr provider ->
  0 < length (ChunkingService.chunkContent parse stringify text fileType fileName
                (chunkingConfig config)) ->
  exists stats db' added,
    reindexDataset parse stringify self gemId datasetId text fileName fileType config db
    = (inr stats, db')
    /\ embeddings_table (world db')
       = filter (fun r => negb (str_eqb (dataset_id r) datasetId))
           (embeddings_table (world db)) ++ added
    /\ Forall (fun r => gem_id r = gemId /\ dataset_id r = datasetId) added
    /\ total_embeddings stats = length added.
Proof.
  intros Hdel Hcfg Hpos.
  unfold reindexDataset, dbind. rewrite (removeDatasetEmbeddings_deleted self datasetId db Hdel).
  unfold lift. cbn [world set_world].
  set (w1 := set_store _ _ (world db)).
  destruct (indexDataset_run parse stringify self gemId datasetId text fileName fileType
              config provider w1 Hcfg Hpos)
    as (stats & w' & added & Hrun & Htab & Hadded & Hcount & _).
  rewrite Hrun. eexists stats, _, added. split; [reflexivity|].
  cbn [world set_world]. split; [exact Htab|]. split; [exact Hadded|exact Hcount].
Qed.

Lemma reindexDataset_replaces_witness :
  exists stats db' added,
    reindexDataset (fun _ => None) (fun _ => []) rag (js "g1") (js "d1") (js "hello world")
      (js "n.txt") (js "txt") smallFloorConfig stocked
    = (inr stats, db')
    /\ embeddings_table (world stocked)
       = [ stored (js "g1") (js "d1") (js "old text");
           stored (js "g1") (js "d2") (js "other data");
           stored (js "g1") (js "d1") (js "more old text") ]
    /\ embeddings_table (world db') = [stored (js "g1") (js "d2") (js "other data")] ++ added
    /\ Forall (fun r => gem_id r = js "g1" /\ dataset_id r = js "d1") added
    /\ total_embeddings stats = length added
    /\ length added = 1
    /\ map r_content added = [js "hello world"].
Proof.
  destruct (reindexDataset_replaces (fun _ => None) (fun _ => []) rag (js "g1") (js "d1")
              (js "hello world") (js "n.txt") (js "txt") smallFloorConfig gemini004 stocked)
    as (stats & db' & added & Hrun & Htab & Hall & Hcount);
    [reflexivity|reflexivity|vm_compute; lia|].
  exists stats, db', added.
  split; [exact Hrun|]. split; [reflexivity|]. split; [exact Htab|].
  split; [exact Hall|]. split; [exact Hcount|].
  assert (Hdb : embeddings_table (world db')
                = embeddings_table
                    (world (snd (reindexDataset (fun _ => None) (fun _ => []) rag (js "g1")
                                   (js "d1") (js "hello world") (js "n.txt") (js "txt")
                                   smallFloorConfig stocked))))
    by (rewrite Hrun; reflexivity).
  rewrite Htab in Hdb. vm_compute in Hdb. injection Hdb as ->.
  split; reflexivity.
Defined.

(** Reindexing is not atomic.  The rows of the dataset are deleted before
    anything is computed: when the delete is answered without error and the
    indexing then fails, because the content gives no chunk or because the
    service holds no key, [reindexDataset] fails and the table is left with
    the rows of the other datasets only. *)
Theorem reindexDataset_not_atomic parse stringify (self : RAGService.t)
  (gemId datasetId text fileName fileType : jsstring) (config : RAGConfig) (db : Db) :
  delete_reply db (delete_calls db) (js "dataset_id") datasetId = Deleted ->
  ChunkingService.chunkContent parse stringify text fileType fileName (chunkingConfig config)
  = []
  \/ isConfigured (embeddingService self) = false ->
  exists e db',
    reindexDataset parse stringify self gemId datasetId text fileName fileType config db
    = (inl e, db')
    /\ embeddings_table (world db')
       = filter (fun r => negb (str_eqb (dataset_id r) datasetId))
           (embeddings_table (world db)).
Proof.
  intros Hdel Hfail.
  unfold reindexDataset, dbind. rewrite (removeDatasetEmbeddings_deleted self datasetId db Hdel).
  unfold lift. cbn [world set_world].
  set (w1 := set_store _ _ (world db)).
  assert (Hrun : exists e,
             indexDataset parse stringify self gemId datasetId text fileName fileType config w1
             = (inl e, w1)).
  { unfold indexDataset.
    destruct (ChunkingService.chunkContent parse stringify text fileType fileName
                (chunkingConfig config)) as [|c cs] eqn:Hchunks.
    - eexists. reflexivity.
    - destruct Hfail as [Hnil|Hkey]; [discriminate Hnil|].
      destruct (EmbeddingToolFacts.configuredProvider_no_key (embeddingService self)
                  (embeddingProvider config) Hkey) as (e & He & _).
      exists e. cbn [length Nat.eqb]. unfold bind, generateEmbeddings. rewrite He. reflexivity. }
  destruct Hrun as [e Hrun]. rewrite Hrun. eexists e, _. split; reflexivity.
Qed.

Lemma reindexDataset_not_atomic_witness :
  exists e db',
    reindexDataset (fun _ => None) (fun _ => []) rag (js "g1") (js "d1") (js "name,age")
      (js "t.csv") (js "csv") smallFloorConfig stocked
    = (inl e, db')
    /\ embeddings_table (world stocked)
       = [ stored (js "g1") (js "d1") (js "old text");
           stored (js "g1") (js "d2") (js "other data");
           stored (js "g1") (js "d1") (js "more old text") ]
    /\ embeddings_table (world db') = [stored (js "g1") (js "d2") (js "other data")].
Proof.
  destruct (reindexDataset_not_atomic (fun _ => None) (fun _ => []) rag (js "g1") (js "d1")
              (js "name,age") (js "t.csv") (js "csv") smallFloorConfig stocked)
    as (e & db' & Hrun & Htab);
    [reflexivity|left; vm_compute; reflexivity|].
  exists e, db'. split; [exact Hrun|]. split; [reflexivity|exact Htab].
Defined.

(** [hasEmbeddings] never throws.  It makes one counting request and always
    returns a boolean: [true] exactly when the request is answered without
    error with a count of at least 1; an error answered, a rejection or a
    missing count give [false]. *)
Theorem hasEmbeddings_total (self : RAGService.t) (gemId : jsstring) (db : Db) :
  exists b,
    hasEmbeddings self gemId db = (inr b, set_select_calls (S (select_calls db)) db)
    /\ (b = true <->
        exists n, count_reply db (select_calls db) gemId = CountAnswer (Some (S n)) None).
Proof.
  unfold hasEmbeddings, dtry_catch, dbind, supabase_count.
  destruct (count_reply db (select_calls db) gemId) as [e|[[|n]|] [msg|]];
    cbn [fst snd dret]; eexists; (split; [reflexivity|]);
    split; try discriminate; try (intros [n' H]; discriminate H).
  - intros _. exists n. reflexivity.
  - intros _. reflexivity.
Qed.

Lemma str_eqb_refl (a : jsstring) : str_eqb a a = true.
Proof. induction a as [|x a IH]; cbn [str_eqb]; [reflexivity|]. rewrite N.eqb_refl. exact IH. Qed.

Lemma str_eqb_true (a : jsstring) : forall b, str_eqb a b = true -> a = b.
Proof.
  induction a as [|x a IH]; intros [|y b]; cbn [str_eqb]; intros H; try discriminate H.
  - reflexivity.
  - apply Bool.andb_true_iff in H as [Hx Hab]. apply N.eqb_eq in Hx.
    rewrite Hx, (IH b Hab). reflexivity.
Qed.

Lemma map_get_set (m : list (jsstring * DatasetEntry)) (k : jsstring) (v : DatasetEntry)
  (k' : jsstring) :
  map_get (map_set m k v) k' = if str_eqb k k' then Some v else map_get m k'.
Proof.
  induction m as [|[k0 v0] rest IH]; cbn [map_set map_get]; [reflexivity|].
  destruct (str_eqb k0 k) eqn:E0; cbn [map_get].
  - apply str_eqb_true in E0 as ->. destruct (str_eqb k k'); reflexivity.
  - rewrite IH. destruct (str_eqb k0 k') eqn:E1; [|reflexivity].
    destruct (str_eqb k k') eqn:E2; [|reflexivity].
    apply str_eqb_true in E1 as ->. apply str_eqb_true in E2 as ->.
    rewrite str_eqb_refl in E0. discriminate E0.
Qed.

Lemma map_set_keys (m : list (jsstring * DatasetEntry)) (k : jsstring) (v : DatasetEntry) :
  map fst (map_set m k v)
  = match map_get m k with Some _ => map fst m | None => map fst m ++ [k] end.
Proof.
  induction m as [|[k0 v0] rest IH]; cbn [map_set map_get map fst app]; [reflexivity|].
  destruct (str_eqb k0 k); cbn [map fst]; [reflexivity|].
  rewrite IH. destruct (map_get rest k); reflexivity.
Qed.

Lemma map_get_none (m : list (jsstring * DatasetEntry)) (k : jsstring) :
  map_get m k = None -> ~ In k (map fst m).
Proof.
  induction m as [|[k0 v0] rest IH]; cbn [map_get map fst In]; intros H; [tauto|].
  destruct (str_eqb k0 k) eqn:E; [discriminate H|].
  intros [->|Hin]; [rewrite str_eqb_refl in E; discriminate E|exact (IH H Hin)].
Qed.

Lemma map_get_some (m : list (jsstring * DatasetEntry)) (k : jsstring) (e : DatasetEntry) :
  map_get m k = Some e -> In (k, e) m.
Proof.
  induction m as [|[k0 v0] rest IH]; cbn [map_get In]; intros H; [discriminate H|].
  destruct (str_eqb k0 k) eqn:E.
  - apply str_eqb_true in E as ->. injection H as ->. left. reflexivity.
  - right. exact (IH H).
Qed.

Lemma map_get_in (m : list (jsstring * DatasetEntry)) (k : jsstring) (e : DatasetEntry) :
  NoDup (map fst m) -> In (k, e) m -> map_get m k = Some e.
Proof.
  induction m as [|[k0 v0] rest IH]; cbn [map fst In map_get]; intros Hnd Hin; [tauto|].
  inversion Hnd as [|? ? Hnot Hrest]; subst.
  destruct Hin as [E|Hin].
  - injection E as -> ->. rewrite str_eqb_refl. reflexivity.
  - destruct (str_eqb k0 k) eqn:E; [|exact (IH Hrest Hin)].
    apply str_eqb_true in E as ->. exfalso. apply Hnot.
    apply (in_map fst) in Hin. exact Hin.
Qed.

Lemma map_set_counts (m : list (jsstring * DatasetEntry)) (k : jsstring) (v : DatasetEntry) :
  list_sum (map (fun p => e_count (snd p)) (map_set m k v))
  + match map_get m k with Some e => e_count e | None => 0 end
  = list_sum (map (fun p => e_count (snd p)) m) + e_count v.
Proof.
  induction m as [|[k0 v0] rest IH]; cbn [map_set map_get map list_sum fold_right snd];
    [unfold list_sum; cbn; lia|].
  destruct (str_eqb k0 k); unfold list_sum in *; cbn [map fold_right snd]; lia.
Qed.

(** The state of the grouping after the rows [rows]. *)
Lemma statsStep_invariant (rows : list StatRow) :
  let st := fold_left statsStep rows ([], 0) in
  NoDup (map fst (fst st))
  /\ (forall k,
        match map_get (fst st) k with
        | Some e => e_count e = length (rowsOf k rows) /\ 1 <= e_count e
        | None => length (rowsOf k rows) = 0
        end)
  /\ list_sum (map (fun p => e_count (snd p)) (fst st)) = length rows
  /\ snd st = list_sum (map (fun r => length (sr_content r)) rows).
Proof.
  induction rows as [|row rows IH] using rev_ind; cbv zeta.
  - cbn. split; [constructor|]. split; [intros k; reflexivity|]. split; reflexivity.
  - rewrite fold_left_app. cbn [fold_left].
    cbv zeta in IH. destruct IH as (Hnd & Hget & Hsum & Htotal).
    set (st := fold_left statsStep rows ([], 0)) in *.
    unfold statsStep. cbn [fst snd].
    set (existing := match map_get (fst st) (sr_dataset_id row) with
                     | Some e => e
                     | None => {| e_count := 0; e_last_indexed := created_at row;
                                  e_content_size := 0 |}
                     end).
    set (updated := {| e_count := e_count existing + 1;
                       e_last_indexed := _; e_content_size := _ |}).
    assert (Hold : match map_get (fst st) (sr_dataset_id row) with
                   | Some e => e_count e
                   | None => 0
                   end = e_count existing).
    { unfold existing. destruct (map_get (fst st) (sr_dataset_id row)); reflexivity. }
    split; [|split; [|split]].
    + rewrite map_set_keys.
      destruct (map_get (fst st) (sr_dataset_id row)) eqn:E; [exact Hnd|].
      apply NoDup_app; [exact Hnd|repeat constructor; intros []|].
      intros k Hk [<-|[]]. exact (map_get_none _ _ E Hk).
    + intros k. rewrite map_get_set. unfold rowsOf. rewrite filter_app, length_app.
      cbn [filter]. specialize (Hget k). unfold rowsOf in Hget.
      destruct (str_eqb (sr_dataset_id row) k) eqn:E.
      * apply str_eqb_true in E as <-. cbn [length e_count updated].
        rewrite <- Hold.
        destruct (map_get (fst st) (sr_dataset_id row)); [destruct Hget|]; lia.
      * cbn [length]. rewrite Nat.add_0_r. exact Hget.
    + pose proof (map_set_counts (fst st) (sr_dataset_id row) updated) as H.
      rewrite Hold in H. cbn [e_count updated] in H. rewrite length_app. cbn [length]. lia.
    + rewrite map_app. cbn [map]. rewrite list_sum_app. unfold list_sum at 2.
      cbn [fold_right]. lia.
Qed.

(** The statistics group the rows by dataset.  When both requests are
    answered without error, [getGemStats] returns; no dataset is listed
    twice, every dataset of a row is listed, the count of a dataset is the
    number of rows of that dataset (at least 1), the counts add up to the
    number of rows, and [total_content_size] is the sum of the lengths of
    the contents. *)
Theorem getGemStats_groups (self : RAGService.t) (gemId : jsstring) (db : Db)
  (count : option nat) (rows : list StatRow) :
  count_reply db (select_calls db) gemId = CountAnswer count None ->
  rows_reply db (S (select_calls db)) gemId = RowsAnswer (Some rows) None ->
  exists st db',
    getGemStats self gemId db = (inr st, db')
    /\ NoDup (map ds_dataset_id (datasets st))
    /\ (forall row, In row rows -> In (sr_dataset_id row) (map ds_dataset_id (datasets st)))
    /\ (forall d, In d (datasets st) ->
          ds_count d = length (rowsOf (ds_dataset_id d) rows) /\ 1 <= ds_count d)
    /\ list_sum (map ds_count (datasets st)) = length rows
    /\ total_content_size st = list_sum (map (fun r => length (sr_content r)) rows).
Proof.
  intros Hcount Hrows.
  unfold getGemStats, dbind, supabase_count. rewrite Hcount. cbn [fst snd].
  unfold supabase_rows. cbn [rows_reply select_calls set_select_calls]. rewrite Hrows.
  cbn [fst snd dret]. eexists _, _. split; [reflexivity|].
  cbn [datasets total_content_size]. unfold groupRows. cbn [fst snd].
  destruct (statsStep_invariant rows) as (Hnd & Hget & Hsum & Htotal). cbv zeta in *.
  set (m := fst (fold_left statsStep rows ([], 0))) in *.
  assert (Hkeys : map ds_dataset_id
                    (map (fun entry => {| ds_dataset_id := fst entry;
                                          ds_count := e_count (snd entry);
                                          last_indexed := e_last_indexed (snd entry) |}) m)
                  = map fst m) by (rewrite map_map; reflexivity).
  split; [rewrite Hkeys; exact Hnd|]. split; [|split; [|split]].
  - intros row Hin. rewrite Hkeys. specialize (Hget (sr_dataset_id row)).
    destruct (map_get m (sr_dataset_id row)) as [e|] eqn:E.
    + apply map_get_some in E. apply (in_map fst) in E. exact E.
    + exfalso. unfold rowsOf in Hget.
      assert (Hrow : In row (filter (fun r => str_eqb (sr_dataset_id r) (sr_dataset_id row))
                               rows)).
      { apply filter_In. split; [exact Hin|apply str_eqb_refl]. }
      destruct (filter _ rows); [exact Hrow|discriminate Hget].
  - intros d Hd. apply in_map_iff in Hd as ([k e] & <- & Hin). cbn [ds_dataset_id ds_count fst snd].
    specialize (Hget k). rewrite (map_get_in m k e Hnd Hin) in Hget. exact Hget.
  - rewrite map_map. exact Hsum.
  - exact Htotal.
Qed.

Lemma getGemStats_groups_witness :
  exists st db',
    getGemStats rag (js "g1")
      {| world := scripted 9 9; delete_reply := fun _ _ _ => Deleted; delete_calls := 0;
         count_reply := fun _ _ => CountAnswer (Some 3) None;
         rows_reply := fun _ _ => RowsAnswer (Some three_rows) None; select_calls := 0 |}
    = (inr st, db')
    /\ NoDup (map ds_dataset_id (datasets st))
    /\ (forall row, In row three_rows ->
          In (sr_dataset_id row) (map ds_dataset_id (datasets st)))
    /\ (forall d, In d (datasets st) ->
          ds_count d = length (rowsOf (ds_dataset_id d) three_rows) /\ 1 <= ds_count d)
    /\ list_sum (map ds_count (datasets st)) = length three_rows
    /\ total_content_size st = list_sum (map (fun r => length (sr_content r)) three_rows).
Proof.
  apply (getGemStats_groups rag (js "g1")
           {| world := scripted 9 9; delete_reply := fun _ _ _ => Deleted; delete_calls := 0;
              count_reply := fun _ _ => CountAnswer (Some 3) None;
              rows_reply := fun _ _ => RowsAnswer (Some three_rows) None; select_calls := 0 |}
           (Some 3) three_rows); reflexivity.
Defined.

End StoreFacts.

(** ** Search and the request sent to the model *)

Module SearchToolFacts.
Import EmbeddingService RAGService RAGTools Run.

(** The search returns what the store answers.  With a key and the
    registered provider, [searchSimilar] makes one embedding request for the
    query.  If that request fails, its error is thrown and the store is not
    asked.  Otherwise the store is asked once, with the vector of the query,
    the gem, the threshold and the maximum of the configuration; an error
    answered is thrown as [Erreur recherche: <message>]; the matches
    answered are returned as they are, in order, and [total_matches] is
    their number. *)
Theorem searchSimilar_outcomes (self : RAGService.t) (gemId query : jsstring)
  (config : RAGConfig) (w : World) :
  isConfigured (embeddingService self) = true ->
  embeddingProvider config = js "gemini-embedding-004" ->
  exists w',
    match check_reply (gemini w (gemini_calls w) (js "text-embedding-004") query) with
    | inl e =>
        searchSimilar self gemId query config w = (inl e, w')
        /\ rpc_calls w' = rpc_calls w
    | inr v =>
        let answer := match_embeddings w (rpc_calls w) v gemId (similarityThreshold config)
                        (maxMatches config) in
        rpc_calls w' = S (rpc_calls w)
        /\ match rpc_error answer with
           | Some message =>
               searchSimilar self gemId query config w
               = (inl (Error (js "Erreur recherche: " ++ message)), w')
           | None =>
               searchSimilar self gemId query config w
               = (inr {| matches := match rpc_data answer with Some ms => ms | None => [] end;
                         query := query;
                         threshold := similarityThreshold config;
                         total_matches :=
                           length (match rpc_data answer with Some ms => ms | None => [] end) |},
                  w')
           end
    end.
Proof.
  intros Hkey Hprov.
  assert (Hrun : searchSimilar self gemId query config w
                 = match check_reply (gemini w (gemini_calls w) (js "text-embedding-004") query)
                   with
                   | inl e => (inl e, set_gemini_calls (S (gemini_calls w))
                                        (set_clock_reads (S (clock_reads w)) w))
                   | inr v =>
                       (reply <- supabase_rpc_match v gemId (similarityThreshold config)
                                   (maxMatches config) ;;
                        match rpc_error reply with
                        | Some msg => throw (Error (js "Erreur recherche: " ++ msg))
                        | None =>
                            let similarityMatches :=
                              match rpc_data reply with Some ms => ms | None => [] end in
                            now <- Date_now ;;
                            ret {| matches := similarityMatches;
                                   query := query;
                                   threshold := similarityThreshold config;
                                   total_matches := length similarityMatches |}
                        end)%js
                         (set_gemini_calls (S (gemini_calls w))
                            (set_clock_reads (S (clock_reads w)) w))
                   end).
  { unfold searchSimilar. rewrite Hprov.
    unfold bind at 1. cbv beta iota delta [Date_now]. unfold bind at 1.
    rewrite (EmbeddingToolFacts.generateSingleEmbedding_run (embeddingService self) query _
               Hkey).
    cbn [gemini gemini_calls set_clock_reads].
    destruct (check_reply _); reflexivity. }
  rewrite Hrun. clear Hrun.
  destruct (check_reply (gemini w (gemini_calls w) (js "text-embedding-004") query))
    as [e|v].
  - eexists. split; reflexivity.
  - cbv beta iota zeta delta [bind supabase_rpc_match Date_now ret throw].
    change (match_embeddings (set_gemini_calls (S (gemini_calls w))
                                (set_clock_reads (S (clock_reads w)) w)))
      with (match_embeddings w).
    change (rpc_calls (set_gemini_calls (S (gemini_calls w))
                         (set_clock_reads (S (clock_reads w)) w)))
      with (rpc_calls w).
    destruct (rpc_error (match_embeddings w (rpc_calls w) v gemId (similarityThreshold config)
                           (maxMatches config))) as [message|].
    + eexists. split; [|reflexivity]. reflexivity.
    + eexists. split; [|reflexivity]. reflexivity.
Qed.

Lemma searchSimilar_outcomes_witness :
  exists w',
    searchSimilar rag (js "g1") (js "what is alpha") smallFloorConfig (answering two_matches)
    = (inr {| matches := two_matches; query := js "what is alpha";
              threshold := 0.7%float; total_matches := 2 |}, w')
    /\ rpc_calls w' = 1.
Proof.
  destruct (searchSimilar_outcomes rag (js "g1") (js "what is alpha") smallFloorConfig
              (answering two_matches) eq_refl eq_refl) as [w' H].
  exists w'. cbn in H. destruct H as [Hcalls Hrun]. split; [exact Hrun|exact Hcalls].
Defined.

(** The context [searchForAI] returns is built from the matches it returns. *)
Lemma searchForAI_shape (self : RAGService.t) (gemId query : jsstring) (config : RAGConfig)
  (w w' : World) (out : AIContext) :
  searchForAI self gemId query config w = (inr out, w') ->
  context out = join (js "\n\n") (mapi contextBlock (matches (searchResult out))).
Proof.
  unfold searchForAI. unfold bind at 1. cbv beta iota delta [Date_now]. unfold bind at 1.
  destruct (searchSimilar self gemId query config _) as [[e|found] w1]; [discriminate|].
  cbv beta iota delta [bind Date_now ret]. intros H. injection H as <- _. reflexivity.
Qed.

End SearchToolFacts.

Module AIFacts.
Import AIService UseAI RAGService RAGTools Run.

(** No zero temperature, no zero limit.  Whatever the request, the body
    sent carries a temperature that is neither 0 nor [NaN] and a token limit
    that is not 0.  A value that is neither is sent as it is.  A request
    without temperature, or with the temperature 0, -0 or [NaN], is sent with
    0.7; a request without limit, or with the limit 0, is sent with 1000. *)
Theorem transformRequest_defaults (request : ChatRequest) :
  let payload := transformRequest request in
  number_truthy (temperature payload) = true
  /\ max_tokens payload <> 0%Z
  /\ (forall x, cr_temperature request = Some x -> number_truthy x = true ->
                temperature payload = x)
  /\ (forall n, cr_maxTokens request = Some n -> n <> 0%Z -> max_tokens payload = n)
  /\ (cr_temperature request = None
      \/ (exists x, cr_temperature request = Some x /\ number_truthy x = false) ->
      temperature payload = 0.7%float)
  /\ (cr_maxTokens request = None \/ cr_maxTokens request = Some 0%Z ->
      max_tokens payload = 1000%Z)
  /\ (forall x, number_truthy x = false <->
                PrimFloat.eqb x 0 = true \/ PrimFloat.eqb x x = false).
Proof.
  cbv zeta. unfold transformRequest. cbn [temperature max_tokens].
  split; [|split; [|split; [|split; [|split; [|split]]]]].
  - destruct (cr_temperature request) as [x|]; [|reflexivity].
    destruct (number_truthy x) eqn:E; [exact E|reflexivity].
  - destruct (cr_maxTokens request) as [n|]; [|discriminate].
    destruct (Z.eqb_spec n 0); [discriminate|assumption].
  - intros x -> Hx. rewrite Hx. reflexivity.
  - intros n -> Hn. destruct (Z.eqb_spec n 0); [contradiction|reflexivity].
  - intros [->|(x & -> & Hx)]; [reflexivity|]. rewrite Hx. reflexivity.
  - intros [->| ->]; reflexivity.
  - intros x. unfold number_truthy.
    destruct (PrimFloat.eqb x 0), (PrimFloat.eqb x x); cbn [orb negb];
      split; intros H; try reflexivity; try discriminate H;
      try (left; reflexivity); try (right; reflexivity);
      destruct H as [H|H]; discriminate H.
Qed.

Lemma transformRequest_defaults_witness :
  temperature (transformRequest {| cr_model := js "m"; cr_messages := [];
                                   cr_temperature := Some 0%float;
                                   cr_maxTokens := Some 0%Z; systemPrompt := None |})
  = 0.7%float
  /\ max_tokens (transformRequest {| cr_model := js "m"; cr_messages := [];
                                     cr_temperature := Some 0%float;
                                     cr_maxTokens := Some 0%Z; systemPrompt := None |})
     = 1000%Z.
Proof.
  pose proof (transformRequest_defaults
                {| cr_model := js "m"; cr_messages := []; cr_temperature := Some 0%float;
                   cr_maxTokens := Some 0%Z; systemPrompt := None |}) as H.
  cbv zeta in H. destruct H as (_ & _ & _ & _ & Ht & Hm & _). split.
  - apply Ht. right. exists 0%float. split; reflexivity.
  - apply Hm. right. reflexivity.
Defined.

(** The type [network] means a server error, and a request that could not
    be sent is not one.  With a key, a request answered with a status of at
    least 500 and a readable body fails with type [network]; and when
    [generateResponse] fails with an error of type [network], the API did
    answer with such a status and a readable body.  A request that was
    rejected (no connection, no answer at all) fails too, with the type
    [unknown] and the message of the rejection, or [Erreur inconnue du
    service IA] when the rejection carries none. *)
Theorem generateResponse_network (VITE_OPENROUTER_API_KEY : option jsstring)
  (chat : jsstring -> ChatPayload -> ChatReply) (request : ChatRequest) (w : World) :
  (forall error w',
     generateResponse VITE_OPENROUTER_API_KEY chat request w = (inr (inl error), w') ->
     ae_type error = network ->
     exists apiKey status statusText m,
       VITE_OPENROUTER_API_KEY = Some apiKey
       /\ chat apiKey (transformRequest request) = ChatNotOk status statusText (Readable m)
       /\ 500 <= status)
  /\ (forall apiKey status statusText m,
        VITE_OPENROUTER_API_KEY = Some apiKey -> truthy apiKey = true ->
        chat apiKey (transformRequest request) = ChatNotOk status statusText (Readable m) ->
        500 <= status ->
        exists error w',
          generateResponse VITE_OPENROUTER_API_KEY chat request w = (inr (inl error), w')
          /\ ae_type error = network)
  /\ (forall apiKey e,
        VITE_OPENROUTER_API_KEY = Some apiKey -> truthy apiKey = true ->
        chat apiKey (transformRequest request) = ChatRejected e ->
        exists w',
          generateResponse VITE_OPENROUTER_API_KEY chat request w
          = (inr (inl (untyped e)), w')
          /\ ae_type (untyped e) = unknown
          /\ ae_message (untyped e)
             = if truthy (err_message e) then err_message e
               else js "Erreur inconnue du service IA").
Proof.
  split; [|split].
  - intros error w'. unfold generateResponse. unfold bind at 1.
    cbv beta iota delta [Date_now].
    destruct VITE_OPENROUTER_API_KEY as [apiKey|].
    2:{ cbn [ret]. intros H. injection H as <- _. discriminate. }
    destruct (truthy apiKey) eqn:Hkey.
    2:{ cbn [ret]. intros H. injection H as <- _. discriminate. }
    destruct (chat apiKey (transformRequest request))
      as [e|status statusText body|e|[|choice choices] raw model] eqn:Hchat;
      cbv beta iota delta [bind Date_now ret]; intros H; try discriminate H;
      injection H as <- _; try discriminate.
    intros Htype. exists apiKey, status, statusText.
    unfold handleAPIError in Htype. destruct body as [|m]; [discriminate Htype|].
    exists m. split; [reflexivity|]. split; [exact Hchat|].
    destruct (status =? 401); [discriminate Htype|].
    destruct (status =? 429); [discriminate Htype|].
    destruct ((400 <=? status) && (status <? 500)); [discriminate Htype|].
    destruct (Nat.leb_spec 500 status); [assumption|discriminate Htype].
  - intros apiKey status statusText m -> Hkey Hchat Hstatus.
    unfold generateResponse. unfold bind at 1. cbv beta iota delta [Date_now].
    rewrite Hkey, Hchat. cbn [ret]. eexists _, _. split; [reflexivity|].
    unfold handleAPIError.
    destruct (Nat.eqb_spec status 401) as [E|_]; [lia|].
    destruct (Nat.eqb_spec status 429) as [E|_]; [lia|].
    destruct (Nat.ltb_spec status 500) as [E|_]; [lia|].
    rewrite andb_false_r.
    destruct (Nat.leb_spec 500 status) as [_|E]; [reflexivity|lia].
  - intros apiKey e -> Hkey Hchat.
    unfold generateResponse. unfold bind at 1. cbv beta iota delta [Date_now].
    rewrite Hkey, Hchat. cbn [ret]. eexists. split; [reflexivity|]. split; reflexivity.
Qed.

Lemma generateResponse_network_witness :
  (exists error w',
     generateResponse (Some (js "sk-or"))
       (fun _ _ => ChatNotOk 503 (js "Service Unavailable") (Readable None))
       {| cr_model := js "m"; cr_messages := []; cr_temperature := None;
          cr_maxTokens := None; systemPrompt := None |} (scripted 9 9)
     = (inr (inl error), w')
     /\ ae_type error = network)
  /\ (exists w',
        generateResponse (Some (js "sk-or"))
          (fun _ _ => ChatRejected (TypeError (js "Failed to fetch")))
          {| cr_model := js "m"; cr_messages := []; cr_temperature := None;
             cr_maxTokens := None; systemPrompt := None |} (scripted 9 9)
        = (inr (inl {| ae_message := js "Failed to fetch"; ae_type := unknown |}), w')).
Proof.
  split.
  - apply (proj1 (proj2 (generateResponse_network (Some (js "sk-or"))
                           (fun _ _ => ChatNotOk 503 (js "Service Unavailable") (Readable None))
                           {| cr_model := js "m"; cr_messages := []; cr_temperature := None;
                              cr_maxTokens := None; systemPrompt := None |} (scripted 9 9)))
             (js "sk-or") 503 (js "Service Unavailable") None);
      try reflexivity. lia.
  - destruct (proj2 (proj2 (generateResponse_network (Some (js "sk-or"))
                              (fun _ _ => ChatRejected (TypeError (js "Failed to fetch")))
                              {| cr_model := js "m"; cr_messages := []; cr_temperature := None;
                                 cr_maxTokens := None; systemPrompt := None |} (scripted 9 9)))
                (js "sk-or") (TypeError (js "Failed to fetch")) eq_refl eq_refl eq_refl)
      as (w' & Hrun & _).
    exists w'. exact Hrun.
Defined.

Lemma trim_cons_nonempty (c : N) (r : jsstring) : is_space c = false -> trim (c :: r) <> [].
Proof.
  intros Hc. unfold trim, trimEnd. rewrite (TrimFacts.trimStart_nonspace c r Hc).
  cbn [rev]. rewrite (TrimFacts.trimStart_snoc (rev r) c Hc).
  intros E. apply (f_equal (@rev N)) in E. rewrite rev_involutive in E. cbn [rev] in E.
  destruct (trimStart (rev r)); discriminate E.
Qed.

Lemma context_of_matches (ms : list SimilarityMatch) :
  ms <> [] ->
  exists r, join (js "\n\n") (mapi contextBlock ms) = 91%N :: r.
Proof.
  destruct ms as [|m ms]; [contradiction|]. intros _.
  unfold mapi. cbn [mapi_from]. destruct (mapi_from 1 contextBlock ms) as [|b bs];
    cbn [join]; unfold contextBlock; eexists; reflexivity.
Qed.

Lemma hasEmbeddings_run (self : RAGService.t) (gemId : jsstring) (db : Db) :
  exists b, hasEmbeddings self gemId db = (inr b, set_select_calls (S (select_calls db)) db).
Proof.
  unfold hasEmbeddings, dtry_catch, dbind, supabase_count.
  destruct (count_reply db (select_calls db) gemId) as [e|[[|n]|] [msg|]];
    cbn [fst snd dret]; eexists; reflexivity.
Qed.

(** The search never breaks the chat.  Whatever the store, the API and the
    callback do, the search block of [generateResponse] returns a prompt.
    Either the prompt is the prompt of the gem, unchanged, and no context is
    marked as used; or the search returned at least one match and the prompt
    is the prompt of the gem followed by the context of these matches and
    the instructions, the context being marked as used. *)
Theorem ragSearch_never_throws (ragService : RAGService.t) (gem : Gem)
  (userMessage : jsstring) (useRAG : bool) (ragConfig : option RAGConfig)
  (onRAGSearch : option (RAGSearchResult -> D unit)) (db : Db) :
  exists promptSent ragContext db',
    ragSearch ragService gem userMessage useRAG ragConfig onRAGSearch db
    = (inr (promptSent, ragContext), db')
    /\ ((promptSent = prompt gem
         /\ match ragContext with Some c => contextUsed c = false | None => True end)
        \/ exists out,
             matches (searchResult out) <> []
             /\ context out
                = join (js "\n\n") (mapi contextBlock (matches (searchResult out)))
             /\ promptSent = enhancedPromptOf (prompt gem) (context out)
             /\ ragContext = Some {| rc_searchResult := searchResult out;
                                     rc_sources := sources out;
                                     contextUsed := true |}).
Proof.
  unfold ragSearch. destruct useRAG.
  2:{ eexists _, _, _. split; [reflexivity|]. left. split; [reflexivity|exact I]. }
  unfold dtry_catch. unfold dbind at 1.
  destruct (hasEmbeddings_run ragService (id gem) db) as [b Hhas]. rewrite Hhas.
  destruct (b && EmbeddingService.isConfigured (embeddingService ragService)).
  2:{ eexists _, _, _. split; [reflexivity|]. left. split; [reflexivity|exact I]. }
  unfold dbind at 1. unfold lift at 1.
  destruct (searchForAI ragService (id gem) userMessage _ _) as [[e|out] w1] eqn:Hsearch.
  { eexists _, _, _. split; [reflexivity|]. left. split; [reflexivity|exact I]. }
  apply SearchToolFacts.searchForAI_shape in Hsearch.
  unfold dbind at 1.
  destruct (match onRAGSearch with
            | Some callback => callback (searchResult out)
            | None => dret tt
            end (set_world w1 (set_select_calls (S (select_calls db)) db)))
    as [[e|u] db2].
  { eexists _, _, _. split; [reflexivity|]. left. split; [reflexivity|exact I]. }
  destruct (truthy (context out) && (0 <? length (trim (context out)))) eqn:Hctx.
  - eexists _, _, _. split; [reflexivity|]. right. exists out.
    split; [|split; [exact Hsearch|split; reflexivity]].
    intros Hnil. rewrite Hsearch, Hnil in Hctx. discriminate Hctx.
  - eexists _, _, _. split; [reflexivity|]. left. split; reflexivity.
Qed.

(** A search that finds a match always enriches the prompt: the context of
    a non-empty list of matches is never blank. *)
Lemma context_never_blank (ms : list SimilarityMatch) :
  ms <> [] ->
  truthy (join (js "\n\n") (mapi contextBlock ms))
  && (0 <? length (trim (join (js "\n\n") (mapi contextBlock ms)))) = true.
Proof.
  intros Hms. destruct (context_of_matches ms Hms) as [r ->].
  cbn [truthy andb]. apply Nat.ltb_lt.
  pose proof (trim_cons_nonempty 91 r eq_refl) as H.
  destruct (trim (91%N :: r)); [contradiction|cbn [length]; lia].
Qed.

Lemma skipn_last_length {A} (l : list A) (n : nat) :
  length (skipn (length l - n) l) = Nat.min (length l) n.
Proof. rewrite length_skipn. lia. Qed.

(** What the model receives.  The body built from the request of
    [generateResponse] holds, in this order: the system message with the
    prompt, when the prompt is not empty; the last 10 messages of the
    conversation, or all of them when there are fewer; the new message of
    the user, last.  It never holds more than 12 messages. *)
Theorem chat_payload_shape (gem : Gem) (messages : list Message)
  (userMessage enhancedPrompt : jsstring) :
  let payload := transformRequest (chatRequest gem messages userMessage enhancedPrompt) in
  exists history,
    p_messages payload
    = (if truthy enhancedPrompt
       then [{| role := js "system"; cm_content := enhancedPrompt |}] else [])
      ++ map (fun msg => {| role := m_role msg; cm_content := m_content msg |}) history
      ++ [{| role := js "user"; cm_content := userMessage |}]
    /\ (exists older, messages = older ++ history)
    /\ length history = Nat.min (length messages) 10
    /\ length (p_messages payload) <= 12.
Proof.
  cbv zeta. exists (skipn (length messages - 10) messages).
  unfold transformRequest, chatRequest, chatMessages. cbn [p_messages systemPrompt cr_messages].
  split; [reflexivity|]. split.
  - exists (firstn (length messages - 10) messages). symmetry. apply firstn_skipn.
  - split; [apply skipn_last_length|].
    rewrite !length_app, length_map, skipn_last_length. cbn [length].
    destruct (truthy enhancedPrompt); cbn [length]; lia.
Qed.

End AIFacts.

(** ** From the uploaded file to the index *)

Module UploadFacts.
Import FileParserService FileParserTools DatasetService EmbeddingService RAGService Run.
Import ChunkingService.

Section Builtins.

Variable JSON_parse : jsstring -> option JsonValue.
Variable JSON_stringify : JsonValue -> jsstring.
Variable JSON_stringify2 : JsonValue -> jsstring.
Variable Object_values : JsonValue -> JsError + list JsonValue.
Variable Number_toString : float -> jsstring.

Lemma textRows_joined (lines : list jsstring) :
  forall start,
    map (element_text Number_toString)
      (mapi_from start
         (fun index line =>
            JObject [(js "ligne", JNumber (Num.of_nat (index + 1)));
                     (js "contenu", JString (trim line))]) lines)
    = repeat (js "[object Object]") (length lines).
Proof.
  induction lines as [|line lines IH]; intros start; cbn [mapi_from map length repeat];
    [reflexivity|].
  rewrite IH. reflexivity.
Qed.

(** The branch of [convertDataToText] for the rows of [parseText]. *)
Ltac rows_as_text :=
  unfold convertDataToText, parseText; cbn [data pf_type]; unfold mapi;
  match goal with
  | |- context [csvLines ?t] => destruct (csvLines t) as [|? ?]; [reflexivity|]
  end;
  cbn [mapi_from length Nat.eqb];
  replace (str_eqb (js "txt") (js "csv") || str_eqb (js "txt") (js "xlsx")) with false
    by reflexivity;
  replace (str_eqb (js "txt") (js "json")) with false by reflexivity;
  replace (str_eqb (js "txt") (js "txt") || str_eqb (js "txt") (js "pdf")) with true
    by reflexivity;
  cbv iota; unfold array_join; cbn [map]; rewrite textRows_joined; reflexivity.

(** The content of a text file does not reach the index.  The rows of
    [parseText] are objects, and [convertDataToText] joins them as they are:
    the text handed to the indexer is [[object Object]] once for each line
    kept, separated by line feeds, whatever the file holds. *)
Theorem text_upload_loses_content (text : jsstring) :
  convertDataToText JSON_stringify JSON_stringify2 Object_values Number_toString
    (parseText text)
  = inr (join (js "\n") (repeat (js "[object Object]") (length (csvLines text)))).
Proof.
  unfold convertDataToText, parseText. cbn [data pf_type]. unfold mapi.
  destruct (csvLines text) as [|line lines]; [reflexivity|].
  cbn [mapi_from length Nat.eqb].
  replace (str_eqb (js "txt") (js "csv") || str_eqb (js "txt") (js "xlsx")) with false
    by reflexivity.
  replace (str_eqb (js "txt") (js "json")) with false by reflexivity.
  replace (str_eqb (js "txt") (js "txt") || str_eqb (js "txt") (js "pdf")) with true
    by reflexivity.
  cbv iota. unfold array_join. cbn [map]. rewrite textRows_joined. reflexivity.
Qed.

(** The lines kept of a text that holds no backslash followed by [n]. *)
Lemma csvLines_one (text : jsstring) :
  split (js "\\n") text = [text] ->
  csvLines text = if truthy (trim text) then [text] else [].
Proof. intros H. unfold csvLines. rewrite H. cbn [filter]. reflexivity. Qed.

Lemma chunkContent_txt (text fileName : jsstring) (config : ChunkingConfig) :
  chunkContent JSON_parse JSON_stringify text (js "txt") fileName config
  = chunkText text fileName config.
Proof. reflexivity. Qed.

Lemma chunkContent_csv (text fileName : jsstring) (config : ChunkingConfig) :
  chunkContent JSON_parse JSON_stringify text (js "csv") fileName config
  = chunkCSV text fileName config.
Proof. reflexivity. Qed.

Lemma no_chunk_text (text fileName : jsstring) (config : ChunkingConfig) :
  ChunkingTools.single_line text ->
  (Z.of_nat (length (trim text)) < minChunkSize config)%Z ->
  chunkText text fileName config = [].
Proof.
  intros Hline Hshort. unfold chunkText.
  rewrite (TextFacts.textLoop_single_line text fileName config Hline).
  unfold textFlush. cbn [chunks currentChunk app]. rewrite TrimFacts.trim_idempotent.
  destruct (Z.geb_spec (Z.of_nat (length (trim text))) (minChunkSize config)); [lia|].
  reflexivity.
Qed.

(** The reports of a run that stops at [Aucun chunk]. *)
Lemma background_no_chunk (ragService : RAGService.t) (dataset : DatasetRow)
  (parsedData : ParsedFileData) (ragConfig : RAGConfig) (contentText : jsstring) (w : World) :
  isConfigured (embeddingService ragService) = true ->
  convertDataToText JSON_stringify JSON_stringify2 Object_values Number_toString parsedData
  = inr contentText ->
  chunkContent JSON_parse JSON_stringify contentText (file_type dataset) (file_name dataset)
    (chunkingConfig ragConfig) = [] ->
  exists events,
    indexDatasetInBackground JSON_parse JSON_stringify JSON_stringify2 Object_values
      Number_toString ragService dataset parsedData ragConfig w
    = (inr events, set_clock_reads (S (clock_reads w)) w)
    /\ map status events = [js "starting"; js "chunking"; js "embedding"; js "error"]
    /\ last (map ip_error events) None
       = Some (js "Aucun chunk g" ++ [233%N] ++ js "n" ++ [233%N] ++ js "r" ++ [233%N] ++ js " " ++ [224%N] ++ js " partir du contenu").
Proof.
  intros Hkey Htext Hnone. unfold indexDatasetInBackground.
  unfold bind at 1. cbv beta iota delta [Date_now]. rewrite Hkey, Htext. cbn [negb].
  unfold try_catch, bind, indexDataset. rewrite Hnone. cbn [length Nat.eqb throw ret].
  eexists. split; [reflexivity|]. split; reflexivity.
Qed.

(** A text file is not indexed.  For a text that holds no backslash followed
    by [n] (a file with ordinary line ends is such a text), a service with a
    key and a [minChunkSize] of at least 16, the indexing of the parsed file
    ends with the report [error], [Aucun chunk ...]: no request is made to
    the embedding API and nothing is stored. *)
Theorem text_upload_not_indexed (ragService : RAGService.t) (dataset : DatasetRow)
  (text : jsstring) (ragConfig : RAGConfig) (w : World) :
  isConfigured (embeddingService ragService) = true ->
  split (js "\\n") text = [text] ->
  file_type dataset = js "txt" ->
  (16 <= minChunkSize (chunkingConfig ragConfig))%Z ->
  exists events w',
    indexDatasetInBackground JSON_parse JSON_stringify JSON_stringify2 Object_values
      Number_toString ragService dataset (parseText text) ragConfig w
    = (inr events, w')
    /\ map status events = [js "starting"; js "chunking"; js "embedding"; js "error"]
    /\ last (map ip_error events) None
       = Some (js "Aucun chunk g" ++ [233%N] ++ js "n" ++ [233%N] ++ js "r" ++ [233%N] ++ js " " ++ [224%N] ++ js " partir du contenu")
    /\ gemini_calls w' = gemini_calls w
    /\ embeddings_table w' = embeddings_table w.
Proof.
  intros Hkey Hone Htype Hmin.
  assert (Htext : convertDataToText JSON_stringify JSON_stringify2 Object_values
                    Number_toString (parseText text)
                  = inr (join (js "\n")
                           (repeat (js "[object Object]") (length (csvLines text)))))
    by rows_as_text.
  destruct (background_no_chunk ragService dataset (parseText text) ragConfig _ w Hkey Htext)
    as (events & Hrun & Hstatus & Herror).
  - rewrite Htype, chunkContent_txt, (csvLines_one text Hone).
    destruct (truthy (trim text)); cbn [length repeat join]; apply no_chunk_text.
    + unfold ChunkingTools.single_line. repeat (constructor; [discriminate|]). constructor.
    + change (Z.of_nat (length (trim (js "[object Object]")))) with 15%Z. lia.
    + constructor.
    + change (Z.of_nat (length (trim []))) with 0%Z. lia.
  - exists events, (set_clock_reads (S (clock_reads w)) w).
    split; [exact Hrun|]. split; [exact Hstatus|]. split; [exact Herror|].
    split; reflexivity.
Qed.

(** A CSV file is not indexed either.  The parser splits its text at a
    backslash followed by [n]: a text without that pair is one line, the
    header.  If it is blank the parser fails; otherwise it returns no row,
    and the indexing of the parsed file, with a key, ends with the report
    [error], [Aucun chunk ...], whatever the configuration: no request is
    made and nothing is stored. *)
Theorem csv_upload_not_indexed (ragService : RAGService.t) (dataset : DatasetRow)
  (text : jsstring) (ragConfig : RAGConfig) (w : World) :
  isConfigured (embeddingService ragService) = true ->
  split (js "\\n") text = [text] ->
  file_type dataset = js "csv" ->
  match parseCSV text with
  | inl e => truthy (trim text) = false /\ e = Error (js "Le fichier CSV est vide")
  | inr parsed =>
      data parsed = [] /\ rows parsed = 0
      /\ exists events w',
           indexDatasetInBackground JSON_parse JSON_stringify JSON_stringify2 Object_values
             Number_toString ragService dataset parsed ragConfig w
           = (inr events, w')
           /\ map status events = [js "starting"; js "chunking"; js "embedding"; js "error"]
           /\ last (map ip_error events) None
              = Some (js "Aucun chunk g" ++ [233%N] ++ js "n" ++ [233%N] ++ js "r" ++ [233%N] ++ js " " ++ [224%N] ++ js " partir du contenu")
           /\ gemini_calls w' = gemini_calls w
           /\ embeddings_table w' = embeddings_table w
  end.
Proof.
  intros Hkey Hone Htype. unfold parseCSV. rewrite (csvLines_one text Hone).
  destruct (truthy (trim text)); [|split; reflexivity].
  cbn [data rows length]. split; [reflexivity|]. split; [reflexivity|].
  set (parsed := {| pf_type := js "csv"; data := _; columns := _; rows := _ |}).
  destruct (background_no_chunk ragService dataset parsed ragConfig [] w Hkey eq_refl)
    as (events & Hrun & Hstatus & Herror).
  - rewrite Htype, chunkContent_csv. apply TabularFacts.chunkCSV_one_line. reflexivity.
  - exists events, (set_clock_reads (S (clock_reads w)) w).
    split; [exact Hrun|]. split; [exact Hstatus|]. split; [exact Herror|].
    split; reflexivity.
Qed.

End Builtins.

Lemma text_upload_not_indexed_witness :
  exists events w',
    indexDatasetInBackground (fun _ => None) (fun _ => []) (fun _ => []) (fun _ => inr [])
      (fun _ => []) rag
      {| id := js "d1"; ds_gem_id := js "g1"; file_name := js "notes.txt";
         file_type := js "txt" |}
      (parseText (js "First line.\nSecond line.\n\nA new paragraph."))
      DEFAULT_RAG_CONFIG (scripted 9 9)
    = (inr events, w')
    /\ map status events = [js "starting"; js "chunking"; js "embedding"; js "error"]
    /\ last (map ip_error events) None
       = Some (js "Aucun chunk g" ++ [233%N] ++ js "n" ++ [233%N] ++ js "r" ++ [233%N] ++ js " " ++ [224%N] ++ js " partir du contenu")
    /\ gemini_calls w' = gemini_calls (scripted 9 9)
    /\ embeddings_table w' = embeddings_table (scripted 9 9).
Proof.
  apply (text_upload_not_indexed (fun _ => None) (fun _ => []) (fun _ => [])
           (fun _ => inr []) (fun _ => []) rag
           {| id := js "d1"; ds_gem_id := js "g1"; file_name := js "notes.txt";
              file_type := js "txt" |}
           (js "First line.\nSecond line.\n\nA new paragraph.") DEFAULT_RAG_CONFIG
           (scripted 9 9)).
  - reflexivity.
  - vm_compute. reflexivity.
  - reflexivity.
  - vm_compute. discriminate.
Defined.

Lemma csv_upload_not_indexed_witness :
  match parseCSV (js "name,age\nAda,36\nAlan,41") with
  | inl e => truthy (trim (js "name,age\nAda,36\nAlan,41")) = false
             /\ e = Error (js "Le fichier CSV est vide")
  | inr parsed =>
      data parsed = [] /\ rows parsed = 0
      /\ exists events w',
           indexDatasetInBackground (fun _ => None) (fun _ => []) (fun _ => [])
             (fun _ => inr []) (fun _ => []) rag
             {| id := js "d1"; ds_gem_id := js "g1"; file_name := js "people.csv";
                file_type := js "csv" |} parsed DEFAULT_RAG_CONFIG (scripted 9 9)
           = (inr events, w')
           /\ map status events = [js "starting"; js "chunking"; js "embedding"; js "error"]
           /\ last (map ip_error events) None
              = Some (js "Aucun chunk g" ++ [233%N] ++ js "n" ++ [233%N] ++ js "r" ++ [233%N] ++ js " " ++ [224%N] ++ js " partir du contenu")
           /\ gemini_calls w' = gemini_calls (scripted 9 9)
           /\ embeddings_table w' = embeddings_table (scripted 9 9)
  end.
Proof.
  apply (csv_upload_not_indexed (fun _ => None) (fun _ => []) (fun _ => [])
           (fun _ => inr []) (fun _ => []) rag
           {| id := js "d1"; ds_gem_id := js "g1"; file_name := js "people.csv";
              file_type := js "csv" |}
           (js "name,age\nAda,36\nAlan,41") DEFAULT_RAG_CONFIG (scripted 9 9)).
  - reflexivity.
  - vm_compute. reflexivity.
  - reflexivity.
Defined.

End UploadFacts.
